(** * sync_starship_ghostty_palette: the colour pipeline

    A shallow embedding of [lib/sync_starship_ghostty_palette.py] (the colour
    functions and [build_starship_palette]) and the properties its
    specification states about them.

    Modelling decisions, fixed once for the whole file:

    - a Python [str] is a [string]: a sequence of code points below 256;
    - a Python [int] is a [Z];
    - a Python [float] is a real number ([R]): the arithmetic of the source
      is read with exact real operations, [x ** y] as [Rpower x y] (the
      source only raises positive numbers to a power) and [round] as
      rounding to the nearest integer, ties to the even one.  Binary64
      rounding errors are therefore not part of these definitions.  The
      theorems that fix the colour the saturation boost or the luminance
      rescaling returns, for a factor or a target left to the caller, bound
      it (a factor of at most 4096, a target of at most 1), which keeps the
      rounding of the source far below one channel step; they compare
      luminances up to [1e-9], not exactly.  Module [Binary64] repeats the
      arithmetic of [scale_luminance] on binary64 numbers and shows what
      rounding does to an exact statement;
    - a call that raises in Python returns [None]; the model also returns
      [None] on the few inputs of [int(s, 16)] that it does not cover (signs,
      blanks and underscores inside a two-character slice), so every [Some]
      of the model is a value the source returns;
    - the [parsed] dictionary is a record with one optional field per key
      that [build_starship_palette] reads, its ["palette"] entry a finite
      map from integers to strings; the returned dictionary is the list of
      its items in insertion order. *)

From Stdlib Require Import Floats QArith.
From Stdlib Require Import Reals Lra Lia ZArith String Ascii List Bool Psatz.
From Stdlib Require Import HexadecimalString.
From stdpp Require Import gmap strings.

Open Scope R_scope.
Open Scope string_scope.

(** ** Numbers *)

(** [round(x)] on a float: nearest integer, ties to even. *)
Definition py_round (x : R) : Z :=
  let f := Zfloor x in
  let d := x - IZR f in
  if Rlt_dec d (1 / 2) then f
  else if Rlt_dec (1 / 2) d then (f + 1)%Z
  else if Z.even f then f else (f + 1)%Z.

(** [x ** y] for a positive base. *)
Definition py_pow (x y : R) : R := Rpower x y.

Definition DARK_BACKGROUND_LUMINANCE_THRESHOLD : R := 0.26.
Definition DARK_THEME_SATURATION_BOOST : R := 1.35.
Definition DARK_ACCENT_MAX_LUMINANCE : R := 0.55.
Definition DARK_ACCENT_MIN_CONTRAST : R := 3.5.

(** ** Strings *)

(** [str.isspace] on the code points below 256. *)
Definition is_space (c : ascii) : bool :=
  let n := nat_of_ascii c in
  ((9 <=? n)%nat && (n <=? 13)%nat)
  || ((28 <=? n)%nat && (n <=? 32)%nat)
  || (n =? 133)%nat || (n =? 160)%nat.

Fixpoint lstrip (p : ascii -> bool) (s : string) : string :=
  match s with
  | String c s' => if p c then lstrip p s' else s
  | EmptyString => EmptyString
  end.

Fixpoint rstrip (p : ascii -> bool) (s : string) : string :=
  match s with
  | String c s' =>
      match rstrip p s' with
      | EmptyString => if p c then EmptyString else String c EmptyString
      | t => String c t
      end
  | EmptyString => EmptyString
  end.

(** [s.strip()] *)
Definition strip (s : string) : string := rstrip is_space (lstrip is_space s).

(** Value of one character of [0-9a-fA-F]. *)
Definition hex_digit (c : ascii) : option Z :=
  let n := Z.of_nat (nat_of_ascii c) in
  if ((48 <=? n) && (n <=? 57))%Z then Some (n - 48)%Z
  else if ((97 <=? n) && (n <=? 102))%Z then Some (n - 87)%Z
  else if ((65 <=? n) && (n <=? 70))%Z then Some (n - 55)%Z
  else None.

Definition is_hex (c : ascii) : bool :=
  match hex_digit c with Some _ => true | None => false end.

(** [c.lower()] on ASCII letters (it is only applied to hexadecimal digits). *)
Definition lower_ascii (c : ascii) : ascii :=
  let n := nat_of_ascii c in
  if ((65 <=? n) && (n <=? 90))%nat then ascii_of_nat (n + 32) else c.

Fixpoint lower (s : string) : string :=
  match s with
  | String c s' => String (lower_ascii c) (lower s')
  | EmptyString => EmptyString
  end.

Fixpoint all_hex (s : string) : bool :=
  match s with
  | String c s' => is_hex c && all_hex s'
  | EmptyString => true
  end.

(** [HEX_RE.match(s)]: the pattern [^#([0-9a-fA-F]{6})$]; the result is
    group 1.  [$] also matches just before a final newline. *)
Definition HEX_RE_match (s : string) : option string :=
  match s with
  | String "#" rest =>
      let digits := substring 0 6 rest in
      let tail := substring 6 (String.length rest - 6) rest in
      if (String.length digits =? 6)%nat && all_hex digits
         && (String.eqb tail "" || String.eqb tail (String "010" ""))
      then Some digits else None
  | _ => None
  end.

Definition normalize_hex (value : string) : option string :=
  match HEX_RE_match (strip value) with
  | None => None
  | Some group1 => Some ("#" ++ lower group1)
  end.

(** [int(s, 16)] on a non-empty string of hexadecimal digits; [None] on the
    empty string (ValueError) and on everything else. *)
Fixpoint int16_from (acc : Z) (s : string) : option Z :=
  match s with
  | EmptyString => Some acc
  | String c s' =>
      match hex_digit c with
      | Some d => int16_from (16 * acc + d)%Z s'
      | None => None
      end
  end.

Definition int16 (s : string) : option Z :=
  match s with
  | EmptyString => None
  | _ => int16_from 0%Z s
  end.

Definition hex_to_rgb (value : string) : option (Z * Z * Z) :=
  let raw := lstrip (Ascii.eqb "#") value in
  r ← int16 (substring 0 2 raw);
  g ← int16 (substring 2 2 raw);
  b ← int16 (substring 4 2 raw);
  Some (r, g, b).

(** [f"{n:02x}"]: lowercase hexadecimal, zero-padded to two characters; a
    negative number prints its sign and is never padded. *)
Definition hex_of_nonneg (n : Z) : string :=
  NilZero.string_of_uint (N.to_hex_uint (Z.to_N n)).

Definition format_02x (n : Z) : string :=
  if (n <? 0)%Z then "-" ++ hex_of_nonneg (- n)
  else
    let digits := hex_of_nonneg n in
    if (String.length digits <? 2)%nat then "0" ++ digits else digits.

Definition rgb_to_hex (rgb : Z * Z * Z) : string :=
  let '(r, g, b) := rgb in
  "#" ++ format_02x r ++ format_02x g ++ format_02x b.

(** The canonical form of a colour: [#] and six digits of [0-9a-f]. *)
Definition is_lower_hex (c : ascii) : bool :=
  let n := nat_of_ascii c in
  ((48 <=? n)%nat && (n <=? 57)%nat) || ((97 <=? n)%nat && (n <=? 102)%nat).

Definition canonical (s : string) : bool :=
  match s with
  | String "#" (String a (String b (String c (String d
      (String e (String f EmptyString)))))) =>
      is_lower_hex a && is_lower_hex b && is_lower_hex c
      && is_lower_hex d && is_lower_hex e && is_lower_hex f
  | _ => false
  end.

(** ** Colour arithmetic *)

Definition blend (a b : string) (amount : R) : option string :=
  '(ar, ag, ab) ← hex_to_rgb a;
  '(br, bg, bb) ← hex_to_rgb b;
  let r := py_round (IZR ar + IZR (br - ar) * amount) in
  let g := py_round (IZR ag + IZR (bg - ag) * amount) in
  let b_out := py_round (IZR ab + IZR (bb - ab) * amount) in
  Some (rgb_to_hex (r, g, b_out)).

Definition channel_to_linear (channel : Z) : R :=
  let value := IZR channel / 255 in
  if Rle_dec value 0.04045 then value / 12.92
  else py_pow ((value + 0.055) / 1.055) 2.4.

Definition linear_to_channel (value : R) : Z :=
  let value := Rmax 0 (Rmin 1 value) in
  let srgb :=
    if Rle_dec value 0.0031308 then value * 12.92
    else 1.055 * py_pow value (1 / 2.4) - 0.055 in
  py_round (srgb * 255).

(** The weighted sum both [relative_luminance] and the two rescaling
    functions write out. *)
Definition luminance_of (rl gl bl : R) : R :=
  0.2126 * rl + 0.7152 * gl + 0.0722 * bl.

Definition relative_luminance (color : string) : option R :=
  '(r, g, b) ← hex_to_rgb color;
  let rl := channel_to_linear r in
  let gl := channel_to_linear g in
  let bl := channel_to_linear b in
  Some (luminance_of rl gl bl).

Definition contrast_ratio (a b : string) : option R :=
  la ← relative_luminance a;
  lb ← relative_luminance b;
  let lighter := Rmax la lb in
  let darker := Rmin la lb in
  Some ((lighter + 0.05) / (darker + 0.05)).

(** ** Text colour selection *)

(** One round of the loop that fills [unique_candidates]. *)
Definition add_candidate (unique_candidates : list string) (color : string)
  : list string :=
  match normalize_hex color with
  | Some normalized =>
      if existsb (String.eqb normalized) unique_candidates
      then unique_candidates
      else unique_candidates ++ [normalized]
  | None => unique_candidates
  end.

Definition unique_candidates_of (candidates : list string) : list string :=
  fold_left add_candidate candidates [].

(** [max(items, key=key)] after its first item: the running maximum is
    replaced only by an item whose key is strictly greater. *)
Fixpoint max_by_key {A} (key : A -> option R) (best : A) (best_key : R)
    (items : list A) : option A :=
  match items with
  | [] => Some best
  | x :: items' =>
      k ← key x;
      if Rlt_dec best_key k then max_by_key key x k items'
      else max_by_key key best best_key items'
  end.

Definition best_contrast_text (background : string) (candidates : list string)
  : option string :=
  match unique_candidates_of candidates with
  | [] => Some "#ffffff"
  | first :: others =>
      k ← contrast_ratio background first;
      max_by_key (contrast_ratio background) first k others
  end.

(** ** Saturation boost *)

Definition transform (y r g b k : R) : R * R * R :=
  (y + (r - y) * k, y + (g - y) * k, y + (b - y) * k).

(** [0.0 <= x <= 1.0] *)
Definition in_unit (x : R) : bool :=
  if Rle_dec 0 x then (if Rle_dec x 1 then true else false) else false.

Definition in_gamut (t : R * R * R) : bool :=
  let '(tr, tg, tb) := t in in_unit tr && in_unit tg && in_unit tb.

(** One round of the search loop on the pair [(low, high)]. *)
Definition search_step (y r g b : R) (bounds : R * R) : R * R :=
  let '(low, high) := bounds in
  let mid := (low + high) / 2 in
  if in_gamut (transform y r g b mid) then (mid, high) else (low, mid).

Fixpoint search (n : nat) (y r g b : R) (bounds : R * R) : R * R :=
  match n with
  | O => bounds
  | S n' => search n' y r g b (search_step y r g b bounds)
  end.

(** The value of [low] after the [for _ in range(20)] loop. *)
Definition search_low (y r g b factor : R) : R :=
  fst (search 20 y r g b (1, factor)).

Definition boost_saturation_preserve_luminance (color : string) (factor : R)
  : option string :=
  if Rle_dec factor 1 then Some color
  else
    '(r8, g8, b8) ← hex_to_rgb color;
    let r := channel_to_linear r8 in
    let g := channel_to_linear g8 in
    let b := channel_to_linear b8 in
    let y := luminance_of r g b in
    let low := search_low y r g b factor in
    let '(out_r, out_g, out_b) := transform y r g b low in
    Some (rgb_to_hex (linear_to_channel out_r,
                      linear_to_channel out_g,
                      linear_to_channel out_b)).

(** ** Luminance rescaling *)

(** The linear triple [scale_luminance] re-encodes: the channels times
    [target_lum / current_lum], divided once more by their maximum when that
    exceeds 1. *)
Definition scaled_linear (rl gl bl target_lum : R) : R * R * R :=
  let current_lum := luminance_of rl gl bl in
  let factor := target_lum / current_lum in
  let new_r := rl * factor in
  let new_g := gl * factor in
  let new_b := bl * factor in
  let max_val := Rmax (Rmax new_r new_g) new_b in
  if Rlt_dec 1 max_val then
    let factor := factor / max_val in
    (rl * factor, gl * factor, bl * factor)
  else (new_r, new_g, new_b).

Definition scale_luminance (color : string) (target_lum : R) : option string :=
  '(r, g, b) ← hex_to_rgb color;
  let rl := channel_to_linear r in
  let gl := channel_to_linear g in
  let bl := channel_to_linear b in
  let current_lum := luminance_of rl gl bl in
  if Rlt_dec current_lum 0.001 then Some color
  else
    let '(new_r, new_g, new_b) := scaled_linear rl gl bl target_lum in
    Some (rgb_to_hex (linear_to_channel new_r,
                      linear_to_channel new_g,
                      linear_to_channel new_b)).

(** ** The palette *)

Record parsed_config := Parsed {
  p_palette : option (gmap Z string);
  p_foreground : option string;
  p_background : option string;
  p_selection_background : option string;
}.

(** The operand of [or] when it is truthy: present and not empty. *)
Definition truthy (v : option string) : option string :=
  match v with
  | Some s => if String.eqb s "" then None else Some s
  | None => None
  end.

(** [v or d] *)
Definition or_else (v : option string) (d : string) : string :=
  match truthy v with Some s => s | None => d end.

Record accents := Accents {
  red : string; green : string; yellow : string; blue : string;
  purple : string; aqua : string; orange : string;
}.

Record inputs := Inputs {
  foreground : string;
  background : string;
  selection_background : string;
  raw_accents : accents;
}.

(** [colors = parsed.get("palette", {})] *)
Definition colors_of (parsed : parsed_config) : gmap Z string :=
  match p_palette parsed with Some d => d | None => ∅ end.

(** The local variables [foreground] and [background]. *)
Definition foreground_of (parsed : parsed_config) : string :=
  or_else (p_foreground parsed) (or_else (colors_of parsed !! 7%Z) "#fbf1c7").

Definition background_of (parsed : parsed_config) : string :=
  or_else (p_background parsed) (or_else (colors_of parsed !! 0%Z) "#3c3836").

(** Lines 200 to 216: the values of the local variables before the
    dark-theme block. *)
Definition resolve_inputs (parsed : parsed_config) : option inputs :=
  let colors := colors_of parsed in
  let foreground := foreground_of parsed in
  let background := background_of parsed in
  selection_background ←
    match truthy (p_selection_background parsed) with
    | Some s => Some s
    | None =>
        match truthy (colors !! 8%Z) with
        | Some s => Some s
        | None => blend background foreground 0.25
        end
    end;
  let red := or_else (colors !! 1%Z) "#cc241d" in
  let green := or_else (colors !! 2%Z) "#98971a" in
  let yellow := or_else (colors !! 3%Z) "#d79921" in
  let blue := or_else (colors !! 4%Z) "#458588" in
  let purple := or_else (colors !! 5%Z) "#b16286" in
  let aqua := or_else (colors !! 6%Z) "#689d6a" in
  orange ← blend red yellow 0.5;
  Some (Inputs foreground background selection_background
          (Accents red green yellow blue purple aqua orange)).

Definition _clamp_lum (c : string) : option string :=
  l ← relative_luminance c;
  if Rlt_dec DARK_ACCENT_MAX_LUMINANCE l
  then scale_luminance c DARK_ACCENT_MAX_LUMINANCE
  else Some c.

Definition _ensure_contrast (background : string) (bg_lum : R) (c : string)
  : option string :=
  cr ← contrast_ratio c background;
  if Rlt_dec cr DARK_ACCENT_MIN_CONTRAST then
    let target_lum := DARK_ACCENT_MIN_CONTRAST * (bg_lum + 0.05) - 0.05 in
    let target_lum := Rmax target_lum 0.15 in
    scale_luminance c target_lum
  else Some c.

(** Lines 218 to 263: the dark-theme block. *)
Definition dark_theme_block (background : string) (a : accents)
  : option accents :=
  l ← relative_luminance background;
  if Rlt_dec l DARK_BACKGROUND_LUMINANCE_THRESHOLD then
    red ← boost_saturation_preserve_luminance (red a) DARK_THEME_SATURATION_BOOST;
    green ← boost_saturation_preserve_luminance (green a) DARK_THEME_SATURATION_BOOST;
    yellow ← boost_saturation_preserve_luminance (yellow a) DARK_THEME_SATURATION_BOOST;
    blue ← boost_saturation_preserve_luminance (blue a) DARK_THEME_SATURATION_BOOST;
    purple ← boost_saturation_preserve_luminance (purple a) DARK_THEME_SATURATION_BOOST;
    aqua ← boost_saturation_preserve_luminance (aqua a) DARK_THEME_SATURATION_BOOST;
    orange ← boost_saturation_preserve_luminance (orange a) DARK_THEME_SATURATION_BOOST;
    red ← _clamp_lum red;
    green ← _clamp_lum green;
    yellow ← _clamp_lum yellow;
    blue ← _clamp_lum blue;
    purple ← _clamp_lum purple;
    aqua ← _clamp_lum aqua;
    orange ← _clamp_lum orange;
    bg_lum ← relative_luminance background;
    red ← _ensure_contrast background bg_lum red;
    green ← _ensure_contrast background bg_lum green;
    yellow ← _ensure_contrast background bg_lum yellow;
    blue ← _ensure_contrast background bg_lum blue;
    purple ← _ensure_contrast background bg_lum purple;
    aqua ← _ensure_contrast background bg_lum aqua;
    orange ← _ensure_contrast background bg_lum orange;
    Some (Accents red green yellow blue purple aqua orange)
  else Some a.

(** Lines 265 to 297: the text colours and the returned dictionary. *)
Definition assemble (i : inputs) (a : accents) : option (list (string * string)) :=
  let contrast_candidates :=
    [foreground i; background i; "#ffffff"; "#000000"] in
  on_bg1 ← best_contrast_text (background i) contrast_candidates;
  on_bg3 ← best_contrast_text (selection_background i) contrast_candidates;
  on_blue ← best_contrast_text (blue a) contrast_candidates;
  on_aqua ← best_contrast_text (aqua a) contrast_candidates;
  on_green ← best_contrast_text (green a) contrast_candidates;
  on_orange ← best_contrast_text (orange a) contrast_candidates;
  on_purple ← best_contrast_text (purple a) contrast_candidates;
  on_red ← best_contrast_text (red a) contrast_candidates;
  on_yellow ← best_contrast_text (yellow a) contrast_candidates;
  Some [ ("color_fg0", foreground i);
         ("color_bg1", background i);
         ("color_bg3", selection_background i);
         ("color_on_bg1", on_bg1);
         ("color_on_bg3", on_bg3);
         ("color_on_blue", on_blue);
         ("color_on_aqua", on_aqua);
         ("color_on_green", on_green);
         ("color_on_orange", on_orange);
         ("color_on_purple", on_purple);
         ("color_on_red", on_red);
         ("color_on_yellow", on_yellow);
         ("color_blue", blue a);
         ("color_aqua", aqua a);
         ("color_green", green a);
         ("color_orange", orange a);
         ("color_purple", purple a);
         ("color_red", red a);
         ("color_yellow", yellow a) ].

Definition build_starship_palette (parsed : parsed_config)
  : option (list (string * string)) :=
  i ← resolve_inputs parsed;
  a ← dark_theme_block (background i) (raw_accents i);
  assemble i a.

(** [d[key]] on the returned dictionary. *)
Fixpoint item (key : string) (d : list (string * string)) : option string :=
  match d with
  | [] => None
  | (k, v) :: d' => if String.eqb k key then Some v else item key d'
  end.

(** The nineteen keys, in the order of the dictionary display. *)
Definition slot_names : list string :=
  [ "color_fg0"; "color_bg1"; "color_bg3";
    "color_on_bg1"; "color_on_bg3"; "color_on_blue"; "color_on_aqua";
    "color_on_green"; "color_on_orange"; "color_on_purple"; "color_on_red";
    "color_on_yellow";
    "color_blue"; "color_aqua"; "color_green"; "color_orange";
    "color_purple"; "color_red"; "color_yellow" ].

(** What the theme reader hands over: every colour that is present is in
    canonical form. *)
Definition present_canonical (v : option string) : Prop :=
  forall s, v = Some s -> canonical s = true.

Record well_formed (parsed : parsed_config) : Prop := {
  wf_foreground : present_canonical (p_foreground parsed);
  wf_background : present_canonical (p_background parsed);
  wf_selection_background : present_canonical (p_selection_background parsed);
  wf_palette : forall d (idx : Z),
      p_palette parsed = Some d -> present_canonical (d !! idx);
}.

(** ** Auxiliary predicates *)

Definition byte (n : Z) : Prop := (0 <= n <= 255)%Z.

Definition byte_triple (t : Z * Z * Z) : Prop :=
  let '(r, g, b) := t in byte r /\ byte g /\ byte b.

(** Two-digit formatting of a byte, checked on the 256 bytes. *)
Definition byte_format_ok (n : Z) : bool :=
  match format_02x n with
  | String c1 (String c2 EmptyString) =>
      is_lower_hex c1 && is_lower_hex c2
      && match int16 (String c1 (String c2 EmptyString)) with
         | Some m => (m =? n)%Z
         | None => false
         end
  | _ => false
  end.

Definition accents_canonical (a : accents) : Prop :=
  canonical (red a) = true /\ canonical (green a) = true
  /\ canonical (yellow a) = true /\ canonical (blue a) = true
  /\ canonical (purple a) = true /\ canonical (aqua a) = true
  /\ canonical (orange a) = true.

Definition inputs_canonical (i : inputs) : Prop :=
  canonical (foreground i) = true /\ canonical (background i) = true
  /\ canonical (selection_background i) = true
  /\ accents_canonical (raw_accents i).

(** The three corrections one accent goes through in the dark-theme block,
    in the order the block applies them. *)
Definition corrected (background : string) (bg_lum : R) (c : string)
  : option string :=
  c1 ← boost_saturation_preserve_luminance c DARK_THEME_SATURATION_BOOST;
  c2 ← _clamp_lum c1;
  _ensure_contrast background bg_lum c2.

(** ** Example inputs *)

(** No theme at all: every slot is absent. *)
Definition no_theme : parsed_config := Parsed None None None None.

(** Only a background: the light one and the dark one of the test notes. *)
Definition light_theme : parsed_config :=
  Parsed None None (Some "#fbf1c7") None.

Definition dark_theme : parsed_config :=
  Parsed None None (Some "#1d2021") None.

(** A black background with a black red and a white yellow. *)
Definition grey_theme : parsed_config :=
  Parsed (Some {[ 1%Z := "#000000"; 3%Z := "#ffffff" ]})
         None (Some "#000000") None.

(** Foreground and background only, once dark and once light. *)
Definition white_on_black : parsed_config :=
  Parsed None (Some "#ffffff") (Some "#000000") None.

Definition black_on_white : parsed_config :=
  Parsed None (Some "#000000") (Some "#ffffff") None.

(** In the words of the specification: the candidates after normalization,
    each kept where it first occurs. *)
Fixpoint first_occurrences (l : list string) : list string :=
  match l with
  | [] => []
  | x :: l' =>
      x :: List.filter (fun y => negb (String.eqb x y)) (first_occurrences l')
  end.

Fixpoint normalized_candidates (candidates : list string) : list string :=
  match candidates with
  | [] => []
  | c :: cs =>
      match normalize_hex c with
      | Some n => n :: normalized_candidates cs
      | None => normalized_candidates cs
      end
  end.

(** The scale [k] keeps the three transformed channels within [0, 1]. *)
Definition gamut_at (y r g b k : R) : Prop :=
  in_gamut (transform y r g b k) = true.

(** ** More auxiliary definitions *)

(** The character [f"{d:x}"] prints for a digit value. *)
Definition lower_hex_char (d : Z) : ascii :=
  if (d <? 10)%Z then ascii_of_nat (Z.to_nat (d + 48))
  else ascii_of_nat (Z.to_nat (d + 87)).

(** Two-digit formatting of a byte prints its two hexadecimal digits. *)
Definition byte_digits_ok (n : Z) : bool :=
  String.eqb (format_02x n)
    (String (lower_hex_char (n / 16)) (String (lower_hex_char (n mod 16)) "")).

(** The nine text slots of the returned dictionary, each with the slot of
    the surface it is chosen for (lines 267 to 275 and 281 to 289). *)
Definition text_pairs : list (string * string) :=
  [ ("color_on_bg1", "color_bg1"); ("color_on_bg3", "color_bg3");
    ("color_on_blue", "color_blue"); ("color_on_aqua", "color_aqua");
    ("color_on_green", "color_green"); ("color_on_orange", "color_orange");
    ("color_on_purple", "color_purple"); ("color_on_red", "color_red");
    ("color_on_yellow", "color_yellow") ].

(** A palette that only has one of the bright entries. *)
Definition bright_only : parsed_config :=
  Parsed (Some {[ 12%Z := "#83a598" ]}) None None None.

(** ** Lines *)

(** The line boundaries of [str.splitlines] among the code points below 256. *)
Definition is_linebreak (c : ascii) : bool :=
  let n := nat_of_ascii c in
  ((10 <=? n)%nat && (n <=? 13)%nat)
  || ((28 <=? n)%nat && (n <=? 30)%nat) || (n =? 133)%nat.

Definition snoc (s : string) (c : ascii) : string := s ++ String c "".

(** [s.splitlines()]: [cur] is the line being read, [after_cr] tells that
    the previous character was a carriage return, whose line feed belongs
    to the same boundary. *)
Fixpoint splitlines_from (cur : string) (after_cr : bool) (s : string)
  : list string :=
  match s with
  | EmptyString => if String.eqb cur "" then [] else [cur]
  | String c s' =>
      if after_cr && Ascii.eqb c "010" then splitlines_from cur false s'
      else if is_linebreak c
           then cur :: splitlines_from "" (Ascii.eqb c "013") s'
           else splitlines_from (snoc cur c) false s'
  end.

Definition splitlines (s : string) : list string := splitlines_from "" false s.

(** ["\n".join(lines)] *)
Fixpoint join_lines (lines : list string) : string :=
  match lines with
  | [] => ""
  | [l] => l
  | l :: ls => l ++ String "010" (join_lines ls)
  end.

Definition startswith (pre s : string) : bool := String.prefix pre s.

Fixpoint endswith (suf s : string) : bool :=
  String.eqb suf s
  || match s with String _ s' => endswith suf s' | EmptyString => false end.

(** ** Regular expressions *)

(** The patterns of the source are sequences of anchors, single characters
    of a class, greedy repetitions of a class and group marks; they are
    matched as [re] does, by backtracking over the greedy repetitions. *)
Inductive atom : Type :=
| Bol | Eol
| Chr (p : ascii -> bool)
| Star (p : ascii -> bool)
| Plus (p : ascii -> bool)
| Rep (n : nat) (p : ascii -> bool)
| Open (g : nat)
| Close (g : nat).

Record captures := Captures {
  opened : list (nat * nat);
  closed : list (nat * (nat * nat));
}.

Fixpoint assoc {A} (g : nat) (l : list (nat * A)) : option A :=
  match l with
  | [] => None
  | (g', x) :: l' => if (g' =? g)%nat then Some x else assoc g l'
  end.

(** [^]: at the start, or after a newline with [re.MULTILINE]. *)
Definition at_bol (multiline : bool) (prev : option ascii) : bool :=
  match prev with
  | None => true
  | Some c => multiline && Ascii.eqb c "010"
  end.

(** [$]: at the end or before the final newline, or before any newline
    with [re.MULTILINE]. *)
Definition at_eol (multiline : bool) (rest : string) : bool :=
  match rest with
  | EmptyString => true
  | String c r => Ascii.eqb c "010" && (multiline || String.eqb r "")
  end.

(** A greedy [class*]: the longest run first, then one character less at
    each failure of what follows. *)
Fixpoint star_loop {A} (p : ascii -> bool)
    (prev : option ascii) (pos : nat) (rest : string)
    (k : option ascii -> nat -> string -> option A) : option A :=
  match rest with
  | String c r =>
      if p c then
        match star_loop p (Some c) (S pos) r k with
        | Some x => Some x
        | None => k prev pos rest
        end
      else k prev pos rest
  | EmptyString => k prev pos rest
  end.

Fixpoint rep_loop {A} (n : nat) (p : ascii -> bool)
    (prev : option ascii) (pos : nat) (rest : string)
    (k : option ascii -> nat -> string -> option A) : option A :=
  match n with
  | O => k prev pos rest
  | S n' =>
      match rest with
      | String c r => if p c then rep_loop n' p (Some c) (S pos) r k else None
      | EmptyString => None
      end
  end.

(** Matching a pattern at one position: the end of the match and the
    groups, or [None]. *)
Fixpoint run (multiline : bool) (atoms : list atom) (caps : captures)
    (prev : option ascii) (pos : nat) (rest : string)
  : option (nat * captures) :=
  match atoms with
  | [] => Some (pos, caps)
  | Bol :: atoms' =>
      if at_bol multiline prev then run multiline atoms' caps prev pos rest
      else None
  | Eol :: atoms' =>
      if at_eol multiline rest then run multiline atoms' caps prev pos rest
      else None
  | Chr p :: atoms' =>
      match rest with
      | String c r =>
          if p c then run multiline atoms' caps (Some c) (S pos) r else None
      | EmptyString => None
      end
  | Star p :: atoms' =>
      star_loop p prev pos rest (run multiline atoms' caps)
  | Plus p :: atoms' =>
      match rest with
      | String c r =>
          if p c then star_loop p (Some c) (S pos) r (run multiline atoms' caps)
          else None
      | EmptyString => None
      end
  | Rep n p :: atoms' =>
      rep_loop n p prev pos rest (run multiline atoms' caps)
  | Open g :: atoms' =>
      run multiline atoms'
        (Captures ((g, pos) :: opened caps) (closed caps)) prev pos rest
  | Close g :: atoms' =>
      match assoc g (opened caps) with
      | Some start =>
          run multiline atoms'
            (Captures (opened caps) ((g, (start, pos)) :: closed caps))
            prev pos rest
      | None => None
      end
  end.

Definition no_captures : captures := Captures [] [].

(** [pattern.match(text)] *)
Definition re_match (multiline : bool) (atoms : list atom) (text : string)
  : option (nat * captures) :=
  run multiline atoms no_captures None 0 text.

(** [pattern.search(text)]: the first position, from the left, at which
    the pattern matches; the result is the start and the end. *)
Fixpoint search_from (multiline : bool) (atoms : list atom)
    (prev : option ascii) (pos : nat) (rest : string) : option (nat * nat) :=
  match run multiline atoms no_captures prev pos rest with
  | Some (stop, _) => Some (pos, stop)
  | None =>
      match rest with
      | String c r => search_from multiline atoms (Some c) (S pos) r
      | EmptyString => None
      end
  end.

Definition re_search (multiline : bool) (atoms : list atom) (text : string)
  : option (nat * nat) :=
  search_from multiline atoms None 0 text.

(** [match.group(g)] *)
Definition group (g : nat) (m : nat * captures) (text : string) : string :=
  match assoc g (closed (snd m)) with
  | Some (start, stop) => substring start (stop - start) text
  | None => ""
  end.

Definition is_char (c : ascii) : ascii -> bool := Ascii.eqb c.

Definition is_digit (c : ascii) : bool :=
  let n := nat_of_ascii c in (48 <=? n)%nat && (n <=? 57)%nat.

(** [[a-z0-9-]] *)
Definition is_key_char (c : ascii) : bool :=
  let n := nat_of_ascii c in
  ((97 <=? n)%nat && (n <=? 122)%nat) || is_digit c || (n =? 45)%nat.

(** [[A-Za-z0-9_]] *)
Definition is_word_char (c : ascii) : bool :=
  let n := nat_of_ascii c in
  ((65 <=? n)%nat && (n <=? 90)%nat) || ((97 <=? n)%nat && (n <=? 122)%nat)
  || is_digit c || (n =? 95)%nat.

(** [.] *)
Definition not_newline (c : ascii) : bool := negb (Ascii.eqb c "010").

(** The two quote characters (codes 39 and 34), written [Q] below, and
    every other character. *)
Definition is_quote (c : ascii) : bool :=
  Ascii.eqb c "039" || Ascii.eqb c "034".

Definition not_quote (c : ascii) : bool := negb (is_quote c).

(** [^([a-z0-9-]+)\s*=\s*(.+)$] *)
Definition KEY_VALUE_RE : list atom :=
  [ Bol; Open 1; Plus is_key_char; Close 1; Star is_space; Chr (is_char "=");
    Star is_space; Open 2; Plus not_newline; Close 2; Eol ].

(** [^(\d+)\s*=\s*(#[0-9a-fA-F]{6})$] *)
Definition PALETTE_LINE_RE : list atom :=
  [ Bol; Open 1; Plus is_digit; Close 1; Star is_space; Chr (is_char "=");
    Star is_space; Open 2; Chr (is_char "#"); Rep 6 is_hex; Close 2; Eol ].

(** The pattern of [update_palette_section]: at the start a group of
    [\s*], a group of [[A-Za-z0-9_]+], then [\s*=\s*], a group of one [Q], a
    group of [[^Q]*], a group of one [Q], and [\s*$]. *)
Definition VALUE_LINE_RE : list atom :=
  [ Bol; Open 1; Star is_space; Close 1; Open 2; Plus is_word_char; Close 2;
    Star is_space; Chr (is_char "="); Star is_space;
    Open 3; Chr is_quote; Close 3; Open 4; Star not_quote; Close 4;
    Open 5; Chr is_quote; Close 5; Star is_space; Eol ].

(** [^palette\s*=\s*Q[^Q]+Q\s*$], compiled with [re.MULTILINE] *)
Definition PALETTE_NAME_RE : list atom :=
  [ Bol; Chr (is_char "p"); Chr (is_char "a"); Chr (is_char "l");
    Chr (is_char "e"); Chr (is_char "t"); Chr (is_char "t");
    Chr (is_char "e"); Star is_space; Chr (is_char "="); Star is_space;
    Chr is_quote; Plus not_quote; Chr is_quote; Star is_space; Eol ].

(** ** Reading the terminal's configuration *)

Definition PALETTE_NAME : string := "ghostty_dynamic".

(** [int(s)] on a string of decimal digits.  Recent interpreters refuse
    more than 4300 digits; such a string gives [None]. *)
Fixpoint int10_from (acc : Z) (s : string) : Z :=
  match s with
  | EmptyString => acc
  | String c s' =>
      int10_from (10 * acc + (Z.of_nat (nat_of_ascii c) - 48))%Z s'
  end.

Definition int10 (s : string) : option Z :=
  if (String.length s <=? 4300)%nat then Some (int10_from 0%Z s) else None.

Definition set_palette (idx : Z) (color : string) (parsed : parsed_config)
  : parsed_config :=
  Parsed (Some (<[ idx := color ]> (colors_of parsed)))
         (p_foreground parsed) (p_background parsed)
         (p_selection_background parsed).

(** [parsed[key.replace("-", "_")] = color] for the three keys the loop
    lets through. *)
Definition set_named (key color : string) (parsed : parsed_config)
  : parsed_config :=
  if String.eqb key "foreground" then
    Parsed (p_palette parsed) (Some color) (p_background parsed)
           (p_selection_background parsed)
  else if String.eqb key "background" then
    Parsed (p_palette parsed) (p_foreground parsed) (Some color)
           (p_selection_background parsed)
  else
    Parsed (p_palette parsed) (p_foreground parsed) (p_background parsed)
           (Some color).

(** One round of the loop over the lines of the output. *)
Definition load_line (parsed : parsed_config) (raw_line : string)
  : option parsed_config :=
  let line := strip raw_line in
  if String.eqb line "" || startswith "#" line then Some parsed
  else
    match re_match false KEY_VALUE_RE line with
    | None => Some parsed
    | Some kv =>
        let key := group 1 kv line in
        let value := strip (group 2 kv line) in
        if String.eqb key "palette" then
          match re_match false PALETTE_LINE_RE value with
          | Some palette_match =>
              idx ← int10 (group 1 palette_match value);
              match normalize_hex (group 2 palette_match value) with
              | Some color => Some (set_palette idx color parsed)
              | None => Some parsed
              end
          | None => Some parsed
          end
        else if String.eqb key "foreground" || String.eqb key "background"
                || String.eqb key "selection-background" then
          match normalize_hex value with
          | Some color => Some (set_named key color parsed)
          | None => Some parsed
          end
        else Some parsed
    end.

Fixpoint load_lines (parsed : parsed_config) (lines : list string)
  : option parsed_config :=
  match lines with
  | [] => Some parsed
  | raw_line :: lines' =>
      parsed' ← load_line parsed raw_line;
      load_lines parsed' lines'
  end.

(** [load_ghostty_config] as a function of what running the command gave:
    [None] when it failed with [CalledProcessError] or [FileNotFoundError],
    its standard output otherwise. *)
Definition load_ghostty_config (stdout : option string) : option parsed_config :=
  match stdout with
  | None => Some (Parsed None None None None)
  | Some text => load_lines (Parsed (Some ∅) None None None) (splitlines text)
  end.

(** ** Rewriting the prompt's configuration *)

Definition palette_line : string := "palette = '" ++ PALETTE_NAME ++ "'".

Definition section_header : string := "[palettes." ++ PALETTE_NAME ++ "]".

(** [f"{key} = '{value}'"] *)
Definition value_line (key value : string) : string :=
  key ++ " = '" ++ value ++ "'".

(** The index of the first line that opens a section, or the number of
    lines. *)
Fixpoint first_section (lines : list string) : nat :=
  match lines with
  | [] => 0
  | line :: lines' =>
      if startswith "[" (strip line) then 0 else S (first_section lines')
  end.

Definition ensure_palette_name (config_text : string) : string :=
  match re_search true PALETTE_NAME_RE config_text with
  | Some (start, stop) =>
      substring 0 start config_text ++ palette_line
      ++ substring stop (String.length config_text - stop) config_text
  | None =>
      let lines := splitlines config_text in
      let insert_at := first_section lines in
      join_lines (firstn insert_at lines ++ [palette_line; ""]
                  ++ skipn insert_at lines)
      ++ String "010" ""
  end.

Definition mem (key : string) (keys : list string) : bool :=
  existsb (String.eqb key) keys.

(** The lines written for the keys that were not seen. *)
Fixpoint missing_lines (values : list (string * string)) (seen : list string)
  : list string :=
  match values with
  | [] => []
  | (key, value) :: values' =>
      if mem key seen then missing_lines values' seen
      else value_line key value :: missing_lines values' seen
  end.

Record rewriter := Rewriter {
  output : list string;
  in_section : bool;
  found_section : bool;
  seen : list string;
}.

(** One round of the loop over the lines of the document. *)
Definition rewrite_line (values : list (string * string)) (st : rewriter)
    (line : string) : rewriter :=
  let stripped := strip line in
  let is_header := startswith "[" stripped && endswith "]" stripped in
  let st1 :=
    if is_header && in_section st then
      Rewriter (output st ++ missing_lines values (seen st)) false
               (found_section st) (seen st)
    else st in
  if is_header && String.eqb stripped section_header then
    Rewriter (output st1 ++ [line]) true true (seen st1)
  else
    let keep :=
      Rewriter (output st1 ++ [line]) (in_section st1) (found_section st1)
               (seen st1) in
    if in_section st1 then
      match re_match false VALUE_LINE_RE line with
      | Some m =>
          let indent := group 1 m line in
          let key := group 2 m line in
          match item key values with
          | Some value =>
              Rewriter (output st1 ++ [indent ++ value_line key value])
                       (in_section st1) (found_section st1) (key :: seen st1)
          | None => keep
          end
      | None => keep
      end
    else keep.

Definition last_is_blank (lines : list string) : bool :=
  match rev lines with
  | [] => true
  | l :: _ => String.eqb (strip l) ""
  end.

(** The lines of the result, before they are joined. *)
Definition updated_lines (config_text : string) (values : list (string * string))
  : list string :=
  let st := fold_left (rewrite_line values) (splitlines config_text)
              (Rewriter [] false false []) in
  let out1 :=
    if in_section st then (output st ++ missing_lines values (seen st))%list
    else output st in
  if found_section st then out1
  else
    ((if last_is_blank out1 then out1 else out1 ++ [""])
     ++ [section_header] ++ missing_lines values [])%list.

Definition update_palette_section (config_text : string)
    (values : list (string * string)) : string :=
  join_lines (updated_lines config_text values) ++ String "010" "".

(** ** The text that [main] writes *)

(** [if parsed:], a dictionary being true when it has a key. *)
Definition has_key (parsed : parsed_config) : bool :=
  match p_palette parsed, p_foreground parsed, p_background parsed,
        p_selection_background parsed with
  | None, None, None, None => false
  | _, _, _, _ => true
  end.

(** The text handed to [write_if_changed], from the text of the template
    and what running the terminal's command gave. *)
Definition rendered (template_text : string) (stdout : option string)
  : option string :=
  parsed ← load_ghostty_config stdout;
  if has_key parsed then
    values ← build_starship_palette parsed;
    Some (update_palette_section (ensure_palette_name template_text) values)
  else Some template_text.

(** ** Auxiliary definitions for the text functions *)

(** The character before a position: the last one of what was read, or
    [prev] when nothing was. *)
Fixpoint last_char (prev : option ascii) (s : string) : option ascii :=
  match s with
  | EmptyString => prev
  | String c s' => last_char (Some c) s'
  end.

Fixpoint all_chars (p : ascii -> bool) (s : string) : bool :=
  match s with
  | EmptyString => true
  | String c s' => p c && all_chars p s'
  end.

(** A line [key = 'value'] of a list of lines, after blanks only. *)
Definition has_value_line (key value : string) (lines : list string) : Prop :=
  exists indent,
    all_chars is_space indent = true
    /\ In (indent ++ value_line key value) lines.

(** An output of the terminal's command: a comment, the background in
    upper case, one palette entry, a key that is not read. *)
Definition sample_stdout : string :=
  "# theme" ++ String "010" ("background = #1D2021" ++ String "010"
  ("palette = 1=#cc241d" ++ String "010" "font-size = 12")).

(** A line that opens the palette's section. *)
Definition opens_section (line : string) : bool :=
  String.eqb (strip line) section_header.

(** What the loop of [update_palette_section] maintains: a key that was
    seen has its line, and once the section has been left every key of the
    dictionary has one. *)
Definition rewriter_inv (values : list (string * string)) (st : rewriter)
  : Prop :=
  (forall k v, mem k (seen st) = true -> item k values = Some v ->
               has_value_line k v (output st))
  /\ (found_section st = true -> in_section st = false ->
      forall k v, item k values = Some v -> has_value_line k v (output st))
  /\ (in_section st = true -> found_section st = true).

(** A template with the section and one stale value, and one without the
    section. *)
Definition sample_template : string :=
  "format = '$all'" ++ String "010" ("[palettes.ghostty_dynamic]"
  ++ String "010" ("color_red = 'stale'" ++ String "010" "")).

Definition plain_template : string :=
  "format = '$all'" ++ String "010" ("[character]" ++ String "010" "").

Definition sample_values : list (string * string) :=
  [("color_red", "#cc241d"); ("color_bg1", "#3c3836")].

(** Each line followed by a newline. *)
Fixpoint terminated (lines : list string) : string :=
  match lines with
  | [] => ""
  | l :: ls => l ++ String "010" (terminated ls)
  end.

(** [line] is a whole line of [text]: it starts at the beginning of the
    text or after a newline, and stops at its end or before a newline. *)
Definition whole_line (line text : string) : Prop :=
  exists pre post,
    text = pre ++ line ++ post
    /\ at_bol true (last_char None pre) = true
    /\ at_eol true post = true.

(** A greedy repetition cannot go on into [rest]. *)
Definition stops (p : ascii -> bool) (rest : string) : bool :=
  match rest with
  | EmptyString => true
  | String c _ => negb (p c)
  end.

(** The atom that closes group [g]. *)
Definition closes (g : nat) (a : atom) : bool :=
  match a with
  | Close g' => (g' =? g)%nat
  | _ => false
  end.

(** Strings that [splitlines] leaves in one piece. *)
Definition not_linebreak (c : ascii) : bool := negb (is_linebreak c).

Definition no_breaks (s : string) : bool := all_chars not_linebreak s.

(** A dictionary whose keys and values have no line boundary. *)
Definition values_no_breaks (values : list (string * string)) : bool :=
  forallb (fun kv => no_breaks (fst kv) && no_breaks (snd kv)) values.

(** The state of [splitlines_from] never holds a pending line after a
    carriage return. *)
Definition split_state_ok (cur : string) (after_cr : bool) : Prop :=
  after_cr = true -> cur = "".

(** What [update_palette_section] does after its loop. *)
Definition finish (values : list (string * string)) (st : rewriter)
  : list string :=
  let out1 :=
    if in_section st then (output st ++ missing_lines values (seen st))%list
    else output st in
  if found_section st then out1
  else
    ((if last_is_blank out1 then out1 else out1 ++ [""])
     ++ [section_header] ++ missing_lines values [])%list.

(** The loop and what follows it, on the lines of a document. *)
Definition rewrite_lines (values : list (string * string))
    (lines : list string) : list string :=
  finish values
    (fold_left (rewrite_line values) lines (Rewriter [] false false [])).

Fixpoint distinct (keys : list string) : bool :=
  match keys with
  | [] => true
  | k :: ks => negb (mem k ks) && distinct ks
  end.

(** A dictionary as [update_palette_section] can read it back: distinct
    keys made of letters, digits and underscores, values without quote. *)
Definition plain_values (values : list (string * string)) : bool :=
  distinct (map fst values)
  && forallb (fun kv => negb (String.eqb (fst kv) "")
                        && all_chars is_word_char (fst kv)
                        && all_chars not_quote (snd kv)) values.

(** Two states of the loop that differ by the keys seen only, the second
    having seen more. *)
Definition agree (s s' : rewriter) : Prop :=
  output s' = output s /\ in_section s' = in_section s
  /\ found_section s' = found_section s
  /\ forall k, mem k (seen s) = true -> mem k (seen s') = true.

(** ** Binary64 arithmetic

    The arithmetic of [scale_luminance] once more, this time on IEEE 754
    binary64 numbers, every operation rounded to nearest, ties to even, as
    CPython evaluates it.  It tells where the rounding of the source departs
    from the exact arithmetic of the definitions above.  The power [**] is
    not an operation of binary64: it stays a parameter [pow]. *)
Module Binary64.

Section Binary64.

#[local] Set Warnings "-inexact-float".
Local Open Scope float_scope.

Variable pow : float -> float -> float.

(** An [int] that takes part in a true division. *)
Definition of_int (n : Z) : float := of_uint63 (Uint63.of_Z n).

Definition channel_to_linear (channel : Z) : float :=
  let value := of_int channel / 255 in
  if value <=? 0.04045 then value / 12.92
  else pow ((value + 0.055) / 1.055) 2.4.

Definition luminance_of (rl gl bl : float) : float :=
  0.2126 * rl + 0.7152 * gl + 0.0722 * bl.

(** [max] keeps its first argument unless the next one is greater. *)
Definition max2 (a b : float) : float := if a <? b then b else a.

Definition scaled_linear (rl gl bl target_lum : float)
  : float * float * float :=
  let current_lum := luminance_of rl gl bl in
  let factor := target_lum / current_lum in
  let new_r := rl * factor in
  let new_g := gl * factor in
  let new_b := bl * factor in
  let max_val := max2 (max2 new_r new_g) new_b in
  if 1 <? max_val then
    let factor := factor / max_val in
    (rl * factor, gl * factor, bl * factor)
  else (new_r, new_g, new_b).


End Binary64.

(** The rational number a finite binary64 number stands for. *)
Definition exact (x : float) : Q :=
  match Prim2SF x with
  | S754_finite s m e =>
      (inject_Z (if s then Z.neg m else Z.pos m) * Qpower 2 e)%Q
  | _ => 0%Q
  end.


End Binary64.

(** * Properties *)

(** ** Rounding *)

Lemma py_round_near (x : R) (n : Z) :
  IZR n - 1 / 2 < x < IZR n + 1 / 2 -> py_round x = n.
Proof.
  intros [Hlo Hhi]. unfold py_round.
  pose proof (Zfloor_bound x) as [Hf1 Hf2].
  assert (Hge : (n - 1 <= Zfloor x)%Z).
  { apply Zfloor_lub. rewrite minus_IZR. lra. }
  assert (Hle : (Zfloor x <= n)%Z).
  { apply Z.lt_succ_r, lt_IZR. rewrite succ_IZR. lra. }
  assert (Hcase : Zfloor x = n \/ Zfloor x = (n - 1)%Z) by lia.
  destruct Hcase as [-> | Hm].
  - destruct (Rlt_dec (x - IZR n) (1 / 2)); [reflexivity | lra].
  - rewrite Hm in *. rewrite minus_IZR in *.
    destruct (Rlt_dec (x - (IZR n - 1)) (1 / 2)); [lra |].
    destruct (Rlt_dec (1 / 2) (x - (IZR n - 1))); [lia | lra].
Qed.

Lemma py_round_IZR (n : Z) : py_round (IZR n) = n.
Proof. apply py_round_near. lra. Qed.

Lemma py_round_half (f : Z) :
  py_round (IZR f + 1 / 2) = if Z.even f then f else (f + 1)%Z.
Proof.
  unfold py_round.
  assert (Hf : Zfloor (IZR f + 1 / 2) = f) by (apply Zfloor_eq; lra).
  rewrite Hf.
  destruct (Rlt_dec (IZR f + 1 / 2 - IZR f) (1 / 2)); [lra |].
  destruct (Rlt_dec (1 / 2) (IZR f + 1 / 2 - IZR f)); [lra | reflexivity].
Qed.

Lemma py_round_bounds (x : R) (a b : Z) :
  IZR a <= x <= IZR b -> (a <= py_round x <= b)%Z.
Proof.
  intros [Ha Hb]. unfold py_round.
  pose proof (Zfloor_bound x) as [Hf1 Hf2].
  assert (Hge : (a <= Zfloor x)%Z) by (apply Zfloor_lub; lra).
  assert (Hle : (Zfloor x <= b)%Z).
  { apply Z.lt_succ_r, lt_IZR. rewrite succ_IZR. lra. }
  assert (Hup : ~ x - IZR (Zfloor x) < 1 / 2 -> (Zfloor x + 1 <= b)%Z).
  { intros Hd. apply Z.le_succ_l, lt_IZR. lra. }
  destruct (Rlt_dec (x - IZR (Zfloor x)) (1 / 2)) as [Hd | Hd]; [lia |].
  specialize (Hup Hd).
  destruct (Rlt_dec (1 / 2) (x - IZR (Zfloor x))); [lia |].
  destruct (Z.even (Zfloor x)); lia.
Qed.


(** ** The hexadecimal codec *)

Lemma is_lower_hex_digit (c : ascii) :
  is_lower_hex c = true ->
  Ascii.eqb "#" c = false /\
  exists d, hex_digit c = Some d /\ (0 <= d <= 15)%Z.
Proof.
  destruct c as [[] [] [] [] [] [] [] []]; intros H; vm_compute in H;
    try discriminate H;
    (split; [reflexivity | eexists; split; [vm_compute; reflexivity | lia]]).
Qed.

Lemma canonical_hex_to_rgb (s : string) :
  canonical s = true ->
  exists t, hex_to_rgb s = Some t /\ byte_triple t.
Proof.
  destruct s as [| h s]; [discriminate |].
  destruct (Ascii.eqb_spec h "#") as [-> | Hne].
  2:{ intros H; exfalso; revert H; cbn.
      destruct h as [[] [] [] [] [] [] [] []]; try discriminate; congruence. }
  destruct s as [| c1 [| c2 [| c3 [| c4 [| c5 [| c6 [| ? ?]]]]]]];
    try discriminate.
  cbn [canonical]. rewrite !andb_true_iff.
  intros [[[[[H1 H2] H3] H4] H5] H6].
  apply is_lower_hex_digit in H1 as [E1 (d1 & D1 & B1)].
  apply is_lower_hex_digit in H2 as [_ (d2 & D2 & B2)].
  apply is_lower_hex_digit in H3 as [_ (d3 & D3 & B3)].
  apply is_lower_hex_digit in H4 as [_ (d4 & D4 & B4)].
  apply is_lower_hex_digit in H5 as [_ (d5 & D5 & B5)].
  apply is_lower_hex_digit in H6 as [_ (d6 & D6 & B6)].
  unfold hex_to_rgb. cbn [lstrip]. rewrite Ascii.eqb_refl. cbn [lstrip].
  rewrite E1. cbn [substring int16 int16_from].
  rewrite D1, D2, D3, D4, D5, D6. cbn [mbind option_bind].
  eexists; split; [reflexivity |].
  unfold byte_triple, byte. lia.
Qed.

Lemma all_bytes_format_ok :
  forallb byte_format_ok (map Z.of_nat (seq 0 256)) = true.
Proof. vm_compute. reflexivity. Qed.

Lemma format_02x_byte (n : Z) :
  byte n ->
  exists c1 c2,
    format_02x n = String c1 (String c2 EmptyString)
    /\ is_lower_hex c1 = true /\ is_lower_hex c2 = true
    /\ int16 (String c1 (String c2 EmptyString)) = Some n.
Proof.
  intros Hn.
  pose proof all_bytes_format_ok as Hall.
  rewrite forallb_forall in Hall.
  assert (Hin : In n (map Z.of_nat (seq 0 256))).
  { apply in_map_iff. exists (Z.to_nat n). split; [unfold byte in Hn; lia |].
    apply in_seq. unfold byte in Hn. lia. }
  specialize (Hall n Hin). unfold byte_format_ok in Hall.
  destruct (format_02x n) as [| c1 [| c2 [| ? ?]]]; try discriminate.
  exists c1, c2.
  apply andb_true_iff in Hall as [Hall H3].
  apply andb_true_iff in Hall as [H1 H2].
  destruct (int16 (String c1 (String c2 EmptyString))) as [m |];
    [| discriminate].
  apply Z.eqb_eq in H3. subst m. auto.
Qed.

Lemma rgb_to_hex_canonical (t : Z * Z * Z) :
  byte_triple t -> canonical (rgb_to_hex t) = true.
Proof.
  destruct t as [[r g] b]. intros (Hr & Hg & Hb).
  destruct (format_02x_byte r Hr) as (r1 & r2 & Fr & R1 & R2 & _).
  destruct (format_02x_byte g Hg) as (g1 & g2 & Fg & G1 & G2 & _).
  destruct (format_02x_byte b Hb) as (b1 & b2 & Fb & B1 & B2 & _).
  unfold rgb_to_hex. rewrite Fr, Fg, Fb.
  cbv [String.append canonical]. rewrite R1, R2, G1, G2, B1, B2. reflexivity.
Qed.

Lemma hex_to_rgb_to_hex (t : Z * Z * Z) :
  byte_triple t -> hex_to_rgb (rgb_to_hex t) = Some t.
Proof.
  destruct t as [[r g] b]. intros (Hr & Hg & Hb).
  destruct (format_02x_byte r Hr) as (r1 & r2 & Fr & R1 & R2 & Ir).
  destruct (format_02x_byte g Hg) as (g1 & g2 & Fg & G1 & G2 & Ig).
  destruct (format_02x_byte b Hb) as (b1 & b2 & Fb & B1 & B2 & Ib).
  apply is_lower_hex_digit in R1 as [E1 _].
  unfold hex_to_rgb, rgb_to_hex. rewrite Fr, Fg, Fb.
  cbv [String.append]. cbn [lstrip]. rewrite Ascii.eqb_refl. cbn [lstrip]. rewrite E1.
  cbn [substring]. rewrite Ir, Ig, Ib. reflexivity.
Qed.

Lemma substring_0_0 (s : string) : substring 0 0 s = EmptyString.
Proof. destruct s; reflexivity. Qed.

(** [normalize_hex] only ever returns canonical strings. *)
Lemma lower_hex_digit (c : ascii) :
  is_hex c = true -> is_lower_hex (lower_ascii c) = true.
Proof.
  destruct c as [[] [] [] [] [] [] [] []]; cbn; intros H;
    try discriminate H; reflexivity.
Qed.

Lemma normalize_hex_canonical (value s : string) :
  normalize_hex value = Some s -> canonical s = true.
Proof.
  unfold normalize_hex, HEX_RE_match.
  destruct (strip value) as [| h rest]; [discriminate |].
  destruct (Ascii.eqb_spec h "#") as [-> | Hne].
  2:{ destruct h as [[] [] [] [] [] [] [] []]; try discriminate; congruence. }
  destruct rest as [| c1 [| c2 [| c3 [| c4 [| c5 [| c6 rest]]]]]];
    try discriminate.
  cbn [substring String.length Nat.eqb all_hex andb].
  rewrite substring_0_0. cbn [String.length Nat.eqb all_hex andb].
  destruct (is_hex c1) eqn:H1; [| discriminate].
  destruct (is_hex c2) eqn:H2; [| discriminate].
  destruct (is_hex c3) eqn:H3; [| discriminate].
  destruct (is_hex c4) eqn:H4; [| discriminate].
  destruct (is_hex c5) eqn:H5; [| discriminate].
  destruct (is_hex c6) eqn:H6; [| discriminate].
  cbn [andb].
  match goal with |- context [if ?c then _ else _] => destruct c end;
    [| discriminate].
  intros [= <-]. cbv [String.append lower canonical].
  rewrite !lower_hex_digit by assumption. reflexivity.
Qed.

(** A canonical string is left as it is. *)
Lemma is_lower_hex_fixed (c : ascii) :
  is_lower_hex c = true ->
  is_space c = false /\ is_hex c = true /\ lower_ascii c = c.
Proof.
  destruct c as [[] [] [] [] [] [] [] []]; cbn; intros H;
    try discriminate H; auto.
Qed.

Lemma normalize_hex_of_canonical (s : string) :
  canonical s = true -> normalize_hex s = Some s.
Proof.
  destruct s as [| h s]; [discriminate |].
  destruct (Ascii.eqb_spec h "#") as [-> | Hne].
  2:{ intros H; exfalso; revert H; cbn.
      destruct h as [[] [] [] [] [] [] [] []]; try discriminate; congruence. }
  destruct s as [| c1 [| c2 [| c3 [| c4 [| c5 [| c6 [| ? ?]]]]]]];
    try discriminate.
  cbn [canonical]. rewrite !andb_true_iff.
  intros [[[[[H1 H2] H3] H4] H5] H6].
  apply is_lower_hex_fixed in H1 as (S1 & X1 & L1).
  apply is_lower_hex_fixed in H2 as (S2 & X2 & L2).
  apply is_lower_hex_fixed in H3 as (S3 & X3 & L3).
  apply is_lower_hex_fixed in H4 as (S4 & X4 & L4).
  apply is_lower_hex_fixed in H5 as (S5 & X5 & L5).
  apply is_lower_hex_fixed in H6 as (S6 & X6 & L6).
  unfold normalize_hex, strip.
  change (lstrip is_space (String "#" ?r)) with (String "#" r).
  cbn [rstrip]. rewrite S1, S2, S3, S4, S5, S6.
  change (is_space "#") with false. cbn [rstrip].
  unfold HEX_RE_match.
  cbn [substring String.length Nat.eqb Nat.sub all_hex].
  rewrite X1, X2, X3, X4, X5, X6. cbn.
  rewrite L1, L2, L3, L4, L5, L6. reflexivity.
Qed.


(** ** Powers with the exponents 2.4 and 1/2.4 *)

Lemma pow_lt_inv (a b : R) (n : nat) : 0 <= b -> a ^ n < b ^ n -> 0 <= a -> a < b.
Proof.
  intros Hb Hlt Ha. destruct (Rlt_le_dec a b) as [H | H]; [exact H |].
  exfalso. assert (b ^ n <= a ^ n) by (apply pow_incr; lra). lra.
Qed.

Lemma py_pow_pos (x y : R) : 0 < py_pow x y.
Proof. unfold py_pow, Rpower. apply exp_pos. Qed.

Lemma py_pow_one (y : R) : py_pow 1 y = 1.
Proof. unfold py_pow, Rpower. rewrite ln_1, Rmult_0_r. apply exp_0. Qed.

Lemma py_pow_le_one (x y : R) : 0 < x <= 1 -> 0 <= y -> py_pow x y <= 1.
Proof.
  intros Hx Hy. rewrite <- (py_pow_one y). unfold py_pow.
  apply Rle_Rpower_l; lra.
Qed.

(** [(x ** 2.4) ^ 5 = x ^ 12] *)
Lemma py_pow_decode_pow (x : R) : 0 < x -> py_pow x 2.4 ^ 5 = x ^ 12.
Proof.
  intros Hx. unfold py_pow.
  rewrite <- (Rpower_pow 5) by apply exp_pos.
  rewrite Rpower_mult.
  replace (2.4 * INR 5) with (INR 12) by (simpl; lra).
  apply Rpower_pow, Hx.
Qed.

(** [(x ** (1/2.4)) ^ 12 = x ^ 5] *)
Lemma py_pow_encode_pow (x : R) : 0 < x -> py_pow x (1 / 2.4) ^ 12 = x ^ 5.
Proof.
  intros Hx. unfold py_pow.
  rewrite <- (Rpower_pow 12) by apply exp_pos.
  rewrite Rpower_mult.
  replace (1 / 2.4 * INR 12) with (INR 5) by (simpl; lra).
  apply Rpower_pow, Hx.
Qed.

Lemma py_pow_encode_decode (x : R) : 0 < x -> py_pow (py_pow x 2.4) (1 / 2.4) = x.
Proof.
  intros Hx. unfold py_pow. rewrite Rpower_mult.
  replace (2.4 * (1 / 2.4)) with 1 by lra.
  apply Rpower_1, Hx.
Qed.

(** Rational enclosures of the two powers. *)
Lemma py_pow_decode_gt (x lo : R) :
  0 < x -> lo ^ 5 < x ^ 12 -> lo < py_pow x 2.4.
Proof.
  intros Hx H. destruct (Rlt_le_dec lo 0) as [Hn | Hn].
  - pose proof (py_pow_pos x 2.4). lra.
  - apply (pow_lt_inv _ _ 5); [pose proof (py_pow_pos x 2.4); lra | | exact Hn].
    rewrite py_pow_decode_pow; assumption.
Qed.

Lemma py_pow_decode_lt (x hi : R) :
  0 < x -> 0 <= hi -> x ^ 12 < hi ^ 5 -> py_pow x 2.4 < hi.
Proof.
  intros Hx Hhi H. apply (pow_lt_inv _ _ 5); [exact Hhi | |].
  - rewrite py_pow_decode_pow; assumption.
  - pose proof (py_pow_pos x 2.4). lra.
Qed.

Lemma py_pow_encode_gt (x lo : R) :
  0 < x -> lo ^ 12 < x ^ 5 -> lo < py_pow x (1 / 2.4).
Proof.
  intros Hx H. destruct (Rlt_le_dec lo 0) as [Hn | Hn].
  - pose proof (py_pow_pos x (1 / 2.4)). lra.
  - apply (pow_lt_inv _ _ 12);
      [pose proof (py_pow_pos x (1 / 2.4)); lra | | exact Hn].
    rewrite py_pow_encode_pow; assumption.
Qed.

Lemma py_pow_encode_lt (x hi : R) :
  0 < x -> 0 <= hi -> x ^ 5 < hi ^ 12 -> py_pow x (1 / 2.4) < hi.
Proof.
  intros Hx Hhi H. apply (pow_lt_inv _ _ 12); [exact Hhi | |].
  - rewrite py_pow_encode_pow; assumption.
  - pose proof (py_pow_pos x (1 / 2.4)). lra.
Qed.

(** ** The transfer functions *)

Lemma channel_to_linear_low (n : Z) :
  IZR n / 255 <= 0.04045 -> channel_to_linear n = IZR n / 255 / 12.92.
Proof.
  intros H. unfold channel_to_linear.
  destruct (Rle_dec (IZR n / 255) 0.04045); [reflexivity | contradiction].
Qed.

Lemma channel_to_linear_high (n : Z) :
  0.04045 < IZR n / 255 ->
  channel_to_linear n = py_pow ((IZR n / 255 + 0.055) / 1.055) 2.4.
Proof.
  intros H. unfold channel_to_linear.
  destruct (Rle_dec (IZR n / 255) 0.04045); [lra | reflexivity].
Qed.

Lemma channel_to_linear_range (n : Z) :
  byte n -> 0 <= channel_to_linear n <= 1.
Proof.
  intros [H0 H255]. apply IZR_le in H0, H255.
  destruct (Rle_lt_dec (IZR n / 255) 0.04045) as [H | H].
  - rewrite channel_to_linear_low by exact H. lra.
  - rewrite channel_to_linear_high by exact H. split.
    + left. apply py_pow_pos.
    + apply py_pow_le_one; lra.
Qed.

(** Above the linear segment the decoded value exceeds [0.0031308]. *)
Lemma channel_to_linear_above (n : Z) :
  0.04045 < IZR n / 255 -> 0.0031308 < channel_to_linear n.
Proof.
  intros H. rewrite channel_to_linear_high by exact H.
  apply py_pow_decode_gt; [lra |].
  apply Rlt_le_trans with (((0.04045 + 0.055) / 1.055) ^ 12); [lra |].
  apply pow_incr. lra.
Qed.

Lemma linear_to_channel_low (v : R) :
  0 <= v <= 0.0031308 -> linear_to_channel v = py_round (v * 12.92 * 255).
Proof.
  intros H. unfold linear_to_channel.
  rewrite (Rmin_right 1 v) by lra. rewrite (Rmax_right 0 v) by lra.
  destruct (Rle_dec v 0.0031308); [reflexivity | lra].
Qed.

Lemma linear_to_channel_high (v : R) :
  0.0031308 < v <= 1 ->
  linear_to_channel v = py_round ((1.055 * py_pow v (1 / 2.4) - 0.055) * 255).
Proof.
  intros H. unfold linear_to_channel.
  rewrite (Rmin_right 1 v) by lra. rewrite (Rmax_right 0 v) by lra.
  destruct (Rle_dec v 0.0031308); [lra | reflexivity].
Qed.

Lemma clamp_unit_range (v : R) : 0 <= Rmax 0 (Rmin 1 v) <= 1.
Proof.
  split; [apply Rmax_l |].
  apply Rmax_lub; [lra | apply Rmin_l].
Qed.

Lemma linear_to_channel_byte (v : R) : byte (linear_to_channel v).
Proof.
  unfold linear_to_channel.
  pose proof (clamp_unit_range v) as Hw.
  set (w := Rmax 0 (Rmin 1 v)) in *.
  apply py_round_bounds.
  destruct (Rle_dec w 0.0031308) as [Hl | Hl].
  - lra.
  - assert (Hp1 : py_pow w (1 / 2.4) <= 1) by (apply py_pow_le_one; lra).
    assert (Hp0 : 0.06 < py_pow w (1 / 2.4)).
    { apply py_pow_encode_gt; [lra |].
      apply Rlt_le_trans with (0.0031308 ^ 5); [lra |].
      apply pow_incr. lra. }
    lra.
Qed.

Lemma encode_decode (n : Z) :
  byte n -> linear_to_channel (channel_to_linear n) = n.
Proof.
  intros Hn. pose proof (channel_to_linear_range n Hn) as Hr.
  destruct Hn as [H0 H255]. apply IZR_le in H0, H255.
  destruct (Rle_lt_dec (IZR n / 255) 0.04045) as [H | H].
  - rewrite channel_to_linear_low by exact H.
    assert (H10 : IZR n <= 10).
    { apply IZR_le, Z.lt_succ_r, lt_IZR. change (Z.succ 10) with 11%Z. lra. }
    rewrite linear_to_channel_low by lra.
    replace (IZR n / 255 / 12.92 * 12.92 * 255) with (IZR n) by lra.
    apply py_round_IZR.
  - pose proof (channel_to_linear_above n H) as Ha.
    rewrite linear_to_channel_high by lra.
    rewrite channel_to_linear_high by exact H.
    rewrite py_pow_encode_decode by lra.
    replace ((1.055 * ((IZR n / 255 + 0.055) / 1.055) - 0.055) * 255)
      with (IZR n) by lra.
    apply py_round_IZR.
Qed.

(** ** The colour functions are total on canonical colours *)

Ltac decode_color H :=
  let t := fresh "t" in
  let Ht := fresh "Hdec" in
  let Hb := fresh "Hbyte" in
  destruct (canonical_hex_to_rgb _ H) as (t & Ht & Hb);
  destruct t as [[? ?] ?].

Lemma luminance_of_range (r g b : R) :
  0 <= r <= 1 -> 0 <= g <= 1 -> 0 <= b <= 1 -> 0 <= luminance_of r g b <= 1.
Proof. unfold luminance_of. lra. Qed.

Lemma relative_luminance_total (c : string) :
  canonical c = true ->
  exists l, relative_luminance c = Some l /\ 0 <= l <= 1.
Proof.
  intros Hc. decode_color Hc. destruct Hbyte as (Hr & Hg & Hb).
  unfold relative_luminance. rewrite Hdec. cbn [mbind option_bind].
  eexists; split; [reflexivity |].
  apply luminance_of_range; apply channel_to_linear_range; assumption.
Qed.

Lemma contrast_ratio_total (a b : string) :
  canonical a = true -> canonical b = true ->
  exists cr, contrast_ratio a b = Some cr /\ 1 <= cr.
Proof.
  intros Ha Hb.
  destruct (relative_luminance_total a Ha) as (la & Ea & Ra).
  destruct (relative_luminance_total b Hb) as (lb & Eb & Rb).
  unfold contrast_ratio. rewrite Ea, Eb. cbn [mbind option_bind].
  eexists; split; [reflexivity |].
  assert (Hd : 0 < Rmin la lb + 0.05).
  { unfold Rmin. destruct (Rle_dec la lb); lra. }
  apply Rmult_le_reg_r with (Rmin la lb + 0.05); [exact Hd |].
  unfold Rdiv. rewrite Rmult_assoc, Rinv_l, Rmult_1_r by lra.
  pose proof (Rmin_l la lb). pose proof (Rmax_l la lb). lra.
Qed.

Lemma blend_total (a b : string) (amount : R) :
  canonical a = true -> canonical b = true -> 0 <= amount <= 1 ->
  exists s, blend a b amount = Some s /\ canonical s = true.
Proof.
  intros Ha Hb Hamt. decode_color Ha. decode_color Hb.
  destruct Hbyte as ([] & [] & []). destruct Hbyte0 as ([] & [] & []).
  unfold blend. rewrite Hdec, Hdec0. cbn [mbind option_bind].
  eexists; split; [reflexivity |].
  apply rgb_to_hex_canonical. unfold byte_triple.
  repeat match goal with H : (_ <= _)%Z |- _ => apply IZR_le in H end.
  split; [| split]; apply (py_round_bounds _ 0 255); rewrite minus_IZR; nra.
Qed.

Lemma encoded_canonical (x y z : R) :
  canonical
    (rgb_to_hex (linear_to_channel x, linear_to_channel y, linear_to_channel z))
  = true.
Proof.
  apply rgb_to_hex_canonical.
  split; [| split]; apply linear_to_channel_byte.
Qed.

Lemma boost_total (c : string) (factor : R) :
  canonical c = true ->
  exists s, boost_saturation_preserve_luminance c factor = Some s
            /\ canonical s = true.
Proof.
  intros Hc. unfold boost_saturation_preserve_luminance.
  destruct (Rle_dec factor 1); [eauto |].
  decode_color Hc. rewrite Hdec. cbn [mbind option_bind].
  unfold transform.
  eexists; split; [reflexivity | apply encoded_canonical].
Qed.

Lemma scale_luminance_total (c : string) (target_lum : R) :
  canonical c = true ->
  exists s, scale_luminance c target_lum = Some s /\ canonical s = true.
Proof.
  intros Hc. unfold scale_luminance.
  decode_color Hc. rewrite Hdec. cbn [mbind option_bind].
  destruct (Rlt_dec _ 0.001); [eauto |].
  destruct (scaled_linear _ _ _ _) as [[? ?] ?].
  eexists; split; [reflexivity | apply encoded_canonical].
Qed.

Lemma clamp_lum_total (c : string) :
  canonical c = true ->
  exists s, _clamp_lum c = Some s /\ canonical s = true.
Proof.
  intros Hc. unfold _clamp_lum.
  destruct (relative_luminance_total c Hc) as (l & -> & _).
  cbn [mbind option_bind].
  destruct (Rlt_dec _ l); [apply scale_luminance_total, Hc | eauto].
Qed.

Lemma ensure_contrast_total (background : string) (bg_lum : R) (c : string) :
  canonical background = true -> canonical c = true ->
  exists s, _ensure_contrast background bg_lum c = Some s /\ canonical s = true.
Proof.
  intros Hb Hc. unfold _ensure_contrast.
  destruct (contrast_ratio_total c background Hc Hb) as (cr & -> & _).
  cbn [mbind option_bind].
  destruct (Rlt_dec cr _); [apply scale_luminance_total, Hc | eauto].
Qed.

(** *** Candidate lists *)

Lemma add_candidate_canonical (unique : list string) (color : string) :
  Forall (fun s => canonical s = true) unique ->
  Forall (fun s => canonical s = true) (add_candidate unique color).
Proof.
  intros H. unfold add_candidate.
  destruct (normalize_hex color) as [n |] eqn:E; [| exact H].
  destruct (existsb _ unique); [exact H |].
  apply Forall_app. split; [exact H |].
  constructor; [| constructor]. eapply normalize_hex_canonical, E.
Qed.

Lemma fold_add_candidate_canonical (candidates unique : list string) :
  Forall (fun s => canonical s = true) unique ->
  Forall (fun s => canonical s = true) (fold_left add_candidate candidates unique).
Proof.
  revert unique. induction candidates as [| c cs IH]; intros unique H; [exact H |].
  cbn [fold_left]. apply IH, add_candidate_canonical, H.
Qed.

Lemma unique_candidates_canonical (candidates : list string) :
  Forall (fun s => canonical s = true) (unique_candidates_of candidates).
Proof. apply fold_add_candidate_canonical. constructor. Qed.

(** The running maximum: the result is the first item, in the order of the
    list, whose key is the largest. *)
Lemma max_by_key_first_max {A} (key : A -> option R) (kf : A -> R)
    (items pre0 mid : list A) (best : A) :
  (forall x, In x (best :: items) -> key x = Some (kf x)) ->
  (forall x, In x pre0 -> kf x < kf best) ->
  (forall x, In x mid -> kf x <= kf best) ->
  exists pre r post,
    (pre0 ++ best :: mid ++ items = pre ++ r :: post)%list
    /\ max_by_key key best (kf best) items = Some r
    /\ (forall x, In x pre -> kf x < kf r)
    /\ (forall x, In x post -> kf x <= kf r).
Proof.
  revert pre0 mid best.
  induction items as [| x items IH]; intros pre0 mid best Hkey Hpre Hmid.
  - exists pre0, best, mid. rewrite app_nil_r. cbn. auto.
  - cbn [max_by_key]. rewrite (Hkey x) by (cbn; auto).
    cbn [mbind option_bind].
    destruct (Rlt_dec (kf best) (kf x)) as [Hlt | Hge].
    + destruct (IH (pre0 ++ best :: mid)%list [] x) as (pre & r & post & E & Hr & H1 & H2).
      * intros y [<- | Hy]; apply Hkey; cbn; auto.
      * intros y Hy. apply in_app_or in Hy as [Hy | [<- | Hy]].
        -- specialize (Hpre y Hy). lra.
        -- exact Hlt.
        -- specialize (Hmid y Hy). lra.
      * intros y [].
      * exists pre, r, post. split; [| auto].
        rewrite <- E. cbn [app]. rewrite <- app_assoc. reflexivity.
    + destruct (IH pre0 (mid ++ [x])%list best) as (pre & r & post & E & Hr & H1 & H2).
      * intros y [<- | Hy]; apply Hkey; cbn; auto.
      * exact Hpre.
      * intros y Hy. apply in_app_or in Hy as [Hy | [<- | []]];
          [apply Hmid, Hy | lra].
      * exists pre, r, post. split; [| auto].
        rewrite <- E. rewrite <- app_assoc. reflexivity.
Qed.

Lemma best_contrast_text_total (background : string) (candidates : list string) :
  canonical background = true ->
  exists s, best_contrast_text background candidates = Some s
            /\ canonical s = true.
Proof.
  intros Hb. unfold best_contrast_text.
  pose proof (unique_candidates_canonical candidates) as Hall.
  destruct (unique_candidates_of candidates) as [| first others];
    [eexists; split; [reflexivity | reflexivity] |].
  set (kf := fun c => match contrast_ratio background c with
                      | Some k => k | None => 0 end).
  assert (Hkey : forall x, In x (first :: others) ->
                           contrast_ratio background x = Some (kf x)).
  { intros x Hx. rewrite Forall_forall in Hall.
    apply list_elem_of_In in Hx.
    destruct (contrast_ratio_total background x Hb (Hall x Hx)) as (k & E & _).
    unfold kf. rewrite E. reflexivity. }
  rewrite (Hkey first) by (cbn; auto). cbn [mbind option_bind].
  destruct (max_by_key_first_max (contrast_ratio background) kf others [] [] first)
    as (pre & r & post & E & Hr & _); [exact Hkey | intros ? [] | intros ? [] |].
  exists r. split; [exact Hr |].
  rewrite Forall_forall in Hall. apply Hall.
  cbn [app] in E. rewrite E. apply list_elem_of_In, in_or_app. cbn. auto.
Qed.

(** ** The three parts of [build_starship_palette] *)

Lemma or_else_canonical (v : option string) (d : string) :
  present_canonical v -> canonical d = true -> canonical (or_else v d) = true.
Proof.
  intros Hv Hd. unfold or_else, truthy.
  destruct v as [s |]; [| exact Hd].
  destruct (String.eqb s ""); [exact Hd | apply Hv; reflexivity].
Qed.

Lemma truthy_canonical (v : option string) (s : string) :
  present_canonical v -> truthy v = Some s -> canonical s = true.
Proof.
  intros Hv. unfold truthy. destruct v as [s' |]; [| discriminate].
  destruct (String.eqb s' ""); [discriminate |].
  intros [= <-]. apply Hv. reflexivity.
Qed.

Lemma colors_of_canonical (parsed : parsed_config) (idx : Z) :
  well_formed parsed -> present_canonical (colors_of parsed !! idx).
Proof.
  intros Hwf. unfold colors_of.
  destruct (p_palette parsed) as [d |] eqn:E.
  - apply (wf_palette parsed Hwf d idx E).
  - intros s. rewrite lookup_empty. discriminate.
Qed.

(** The values of the local variables, read off the definition. *)
Lemma resolve_inputs_Some (parsed : parsed_config) (i : inputs) :
  resolve_inputs parsed = Some i ->
  let colors := colors_of parsed in
  foreground i = foreground_of parsed
  /\ background i = background_of parsed
  /\ Some (selection_background i) =
       match truthy (p_selection_background parsed) with
       | Some s => Some s
       | None =>
           match truthy (colors !! 8%Z) with
           | Some s => Some s
           | None => blend (background i) (foreground i) 0.25
           end
       end
  /\ red (raw_accents i) = or_else (colors !! 1%Z) "#cc241d"
  /\ green (raw_accents i) = or_else (colors !! 2%Z) "#98971a"
  /\ yellow (raw_accents i) = or_else (colors !! 3%Z) "#d79921"
  /\ blue (raw_accents i) = or_else (colors !! 4%Z) "#458588"
  /\ purple (raw_accents i) = or_else (colors !! 5%Z) "#b16286"
  /\ aqua (raw_accents i) = or_else (colors !! 6%Z) "#689d6a"
  /\ Some (orange (raw_accents i)) =
       blend (red (raw_accents i)) (yellow (raw_accents i)) 0.5.
Proof.
  unfold resolve_inputs. intros H.
  match type of H with
  | mbind _ ?x = _ => destruct x as [sel |] eqn:Esel; [| discriminate H]
  end.
  cbn [mbind option_bind] in H.
  match type of H with
  | mbind _ ?x = _ => destruct x as [o |] eqn:Eo; [| discriminate H]
  end.
  cbn [mbind option_bind] in H. injection H as <-.
  cbn [foreground background selection_background raw_accents
       red green yellow blue purple aqua orange].
  repeat split; try reflexivity; symmetry; assumption.
Qed.

Lemma resolve_inputs_total (parsed : parsed_config) :
  well_formed parsed ->
  exists i, resolve_inputs parsed = Some i /\ inputs_canonical i.
Proof.
  intros Hwf.
  pose proof (colors_of_canonical parsed) as Hcol.
  set (fg := foreground_of parsed).
  set (bg := background_of parsed).
  assert (Hfg : canonical fg = true).
  { apply or_else_canonical; [apply (wf_foreground _ Hwf) |].
    apply or_else_canonical; [apply Hcol, Hwf | reflexivity]. }
  assert (Hbg : canonical bg = true).
  { apply or_else_canonical; [apply (wf_background _ Hwf) |].
    apply or_else_canonical; [apply Hcol, Hwf | reflexivity]. }
  assert (Hsel : exists s,
    match truthy (p_selection_background parsed) with
    | Some s => Some s
    | None => match truthy (colors_of parsed !! 8%Z) with
              | Some s => Some s
              | None => blend bg fg 0.25
              end
    end = Some s /\ canonical s = true).
  { destruct (truthy (p_selection_background parsed)) as [s |] eqn:E1.
    - exists s. split; [reflexivity |].
      eapply truthy_canonical;
        [apply (wf_selection_background _ Hwf) | exact E1].
    - destruct (truthy (colors_of parsed !! 8%Z)) as [s |] eqn:E2.
      + exists s. split; [reflexivity |].
        eapply truthy_canonical; [apply Hcol, Hwf | exact E2].
      + apply blend_total; [assumption | assumption | lra]. }
  destruct Hsel as (sel & Esel & Hsel).
  assert (Hacc : forall idx d, canonical d = true ->
            canonical (or_else (colors_of parsed !! idx) d) = true).
  { intros idx d Hd. apply or_else_canonical; [apply Hcol, Hwf | exact Hd]. }
  destruct (blend_total (or_else (colors_of parsed !! 1%Z) "#cc241d")
              (or_else (colors_of parsed !! 3%Z) "#d79921") 0.5)
    as (o & Eo & Ho); [apply Hacc; reflexivity | apply Hacc; reflexivity | lra |].
  unfold resolve_inputs. fold fg. fold bg.
  rewrite Esel. cbn [mbind option_bind]. rewrite Eo. cbn [mbind option_bind].
  eexists; split; [reflexivity |].
  unfold inputs_canonical, accents_canonical.
  cbn [foreground background selection_background raw_accents
       red green yellow blue purple aqua orange].
  repeat split; try assumption; apply Hacc; reflexivity.
Qed.

Ltac invert_bind H :=
  match type of H with
  | mbind _ ?x = Some _ =>
      let v := fresh "v" in
      let E := fresh "E" in
      destruct x as [v |] eqn:E; [| discriminate H];
      cbn [mbind option_bind] in H
  end.

(** Each accent of the dark-theme block goes through its own three
    corrections; nothing of one accent reaches another. *)
Lemma dark_theme_block_dark (bg : string) (l : R) (a a' : accents) :
  relative_luminance bg = Some l ->
  l < DARK_BACKGROUND_LUMINANCE_THRESHOLD ->
  dark_theme_block bg a = Some a' ->
  corrected bg l (red a) = Some (red a')
  /\ corrected bg l (green a) = Some (green a')
  /\ corrected bg l (yellow a) = Some (yellow a')
  /\ corrected bg l (blue a) = Some (blue a')
  /\ corrected bg l (purple a) = Some (purple a')
  /\ corrected bg l (aqua a) = Some (aqua a')
  /\ corrected bg l (orange a) = Some (orange a').
Proof.
  intros Hl Hdark H. unfold dark_theme_block in H.
  rewrite Hl in H. cbn [mbind option_bind] in H.
  destruct (Rlt_dec l DARK_BACKGROUND_LUMINANCE_THRESHOLD); [| contradiction].
  do 14 invert_bind H.
  cbn [mbind option_bind] in H.
  do 7 invert_bind H.
  injection H as <-. unfold corrected.
  cbn [red green yellow blue purple aqua orange].
  repeat match goal with E : _ = Some _ |- _ => rewrite E; clear E end.
  cbn [mbind option_bind].
  repeat match goal with E : _ = Some _ |- _ => rewrite E; clear E end.
  cbn [mbind option_bind].
  repeat match goal with E : _ = Some _ |- _ => rewrite E; clear E end.
  repeat split; reflexivity.
Qed.

Lemma dark_theme_block_light (bg : string) (l : R) (a : accents) :
  relative_luminance bg = Some l ->
  DARK_BACKGROUND_LUMINANCE_THRESHOLD <= l ->
  dark_theme_block bg a = Some a.
Proof.
  intros Hl Hlight. unfold dark_theme_block.
  rewrite Hl. cbn [mbind option_bind].
  destruct (Rlt_dec l DARK_BACKGROUND_LUMINANCE_THRESHOLD); [lra | reflexivity].
Qed.

Lemma dark_theme_block_total (bg : string) (a : accents) :
  canonical bg = true -> accents_canonical a ->
  exists a', dark_theme_block bg a = Some a' /\ accents_canonical a'.
Proof.
  intros Hb (Hr & Hg & Hy & Hbl & Hp & Ha & Ho).
  destruct (relative_luminance_total bg Hb) as (l & Hl & _).
  unfold dark_theme_block. rewrite Hl. cbn [mbind option_bind].
  destruct (Rlt_dec l DARK_BACKGROUND_LUMINANCE_THRESHOLD).
  2:{ exists a. split; [reflexivity |]. repeat split; assumption. }
  destruct (boost_total _ DARK_THEME_SATURATION_BOOST Hr) as (r1 & -> & Hr1).
  destruct (boost_total _ DARK_THEME_SATURATION_BOOST Hg) as (g1 & -> & Hg1).
  destruct (boost_total _ DARK_THEME_SATURATION_BOOST Hy) as (y1 & -> & Hy1).
  destruct (boost_total _ DARK_THEME_SATURATION_BOOST Hbl) as (b1 & -> & Hb1).
  destruct (boost_total _ DARK_THEME_SATURATION_BOOST Hp) as (p1 & -> & Hp1).
  destruct (boost_total _ DARK_THEME_SATURATION_BOOST Ha) as (a1 & -> & Ha1).
  destruct (boost_total _ DARK_THEME_SATURATION_BOOST Ho) as (o1 & -> & Ho1).
  cbn [mbind option_bind].
  destruct (clamp_lum_total _ Hr1) as (r2 & -> & Hr2).
  destruct (clamp_lum_total _ Hg1) as (g2 & -> & Hg2).
  destruct (clamp_lum_total _ Hy1) as (y2 & -> & Hy2).
  destruct (clamp_lum_total _ Hb1) as (b2 & -> & Hb2).
  destruct (clamp_lum_total _ Hp1) as (p2 & -> & Hp2).
  destruct (clamp_lum_total _ Ha1) as (a2 & -> & Ha2).
  destruct (clamp_lum_total _ Ho1) as (o2 & -> & Ho2).
  cbn [mbind option_bind].
  destruct (ensure_contrast_total bg l _ Hb Hr2) as (r3 & -> & Hr3).
  destruct (ensure_contrast_total bg l _ Hb Hg2) as (g3 & -> & Hg3).
  destruct (ensure_contrast_total bg l _ Hb Hy2) as (y3 & -> & Hy3).
  destruct (ensure_contrast_total bg l _ Hb Hb2) as (b3 & -> & Hb3).
  destruct (ensure_contrast_total bg l _ Hb Hp2) as (p3 & -> & Hp3).
  destruct (ensure_contrast_total bg l _ Hb Ha2) as (a3 & -> & Ha3).
  destruct (ensure_contrast_total bg l _ Hb Ho2) as (o3 & -> & Ho3).
  cbn [mbind option_bind].
  eexists; split; [reflexivity |]. repeat split; assumption.
Qed.

Lemma assemble_total (i : inputs) (a : accents) :
  inputs_canonical i -> accents_canonical a ->
  exists pal, assemble i a = Some pal
    /\ map fst pal = slot_names
    /\ Forall (fun s => canonical s = true) (map snd pal).
Proof.
  intros (Hfg & Hbg & Hsel & _) (Hr & Hg & Hy & Hbl & Hp & Ha & Ho).
  unfold assemble.
  set (cands := [foreground i; background i; "#ffffff"; "#000000"]).
  destruct (best_contrast_text_total _ cands Hbg) as (t1 & -> & T1).
  destruct (best_contrast_text_total _ cands Hsel) as (t2 & -> & T2).
  destruct (best_contrast_text_total _ cands Hbl) as (t3 & -> & T3).
  destruct (best_contrast_text_total _ cands Ha) as (t4 & -> & T4).
  destruct (best_contrast_text_total _ cands Hg) as (t5 & -> & T5).
  destruct (best_contrast_text_total _ cands Ho) as (t6 & -> & T6).
  destruct (best_contrast_text_total _ cands Hp) as (t7 & -> & T7).
  destruct (best_contrast_text_total _ cands Hr) as (t8 & -> & T8).
  destruct (best_contrast_text_total _ cands Hy) as (t9 & -> & T9).
  cbn [mbind option_bind].
  eexists; split; [reflexivity |]. split; [reflexivity |].
  cbn [map snd]. repeat constructor; assumption.
Qed.

(** The accents and the three base colours of the returned dictionary. *)
Lemma assemble_items (i : inputs) (a : accents) (pal : list (string * string)) :
  assemble i a = Some pal ->
  item "color_fg0" pal = Some (foreground i)
  /\ item "color_bg1" pal = Some (background i)
  /\ item "color_bg3" pal = Some (selection_background i)
  /\ item "color_red" pal = Some (red a)
  /\ item "color_green" pal = Some (green a)
  /\ item "color_yellow" pal = Some (yellow a)
  /\ item "color_blue" pal = Some (blue a)
  /\ item "color_purple" pal = Some (purple a)
  /\ item "color_aqua" pal = Some (aqua a)
  /\ item "color_orange" pal = Some (orange a).
Proof.
  intros H. unfold assemble in H.
  do 9 invert_bind H. injection H as <-.
  repeat split; reflexivity.
Qed.

(** ** The gamut search of the saturation boost *)

Lemma in_unit_true (x : R) : in_unit x = true <-> 0 <= x <= 1.
Proof.
  unfold in_unit. destruct (Rle_dec 0 x), (Rle_dec x 1); split;
    first [reflexivity | discriminate | lra | idtac]; intros; lra.
Qed.

Section Search.
Variables y r g b : R.

Local Abbreviation G := (gamut_at y r g b).

Lemma in_gamut_true (k : R) :
  G k <->
  0 <= y + (r - y) * k <= 1 /\ 0 <= y + (g - y) * k <= 1
  /\ 0 <= y + (b - y) * k <= 1.
Proof.
  unfold gamut_at, transform, in_gamut. rewrite !andb_true_iff, !in_unit_true. tauto.
Qed.

(** The in-gamut scales form an interval. *)
Lemma in_gamut_convex (k1 k k2 : R) :
  G k1 -> G k2 -> k1 <= k <= k2 -> G k.
Proof.
  rewrite !in_gamut_true. intros (R1 & G1 & B1) (R2 & G2 & B2) Hk.
  assert (Haff : forall d, 0 <= y + d * k1 <= 1 -> 0 <= y + d * k2 <= 1 ->
                           0 <= y + d * k <= 1).
  { intros d H1 H2. destruct (Rle_lt_dec 0 d); split; nra. }
  auto.
Qed.

Lemma search_step_cases (low high : R) :
  let mid := (low + high) / 2 in
  (G mid /\ search_step y r g b (low, high) = (mid, high))
  \/ (~ G mid /\ search_step y r g b (low, high) = (low, mid)).
Proof.
  unfold search_step, gamut_at. cbn zeta.
  destruct (in_gamut (transform y r g b ((low + high) / 2))); [left | right];
    split; auto.
Qed.

(** What the loop keeps true of [(low, high)]. *)
Lemma search_invariant (n : nat) (low0 high0 low high hi_top : R) :
  low0 <= high0 -> G low0 -> (high0 = hi_top \/ ~ G high0) ->
  search n y r g b (low0, high0) = (low, high) ->
  low0 <= low /\ low <= high /\ high <= high0
  /\ high - low = (high0 - low0) / 2 ^ n
  /\ G low /\ (high = hi_top \/ ~ G high).
Proof.
  revert low0 high0.
  induction n as [| n IH]; intros low0 high0 Hle HG Hhi Hs.
  - cbn in Hs. injection Hs as <- <-. repeat split; auto; try lra.
  - cbn [search] in Hs.
    destruct (search_step_cases low0 high0) as [[Hm E] | [Hm E]];
      rewrite E in Hs; apply IH in Hs; try lra; auto.
    + destruct Hs as (H1 & H2 & H3 & H4 & H5 & H6).
      repeat split; auto; try lra.
      rewrite H4. cbn [pow]. field. apply pow_nonzero. lra.
    + destruct Hs as (H1 & H2 & H3 & H4 & H5 & H6).
      repeat split; auto; try lra.
      rewrite H4. cbn [pow]. field. apply pow_nonzero. lra.
Qed.

Hypothesis Hr : 0 <= r <= 1.
Hypothesis Hg : 0 <= g <= 1.
Hypothesis Hb : 0 <= b <= 1.

Lemma in_gamut_one : G 1.
Proof. apply in_gamut_true. lra. Qed.

(** The result of the twenty rounds. *)
Lemma search_low_spec (factor : R) :
  1 <= factor ->
  let k := search_low y r g b factor in
  1 <= k <= factor
  /\ G k
  /\ (forall k', 1 <= k' <= factor -> G k' ->
                 k' - k <= (factor - 1) / 2 ^ 20).
Proof.
  intros Hf k. subst k. unfold search_low.
  destruct (search 20 y r g b (1, factor)) as [low high] eqn:Es.
  apply (search_invariant 20 1 factor low high factor) in Es;
    [| exact Hf | exact in_gamut_one | left; reflexivity].
  destruct Es as (H1 & H2 & H3 & H4 & H5 & H6). cbn [fst].
  split; [lra |]. split; [exact H5 |].
  intros k' Hk' HG'. rewrite <- H4.
  destruct H6 as [-> | Hout]; [lra |].
  destruct (Rle_lt_dec k' high) as [Hle | Hgt]; [lra |].
  exfalso. apply Hout.
  apply (in_gamut_convex low high k'); [exact H5 | exact HG' | lra].
Qed.



End Search.

Lemma boost_noop (color : string) (factor : R) :
  factor <= 1 -> boost_saturation_preserve_luminance color factor = Some color.
Proof.
  intros H. unfold boost_saturation_preserve_luminance.
  destruct (Rle_dec factor 1); [reflexivity | contradiction].
Qed.

Lemma boost_unfold (color : string) (factor : R) (r8 g8 b8 : Z) :
  1 < factor -> hex_to_rgb color = Some (r8, g8, b8) ->
  let r := channel_to_linear r8 in
  let g := channel_to_linear g8 in
  let b := channel_to_linear b8 in
  let y := luminance_of r g b in
  let k := search_low y r g b factor in
  boost_saturation_preserve_luminance color factor =
  Some (rgb_to_hex (linear_to_channel (y + (r - y) * k),
                    linear_to_channel (y + (g - y) * k),
                    linear_to_channel (y + (b - y) * k))).
Proof.
  intros Hf Hdec. cbn zeta. unfold boost_saturation_preserve_luminance.
  destruct (Rle_dec factor 1); [lra |].
  rewrite Hdec. reflexivity.
Qed.

(** ** Luminance rescaling *)

(** Whatever [hex_to_rgb] returns is a triple of bytes. *)
Lemma hex_digit_range (c : ascii) (d : Z) :
  hex_digit c = Some d -> (0 <= d <= 15)%Z.
Proof.
  unfold hex_digit.
  repeat match goal with
         | |- context [if ?c then _ else _] => destruct c eqn:?
         end; intros [= <-]; lia.
Qed.

Lemma int16_short_byte (s : string) (v : Z) :
  (String.length s <= 2)%nat -> int16 s = Some v -> byte v.
Proof.
  destruct s as [| c1 [| c2 [| ? ?]]]; cbn [String.length]; intros Hlen;
    try lia; cbn [int16 int16_from]; try discriminate.
  - destruct (hex_digit c1) as [d1 |] eqn:E1; [| discriminate].
    intros [= <-]. apply hex_digit_range in E1. unfold byte. lia.
  - destruct (hex_digit c1) as [d1 |] eqn:E1; [| discriminate].
    destruct (hex_digit c2) as [d2 |] eqn:E2; [| discriminate].
    intros [= <-]. apply hex_digit_range in E1, E2. unfold byte. lia.
Qed.

Lemma substring_length_le (n m : nat) (s : string) :
  (String.length (substring n m s) <= m)%nat.
Proof.
  revert n m. induction s as [| c s IH]; intros [| n] [| m]; cbn; try lia.
  - specialize (IH 0%nat m). lia.
  - apply (IH n 0%nat).
  - apply (IH n (S m)).
Qed.

Lemma hex_to_rgb_bytes (color : string) (t : Z * Z * Z) :
  hex_to_rgb color = Some t -> byte_triple t.
Proof.
  unfold hex_to_rgb. intros H.
  do 3 invert_bind H. injection H as <-.
  repeat split;
    (eapply int16_short_byte; [apply substring_length_le | eassumption]).
Qed.

Lemma scale_luminance_near_black (color : string) (target_lum l : R) :
  relative_luminance color = Some l -> l < 0.001 ->
  scale_luminance color target_lum = Some color.
Proof.
  unfold relative_luminance, scale_luminance.
  destruct (hex_to_rgb color) as [[[r g] b] |]; [| discriminate].
  cbn [mbind option_bind]. intros [= <-] Hl.
  destruct (Rlt_dec _ 0.001); [reflexivity | contradiction].
Qed.

Lemma scale_luminance_unfold (color : string) (target_lum l : R) (r g b : Z) :
  hex_to_rgb color = Some (r, g, b) ->
  luminance_of (channel_to_linear r) (channel_to_linear g) (channel_to_linear b)
    = l ->
  0.001 <= l ->
  scale_luminance color target_lum =
  let '(new_r, new_g, new_b) :=
    scaled_linear (channel_to_linear r) (channel_to_linear g)
      (channel_to_linear b) target_lum in
  Some (rgb_to_hex (linear_to_channel new_r, linear_to_channel new_g,
                    linear_to_channel new_b)).
Proof.
  intros Hdec Hl Hge. unfold scale_luminance. rewrite Hdec.
  cbn [mbind option_bind]. rewrite Hl.
  destruct (Rlt_dec l 0.001); [lra | reflexivity].
Qed.

Lemma scale_luminance_channels (color : string) (target_lum : R) (out : string) :
  scale_luminance color target_lum = Some out ->
  exists t, hex_to_rgb out = Some t /\ byte_triple t.
Proof.
  unfold scale_luminance.
  destruct (hex_to_rgb color) as [[[r g] b] |] eqn:Hdec; [| discriminate].
  cbn [mbind option_bind].
  destruct (Rlt_dec _ 0.001).
  - intros [= <-]. eexists; split; [exact Hdec |].
    eapply hex_to_rgb_bytes, Hdec.
  - destruct (scaled_linear _ _ _ _) as [[nr ng] nb].
    intros [= <-].
    assert (Hb : byte_triple (linear_to_channel nr, linear_to_channel ng,
                              linear_to_channel nb)).
    { split; [| split]; apply linear_to_channel_byte. }
    exists (linear_to_channel nr, linear_to_channel ng, linear_to_channel nb).
    split; [exact (hex_to_rgb_to_hex _ Hb) | exact Hb].
Qed.



(** ** The candidate list is the order-preserving deduplication *)

Lemma filter_filter_and {A} (p q : A -> bool) (l : list A) :
  List.filter p (List.filter q l) = List.filter (fun y => q y && p y) l.
Proof.
  induction l as [| x l IH]; [reflexivity |]. cbn [List.filter].
  destruct (q x); cbn [List.filter andb]; [destruct (p x) |]; rewrite IH;
    reflexivity.
Qed.

Lemma fold_add_candidate_spec (candidates acc : list string) :
  fold_left add_candidate candidates acc =
  (acc ++ List.filter (fun y => negb (existsb (String.eqb y) acc))
            (first_occurrences (normalized_candidates candidates)))%list.
Proof.
  revert acc. induction candidates as [| c cs IH]; intros acc.
  - cbn. rewrite app_nil_r. reflexivity.
  - cbn [fold_left normalized_candidates]. unfold add_candidate at 2.
    destruct (normalize_hex c) as [n |]; [| apply IH].
    cbn [first_occurrences List.filter].
    destruct (existsb (String.eqb n) acc) eqn:Ein; cbn [negb].
    + rewrite IH. f_equal. rewrite filter_filter_and.
      apply filter_ext. intros y.
      destruct (String.eqb_spec n y) as [<- | Hne]; cbn [negb andb];
        [rewrite Ein |]; reflexivity.
    + rewrite IH, <- app_assoc. cbn [app]. do 2 f_equal.
      rewrite filter_filter_and. apply filter_ext. intros y.
      rewrite existsb_app. cbn [existsb]. rewrite orb_false_r.
      rewrite (String.eqb_sym y n).
      destruct (String.eqb n y), (existsb (String.eqb y) acc); reflexivity.
Qed.

Lemma unique_candidates_spec (candidates : list string) :
  unique_candidates_of candidates =
  first_occurrences (normalized_candidates candidates).
Proof.
  unfold unique_candidates_of. rewrite fold_add_candidate_spec.
  cbn [app existsb negb]. induction (first_occurrences _) as [| x l IH];
    [reflexivity |]. cbn [List.filter]. rewrite IH. reflexivity.
Qed.

(** ** Luminance of black and white *)

Lemma channel_to_linear_0 : channel_to_linear 0 = 0.
Proof. rewrite channel_to_linear_low; lra. Qed.

Lemma channel_to_linear_255 : channel_to_linear 255 = 1.
Proof.
  rewrite channel_to_linear_high by lra.
  replace ((255 / 255 + 0.055) / 1.055) with 1 by lra.
  apply py_pow_one.
Qed.

Lemma hex_black : hex_to_rgb "#000000" = Some (0, 0, 0)%Z.
Proof. vm_compute. reflexivity. Qed.

Lemma hex_white : hex_to_rgb "#ffffff" = Some (255, 255, 255)%Z.
Proof. vm_compute. reflexivity. Qed.

Lemma hex_red : hex_to_rgb "#ff0000" = Some (255, 0, 0)%Z.
Proof. vm_compute. reflexivity. Qed.

Lemma hex_cc241d : hex_to_rgb "#cc241d" = Some (204, 36, 29)%Z.
Proof. vm_compute. reflexivity. Qed.

Lemma pure_red_luminance :
  luminance_of (channel_to_linear 255) (channel_to_linear 0) (channel_to_linear 0)
  = 0.2126.
Proof.
  rewrite channel_to_linear_255, channel_to_linear_0. unfold luminance_of. lra.
Qed.

Lemma luminance_black : relative_luminance "#000000" = Some 0.
Proof.
  unfold relative_luminance. rewrite hex_black. cbn [mbind option_bind].
  rewrite channel_to_linear_0. f_equal. unfold luminance_of. lra.
Qed.

Lemma luminance_white : relative_luminance "#ffffff" = Some 1.
Proof.
  unfold relative_luminance. rewrite hex_white. cbn [mbind option_bind].
  rewrite channel_to_linear_255. f_equal. unfold luminance_of. lra.
Qed.

Lemma contrast_black_white : contrast_ratio "#000000" "#ffffff" = Some 21.
Proof.
  unfold contrast_ratio. rewrite luminance_black, luminance_white.
  cbn [mbind option_bind]. f_equal.
  rewrite Rmax_right, Rmin_left by lra. lra.
Qed.

Lemma contrast_black_black : contrast_ratio "#000000" "#000000" = Some 1.
Proof.
  unfold contrast_ratio. rewrite luminance_black.
  cbn [mbind option_bind]. f_equal.
  rewrite Rmax_left, Rmin_left by lra. lra.
Qed.

(** ** The whole of [build_starship_palette] *)

Lemma build_spec (parsed : parsed_config) :
  well_formed parsed ->
  exists i a pal,
    resolve_inputs parsed = Some i /\ inputs_canonical i
    /\ dark_theme_block (background i) (raw_accents i) = Some a
    /\ accents_canonical a
    /\ assemble i a = Some pal
    /\ build_starship_palette parsed = Some pal
    /\ map fst pal = slot_names
    /\ Forall (fun s => canonical s = true) (map snd pal).
Proof.
  intros Hwf.
  destruct (resolve_inputs_total parsed Hwf) as (i & Ei & Hi).
  assert (Hi' := Hi). destruct Hi' as (_ & Hbg & _ & Hacc).
  destruct (dark_theme_block_total _ _ Hbg Hacc) as (a & Ea & Ha).
  destruct (assemble_total i a Hi Ha) as (pal & Ep & Hk & Hv).
  exists i, a, pal. unfold build_starship_palette.
  rewrite Ei. cbn [mbind option_bind]. rewrite Ea. cbn [mbind option_bind].
  auto 10.
Qed.

Lemma truthy_present (v : option string) :
  present_canonical v -> truthy v = v.
Proof.
  intros Hv. unfold truthy. destruct v as [s |]; [| reflexivity].
  specialize (Hv s eq_refl). destruct s; [discriminate Hv | reflexivity].
Qed.

Lemma or_else_present (v : option string) (d : string) :
  present_canonical v ->
  or_else v d = match v with Some c => c | None => d end.
Proof. intros Hv. unfold or_else. rewrite truthy_present; auto. Qed.

Lemma present_Some (s : string) : canonical s = true -> present_canonical (Some s).
Proof. intros H s' [= <-]. exact H. Qed.

Lemma present_None : present_canonical None.
Proof. intros s H. discriminate H. Qed.

Lemma no_theme_well_formed : well_formed no_theme.
Proof. split; try apply present_None. intros d idx H. discriminate H. Qed.

Lemma light_theme_well_formed : well_formed light_theme.
Proof.
  split; try apply present_None; [apply present_Some; reflexivity |].
  intros d idx H. discriminate H.
Qed.

Lemma dark_theme_well_formed : well_formed dark_theme.
Proof.
  split; try apply present_None; [apply present_Some; reflexivity |].
  intros d idx H. discriminate H.
Qed.

Lemma white_on_black_well_formed : well_formed white_on_black.
Proof.
  split; try apply present_None; try (apply present_Some; reflexivity).
  intros d idx H. discriminate H.
Qed.

Lemma black_on_white_well_formed : well_formed black_on_white.
Proof.
  split; try apply present_None; try (apply present_Some; reflexivity).
  intros d idx H. discriminate H.
Qed.

Lemma grey_theme_well_formed : well_formed grey_theme.
Proof.
  split; try apply present_None; [apply present_Some; reflexivity |].
  intros d idx [= <-] s Hs.
  apply lookup_insert_Some in Hs as [[_ <-] | [_ Hs]]; [reflexivity |].
  apply lookup_singleton_Some in Hs as [_ <-]. reflexivity.
Qed.

Lemma slot_names_distinct : NoDup slot_names /\ length slot_names = 19%nat.
Proof.
  split; [| reflexivity].
  apply (bool_decide_unpack _). vm_compute. exact I.
Qed.

(** The accents of the palette, on both sides of the threshold. *)
Lemma build_accents_spec (parsed : parsed_config) (l : R) :
  well_formed parsed ->
  relative_luminance (background_of parsed) = Some l ->
  exists i a pal,
    resolve_inputs parsed = Some i
    /\ build_starship_palette parsed = Some pal
    /\ item "color_red" pal = Some (red a)
    /\ item "color_green" pal = Some (green a)
    /\ item "color_yellow" pal = Some (yellow a)
    /\ item "color_blue" pal = Some (blue a)
    /\ item "color_purple" pal = Some (purple a)
    /\ item "color_aqua" pal = Some (aqua a)
    /\ item "color_orange" pal = Some (orange a)
    /\ (DARK_BACKGROUND_LUMINANCE_THRESHOLD <= l -> a = raw_accents i)
    /\ (l < DARK_BACKGROUND_LUMINANCE_THRESHOLD ->
        corrected (background i) l (red (raw_accents i)) = Some (red a)
        /\ corrected (background i) l (green (raw_accents i)) = Some (green a)
        /\ corrected (background i) l (yellow (raw_accents i)) = Some (yellow a)
        /\ corrected (background i) l (blue (raw_accents i)) = Some (blue a)
        /\ corrected (background i) l (purple (raw_accents i)) = Some (purple a)
        /\ corrected (background i) l (aqua (raw_accents i)) = Some (aqua a)
        /\ corrected (background i) l (orange (raw_accents i)) = Some (orange a)).
Proof.
  intros Hwf Hl.
  destruct (build_spec parsed Hwf) as (i & a & pal & Ei & _ & Ea & _ & Ep & Eb & _).
  destruct (resolve_inputs_Some parsed i Ei) as (_ & Hbg & _).
  rewrite <- Hbg in Hl.
  destruct (assemble_items i a pal Ep)
    as (_ & _ & _ & I1 & I2 & I3 & I4 & I5 & I6 & I7).
  exists i, a, pal. repeat (split; [assumption |]). split.
  - intros Hlight.
    rewrite (dark_theme_block_light _ l _ Hl Hlight) in Ea. congruence.
  - intros Hdark. exact (dark_theme_block_dark _ l _ _ Hl Hdark Ea).
Qed.

(** ** Enclosures of the transfer functions *)

Lemma channel_to_linear_gt (n : Z) (lo : R) :
  0.04045 < IZR n / 255 ->
  lo ^ 5 < ((IZR n / 255 + 0.055) / 1.055) ^ 12 ->
  lo < channel_to_linear n.
Proof.
  intros Hn H. rewrite channel_to_linear_high by exact Hn.
  apply py_pow_decode_gt; [clear H; lra | exact H].
Qed.

Lemma channel_to_linear_lt (n : Z) (hi : R) :
  0.04045 < IZR n / 255 -> 0 <= hi ->
  ((IZR n / 255 + 0.055) / 1.055) ^ 12 < hi ^ 5 ->
  channel_to_linear n < hi.
Proof.
  intros Hn Hhi H. rewrite channel_to_linear_high by exact Hn.
  apply py_pow_decode_lt; [clear H; lra | exact Hhi | exact H].
Qed.

Lemma linear_to_channel_enclosed (v vl vh : R) (n : Z) :
  0.0031308 < vl -> vl <= v <= vh -> vh <= 1 -> 0 <= IZR n ->
  (((IZR n - 1 / 2) / 255 + 0.055) / 1.055) ^ 12 < vl ^ 5 ->
  vh ^ 5 < (((IZR n + 1 / 2) / 255 + 0.055) / 1.055) ^ 12 ->
  linear_to_channel v = n.
Proof.
  intros Hvl Hv Hvh Hn Hlo Hhi.
  assert (Hv0 : 0 < v) by (clear Hlo Hhi; lra).
  assert (Hv1 : 0.0031308 < v <= 1) by (clear Hlo Hhi; lra).
  assert (Hb0 : 0 <= ((IZR n + 1 / 2) / 255 + 0.055) / 1.055)
    by (clear Hlo Hhi; lra).
  assert (Hp1 : 0 <= vl <= v) by (clear Hlo Hhi; lra).
  assert (Hp2 : 0 <= v <= vh) by (clear Hlo Hhi; lra).
  rewrite linear_to_channel_high by exact Hv1.
  assert (H1 : ((IZR n - 1 / 2) / 255 + 0.055) / 1.055 < py_pow v (1 / 2.4)).
  { apply py_pow_encode_gt; [exact Hv0 |].
    apply Rlt_le_trans with (vl ^ 5); [exact Hlo | apply pow_incr; exact Hp1]. }
  assert (H2 : py_pow v (1 / 2.4) < ((IZR n + 1 / 2) / 255 + 0.055) / 1.055).
  { apply py_pow_encode_lt; [exact Hv0 | exact Hb0 |].
    apply Rle_lt_trans with (vh ^ 5); [apply pow_incr; exact Hp2 | exact Hhi]. }
  clear Hlo Hhi. apply py_round_near. lra.
Qed.

(** A grey is not moved by the saturation boost. *)
Lemma boost_grey (color : string) (n : Z) (factor : R) :
  1 < factor -> byte n -> hex_to_rgb color = Some (n, n, n) ->
  boost_saturation_preserve_luminance color factor = Some (rgb_to_hex (n, n, n)).
Proof.
  intros Hf Hn Hdec.
  rewrite (boost_unfold color factor n n n Hf Hdec). cbn zeta.
  set (c := channel_to_linear n).
  assert (Hy : luminance_of c c c = c) by (unfold luminance_of; lra).
  rewrite Hy.
  replace (c + (c - c) * _) with c by lra.
  unfold c. rewrite encode_decode by exact Hn. reflexivity.
Qed.

Lemma clamp_lum_below (c : string) (l : R) :
  relative_luminance c = Some l -> l <= DARK_ACCENT_MAX_LUMINANCE ->
  _clamp_lum c = Some c.
Proof.
  intros Hl Hle. unfold _clamp_lum. rewrite Hl. cbn [mbind option_bind].
  destruct (Rlt_dec DARK_ACCENT_MAX_LUMINANCE l); [lra | reflexivity].
Qed.

Lemma clamp_lum_above (c : string) (l : R) :
  relative_luminance c = Some l -> DARK_ACCENT_MAX_LUMINANCE < l ->
  _clamp_lum c = scale_luminance c DARK_ACCENT_MAX_LUMINANCE.
Proof.
  intros Hl Hlt. unfold _clamp_lum. rewrite Hl. cbn [mbind option_bind].
  destruct (Rlt_dec DARK_ACCENT_MAX_LUMINANCE l); [reflexivity | lra].
Qed.

Lemma ensure_contrast_enough (bg : string) (bg_lum : R) (c : string) (cr : R) :
  contrast_ratio c bg = Some cr -> DARK_ACCENT_MIN_CONTRAST <= cr ->
  _ensure_contrast bg bg_lum c = Some c.
Proof.
  intros Hc Hle. unfold _ensure_contrast. rewrite Hc. cbn [mbind option_bind].
  destruct (Rlt_dec cr DARK_ACCENT_MIN_CONTRAST); [lra | reflexivity].
Qed.

Lemma ensure_contrast_short (bg : string) (bg_lum : R) (c : string) (cr : R) :
  contrast_ratio c bg = Some cr -> cr < DARK_ACCENT_MIN_CONTRAST ->
  _ensure_contrast bg bg_lum c =
  scale_luminance c
    (Rmax (DARK_ACCENT_MIN_CONTRAST * (bg_lum + 0.05) - 0.05) 0.15).
Proof.
  intros Hc Hlt. unfold _ensure_contrast. rewrite Hc. cbn [mbind option_bind].
  destruct (Rlt_dec cr DARK_ACCENT_MIN_CONTRAST); [reflexivity | lra].
Qed.

(** The contrast of a colour with a darker background. *)
Lemma contrast_ratio_over (c bg : string) (lc lb : R) :
  relative_luminance c = Some lc -> relative_luminance bg = Some lb ->
  lb <= lc ->
  contrast_ratio c bg = Some ((lc + 0.05) / (lb + 0.05)).
Proof.
  intros Hc Hb Hle. unfold contrast_ratio. rewrite Hc, Hb.
  cbn [mbind option_bind]. rewrite Rmax_left, Rmin_right by lra. reflexivity.
Qed.

Lemma relative_luminance_grey (color : string) (n : Z) :
  hex_to_rgb color = Some (n, n, n) ->
  relative_luminance color = Some (channel_to_linear n).
Proof.
  intros H. unfold relative_luminance. rewrite H. cbn [mbind option_bind].
  f_equal. unfold luminance_of. lra.
Qed.

(** *** The black, white and grey of [grey_theme] *)

Lemma corrected_black_on_black : corrected "#000000" 0 "#000000" = Some "#000000".
Proof.
  unfold corrected, DARK_THEME_SATURATION_BOOST.
  rewrite (boost_grey "#000000" 0) by (try exact hex_black; try lra; split; lia).
  change (rgb_to_hex (0, 0, 0)%Z) with "#000000". cbn [mbind option_bind].
  rewrite (clamp_lum_below _ 0 luminance_black)
    by (unfold DARK_ACCENT_MAX_LUMINANCE; lra).
  cbn [mbind option_bind].
  rewrite (ensure_contrast_short _ _ _ 1 contrast_black_black)
    by (unfold DARK_ACCENT_MIN_CONTRAST; lra).
  apply (scale_luminance_near_black _ _ 0 luminance_black). lra.
Qed.

Lemma hex_c4 : hex_to_rgb "#c4c4c4" = Some (196, 196, 196)%Z.
Proof. vm_compute. reflexivity. Qed.

Lemma hex_80 : hex_to_rgb "#808080" = Some (128, 128, 128)%Z.
Proof. vm_compute. reflexivity. Qed.

Lemma linear_196_bounds : 0.125 < channel_to_linear 196.
Proof. apply channel_to_linear_gt; lra. Qed.

Lemma linear_128_bounds : 0.125 < channel_to_linear 128 < 0.55.
Proof.
  split; [apply channel_to_linear_gt | apply channel_to_linear_lt]; lra.
Qed.

Lemma scale_white_to_ceiling :
  scale_luminance "#ffffff" DARK_ACCENT_MAX_LUMINANCE = Some "#c4c4c4".
Proof.
  rewrite (scale_luminance_unfold _ _ 1 255 255 255 hex_white);
    [| rewrite channel_to_linear_255; unfold luminance_of; lra | lra].
  rewrite channel_to_linear_255. unfold scaled_linear, DARK_ACCENT_MAX_LUMINANCE.
  replace (luminance_of 1 1 1) with 1 by (unfold luminance_of; lra).
  replace (1 * (0.55 / 1)) with 0.55 by lra.
  rewrite !(Rmax_left 0.55 0.55) by lra.
  destruct (Rlt_dec 1 0.55); [lra |].
  rewrite (linear_to_channel_enclosed 0.55 0.55 0.55 196) by lra.
  reflexivity.
Qed.

Lemma corrected_white_on_black : corrected "#000000" 0 "#ffffff" = Some "#c4c4c4".
Proof.
  unfold corrected, DARK_THEME_SATURATION_BOOST.
  rewrite (boost_grey "#ffffff" 255) by (try exact hex_white; try lra; split; lia).
  change (rgb_to_hex (255, 255, 255)%Z) with "#ffffff". cbn [mbind option_bind].
  rewrite (clamp_lum_above _ 1 luminance_white)
    by (unfold DARK_ACCENT_MAX_LUMINANCE; lra).
  rewrite scale_white_to_ceiling. cbn [mbind option_bind].
  pose proof linear_196_bounds as H196.
  pose proof (channel_to_linear_range 196 ltac:(split; lia)) as R196.
  apply (ensure_contrast_enough _ _ _ ((channel_to_linear 196 + 0.05) / (0 + 0.05))).
  - apply contrast_ratio_over;
      [apply relative_luminance_grey, hex_c4 | exact luminance_black | lra].
  - unfold DARK_ACCENT_MIN_CONTRAST. lra.
Qed.

Lemma corrected_grey_on_black : corrected "#000000" 0 "#808080" = Some "#808080".
Proof.
  unfold corrected, DARK_THEME_SATURATION_BOOST.
  rewrite (boost_grey "#808080" 128) by (try exact hex_80; try lra; split; lia).
  change (rgb_to_hex (128, 128, 128)%Z) with "#808080". cbn [mbind option_bind].
  pose proof linear_128_bounds as H128.
  rewrite (clamp_lum_below _ _ (relative_luminance_grey _ _ hex_80))
    by (unfold DARK_ACCENT_MAX_LUMINANCE; lra).
  cbn [mbind option_bind].
  apply (ensure_contrast_enough _ _ _ ((channel_to_linear 128 + 0.05) / (0 + 0.05))).
  - apply contrast_ratio_over;
      [apply relative_luminance_grey, hex_80 | exact luminance_black | lra].
  - unfold DARK_ACCENT_MIN_CONTRAST. lra.
Qed.

Lemma blend_black_white_half : blend "#000000" "#ffffff" 0.5 = Some "#808080".
Proof.
  unfold blend. rewrite hex_black, hex_white. cbn [mbind option_bind].
  change (255 - 0)%Z with 255%Z.
  replace (0 + 255 * 0.5) with (IZR 127 + 1 / 2) by lra.
  rewrite py_round_half. reflexivity.
Qed.

Lemma blend_black_c4_half : blend "#000000" "#c4c4c4" 0.5 = Some "#626262".
Proof.
  unfold blend. rewrite hex_black, hex_c4. cbn [mbind option_bind].
  change (196 - 0)%Z with 196%Z.
  rewrite (py_round_near _ 98) by lra. reflexivity.
Qed.

(** *** The light background of the test notes *)

Lemma hex_fbf1c7 : hex_to_rgb "#fbf1c7" = Some (251, 241, 199)%Z.
Proof. vm_compute. reflexivity. Qed.

Lemma light_background_is_light :
  exists l, relative_luminance (background_of light_theme) = Some l
            /\ DARK_BACKGROUND_LUMINANCE_THRESHOLD <= l.
Proof.
  change (background_of light_theme) with "#fbf1c7".
  unfold relative_luminance. rewrite hex_fbf1c7. cbn [mbind option_bind].
  eexists; split; [reflexivity |].
  assert (H241 : 0.5 < channel_to_linear 241)
    by (apply channel_to_linear_gt; lra).
  pose proof (channel_to_linear_range 251 ltac:(split; lia)).
  pose proof (channel_to_linear_range 199 ltac:(split; lia)).
  unfold luminance_of, DARK_BACKGROUND_LUMINANCE_THRESHOLD. lra.
Qed.

(** * The claims about the palette *)

(** C2.  For every input the theme reader can hand over (each colour that
    is present is canonical), [build_starship_palette] returns a dictionary
    and does not raise; its keys are exactly the nineteen slot names, each
    once, and every value is a canonical [#rrggbb] string. *)
Theorem build_starship_palette_complete (parsed : parsed_config) :
  well_formed parsed ->
  exists pal,
    build_starship_palette parsed = Some pal
    /\ map fst pal = slot_names
    /\ length pal = 19%nat
    /\ NoDup (map fst pal)
    /\ (forall k, In k slot_names ->
          exists v, item k pal = Some v /\ canonical v = true).
Proof.
  intros Hwf.
  destruct (build_spec parsed Hwf) as (i & a & pal & _ & _ & _ & _ & _ & Eb & Hk & Hv).
  exists pal. split; [exact Eb |]. split; [exact Hk |].
  assert (Hlen : length pal = 19%nat).
  { rewrite <- (length_map fst), Hk. reflexivity. }
  split; [exact Hlen |]. split; [rewrite Hk; apply slot_names_distinct |].
  do 20 (destruct pal as [| [? ?] pal]; try discriminate Hlen).
  cbn [map fst] in Hk. injection Hk as -> -> -> -> -> -> -> -> -> -> -> -> -> -> -> -> -> -> ->.
  cbn [map snd] in Hv.
  repeat match goal with
         | H : Forall _ (_ :: _) |- _ => apply Forall_cons in H as [? H]
         end.
  intros k Hin. cbn [slot_names In] in Hin.
  repeat (destruct Hin as [<- | Hin]; [eexists; split; [reflexivity | assumption] |]).
  destruct Hin.
Qed.

Lemma build_starship_palette_complete_witness :
  well_formed no_theme
  /\ exists pal,
       build_starship_palette no_theme = Some pal
       /\ map fst pal = slot_names
       /\ length pal = 19%nat
       /\ NoDup (map fst pal)
       /\ (forall k, In k slot_names ->
             exists v, item k pal = Some v /\ canonical v = true).
Proof.
  split; [exact no_theme_well_formed |].
  apply (build_starship_palette_complete no_theme), no_theme_well_formed.
Defined.

(** C4.  The dark-theme corrections are gated by the strict comparison of
    the background luminance with the threshold 0.26: at or above it the
    seven accents of the palette are the values they had before the block
    (the six resolved accents and the blended orange); strictly below it
    each accent is the result of its three corrections. *)
Theorem light_theme_accents_pass_through (parsed : parsed_config) (l : R) :
  well_formed parsed ->
  relative_luminance (background_of parsed) = Some l ->
  exists i a pal,
    resolve_inputs parsed = Some i
    /\ build_starship_palette parsed = Some pal
    /\ item "color_red" pal = Some (red a)
    /\ item "color_green" pal = Some (green a)
    /\ item "color_yellow" pal = Some (yellow a)
    /\ item "color_blue" pal = Some (blue a)
    /\ item "color_purple" pal = Some (purple a)
    /\ item "color_aqua" pal = Some (aqua a)
    /\ item "color_orange" pal = Some (orange a)
    /\ (DARK_BACKGROUND_LUMINANCE_THRESHOLD <= l -> a = raw_accents i)
    /\ (l < DARK_BACKGROUND_LUMINANCE_THRESHOLD ->
        corrected (background i) l (red (raw_accents i)) = Some (red a)
        /\ corrected (background i) l (green (raw_accents i)) = Some (green a)
        /\ corrected (background i) l (yellow (raw_accents i)) = Some (yellow a)
        /\ corrected (background i) l (blue (raw_accents i)) = Some (blue a)
        /\ corrected (background i) l (purple (raw_accents i)) = Some (purple a)
        /\ corrected (background i) l (aqua (raw_accents i)) = Some (aqua a)
        /\ corrected (background i) l (orange (raw_accents i)) = Some (orange a)).
Proof. apply build_accents_spec. Qed.

Lemma light_theme_accents_pass_through_witness :
  well_formed light_theme
  /\ exists l, relative_luminance (background_of light_theme) = Some l
  /\ DARK_BACKGROUND_LUMINANCE_THRESHOLD <= l
  /\ exists i a pal,
    resolve_inputs light_theme = Some i
    /\ build_starship_palette light_theme = Some pal
    /\ item "color_red" pal = Some (red a)
    /\ item "color_green" pal = Some (green a)
    /\ item "color_yellow" pal = Some (yellow a)
    /\ item "color_blue" pal = Some (blue a)
    /\ item "color_purple" pal = Some (purple a)
    /\ item "color_aqua" pal = Some (aqua a)
    /\ item "color_orange" pal = Some (orange a)
    /\ (DARK_BACKGROUND_LUMINANCE_THRESHOLD <= l -> a = raw_accents i)
    /\ (l < DARK_BACKGROUND_LUMINANCE_THRESHOLD ->
        corrected (background i) l (red (raw_accents i)) = Some (red a)
        /\ corrected (background i) l (green (raw_accents i)) = Some (green a)
        /\ corrected (background i) l (yellow (raw_accents i)) = Some (yellow a)
        /\ corrected (background i) l (blue (raw_accents i)) = Some (blue a)
        /\ corrected (background i) l (purple (raw_accents i)) = Some (purple a)
        /\ corrected (background i) l (aqua (raw_accents i)) = Some (aqua a)
        /\ corrected (background i) l (orange (raw_accents i)) = Some (orange a)).
Proof.
  split; [exact light_theme_well_formed |].
  destruct light_background_is_light as (l & Hl & Hlight).
  exists l. split; [exact Hl |]. split; [exact Hlight |].
  apply (light_theme_accents_pass_through light_theme l);
    [exact light_theme_well_formed | exact Hl].
Defined.

(** C1, as the code has it.  The orange accent is blended once, from the
    red and yellow resolved from the input (palette entries 1 and 3 or their
    fallbacks), before the dark-theme block; no entry of the input is read
    for it.  On a light background the palette's orange is that blend, and
    red and yellow are unchanged, so it is the blend of the final red and
    yellow.  On a dark background the palette's orange is the blend put
    through its own three corrections; it is not blended again from the
    corrected red and yellow. *)
Theorem orange_blended_before_corrections (parsed : parsed_config) :
  well_formed parsed ->
  exists i a pal l,
    resolve_inputs parsed = Some i
    /\ build_starship_palette parsed = Some pal
    /\ relative_luminance (background i) = Some l
    /\ red (raw_accents i) =
         match colors_of parsed !! 1%Z with Some c => c | None => "#cc241d" end
    /\ yellow (raw_accents i) =
         match colors_of parsed !! 3%Z with Some c => c | None => "#d79921" end
    /\ blend (red (raw_accents i)) (yellow (raw_accents i)) 0.5
         = Some (orange (raw_accents i))
    /\ item "color_red" pal = Some (red a)
    /\ item "color_yellow" pal = Some (yellow a)
    /\ item "color_orange" pal = Some (orange a)
    /\ (DARK_BACKGROUND_LUMINANCE_THRESHOLD <= l ->
        orange a = orange (raw_accents i)
        /\ blend (red a) (yellow a) 0.5 = Some (orange a))
    /\ (l < DARK_BACKGROUND_LUMINANCE_THRESHOLD ->
        corrected (background i) l (orange (raw_accents i)) = Some (orange a)).
Proof.
  intros Hwf.
  destruct (build_spec parsed Hwf) as (i & a0 & pal0 & Ei & Hi & _).
  destruct Hi as (_ & Hbg & _).
  destruct (relative_luminance_total _ Hbg) as (l & Hl & _).
  destruct (resolve_inputs_Some parsed i Ei)
    as (_ & Ebg & _ & Er & _ & Ey & _ & _ & _ & Eo).
  assert (Hl' := Hl). rewrite Ebg in Hl'.
  destruct (build_accents_spec parsed l Hwf Hl')
    as (i' & a & pal & Ei' & Eb & I1 & _ & I3 & _ & _ & _ & I7 & Hlight & Hdark).
  assert (i' = i) by congruence. subst i'.
  pose proof (colors_of_canonical parsed 1%Z Hwf) as P1.
  pose proof (colors_of_canonical parsed 3%Z Hwf) as P3.
  rewrite or_else_present in Er, Ey by assumption.
  exists i, a, pal, l. repeat (split; [first [assumption | congruence] |]).
  split.
  - intros H. rewrite (Hlight H). split; [reflexivity | congruence].
  - intros H. apply (Hdark H).
Qed.

Lemma orange_blended_before_corrections_witness :
  well_formed grey_theme
  /\ exists i a pal l,
    resolve_inputs grey_theme = Some i
    /\ build_starship_palette grey_theme = Some pal
    /\ relative_luminance (background i) = Some l
    /\ red (raw_accents i) =
         match colors_of grey_theme !! 1%Z with Some c => c | None => "#cc241d" end
    /\ yellow (raw_accents i) =
         match colors_of grey_theme !! 3%Z with Some c => c | None => "#d79921" end
    /\ blend (red (raw_accents i)) (yellow (raw_accents i)) 0.5
         = Some (orange (raw_accents i))
    /\ item "color_red" pal = Some (red a)
    /\ item "color_yellow" pal = Some (yellow a)
    /\ item "color_orange" pal = Some (orange a)
    /\ (DARK_BACKGROUND_LUMINANCE_THRESHOLD <= l ->
        orange a = orange (raw_accents i)
        /\ blend (red a) (yellow a) 0.5 = Some (orange a))
    /\ (l < DARK_BACKGROUND_LUMINANCE_THRESHOLD ->
        corrected (background i) l (orange (raw_accents i)) = Some (orange a)).
Proof.
  split; [exact grey_theme_well_formed |].
  apply (orange_blended_before_corrections grey_theme), grey_theme_well_formed.
Defined.

(** C1, as the specification states it, fails: with a black background, a
    black red and a white yellow the palette's red is [#000000], its yellow
    [#c4c4c4] and its orange [#808080], while the blend of that red and
    yellow is [#626262]. *)
Lemma orange_not_blend_of_final_red_yellow :
  well_formed grey_theme
  /\ exists pal,
       build_starship_palette grey_theme = Some pal
       /\ item "color_red" pal = Some "#000000"
       /\ item "color_yellow" pal = Some "#c4c4c4"
       /\ item "color_orange" pal = Some "#808080"
       /\ blend "#000000" "#c4c4c4" 0.5 = Some "#626262"
       /\ "#626262" <> "#808080".
Proof.
  split; [exact grey_theme_well_formed |].
  assert (Hl : relative_luminance (background_of grey_theme) = Some 0)
    by exact luminance_black.
  destruct (build_accents_spec grey_theme 0 grey_theme_well_formed Hl)
    as (i & a & pal & Ei & Eb & I1 & _ & I3 & _ & _ & _ & I7 & _ & Hdark).
  destruct (resolve_inputs_Some grey_theme i Ei)
    as (_ & Ebg & _ & Er & _ & Ey & _ & _ & _ & Eo).
  change (background_of grey_theme) with "#000000" in Ebg.
  change (or_else _ "#cc241d") with "#000000" in Er.
  change (or_else _ "#d79921") with "#ffffff" in Ey.
  rewrite Er, Ey, blend_black_white_half in Eo. injection Eo as Eo.
  destruct Hdark as (Hr & _ & Hy & _ & _ & _ & Ho).
  { unfold DARK_BACKGROUND_LUMINANCE_THRESHOLD. lra. }
  rewrite Ebg, Er, corrected_black_on_black in Hr.
  rewrite Ebg, Ey, corrected_white_on_black in Hy.
  rewrite Ebg, Eo, corrected_grey_on_black in Ho.
  exists pal. split; [exact Eb |].
  split; [congruence |]. split; [congruence |]. split; [congruence |].
  split; [exact blend_black_c4_half | discriminate].
Qed.

(** C6, as the code has it.  An accent that is absent from the palette is
    replaced, before the dark-theme block, by its fixed constant ([#cc241d],
    [#98971a], [#d79921], [#458588], [#b16286], [#689d6a]).  An absent
    foreground or background is first looked up in palette entry 7 or 0 and
    only then replaced by [#fbf1c7] or [#3c3836].  An absent selection
    background is looked up in palette entry 8 and otherwise computed as
    [blend(background, foreground, 0.25)]: there is no constant for it. *)
Theorem fallbacks_of_absent_inputs (parsed : parsed_config) :
  well_formed parsed ->
  exists i a pal,
    resolve_inputs parsed = Some i
    /\ dark_theme_block (background i) (raw_accents i) = Some a
    /\ build_starship_palette parsed = Some pal
    /\ item "color_fg0" pal = Some (foreground i)
    /\ item "color_bg1" pal = Some (background i)
    /\ item "color_bg3" pal = Some (selection_background i)
    /\ item "color_red" pal = Some (red a)
    /\ item "color_green" pal = Some (green a)
    /\ item "color_yellow" pal = Some (yellow a)
    /\ item "color_blue" pal = Some (blue a)
    /\ item "color_purple" pal = Some (purple a)
    /\ item "color_aqua" pal = Some (aqua a)
    /\ foreground i =
         match p_foreground parsed with
         | Some c => c
         | None =>
             match colors_of parsed !! 7%Z with
             | Some c => c
             | None => "#fbf1c7"
             end
         end
    /\ background i =
         match p_background parsed with
         | Some c => c
         | None =>
             match colors_of parsed !! 0%Z with
             | Some c => c
             | None => "#3c3836"
             end
         end
    /\ Some (selection_background i) =
         match p_selection_background parsed with
         | Some c => Some c
         | None =>
             match colors_of parsed !! 8%Z with
             | Some c => Some c
             | None => blend (background i) (foreground i) 0.25
             end
         end
    /\ red (raw_accents i) =
         match colors_of parsed !! 1%Z with Some c => c | None => "#cc241d" end
    /\ green (raw_accents i) =
         match colors_of parsed !! 2%Z with Some c => c | None => "#98971a" end
    /\ yellow (raw_accents i) =
         match colors_of parsed !! 3%Z with Some c => c | None => "#d79921" end
    /\ blue (raw_accents i) =
         match colors_of parsed !! 4%Z with Some c => c | None => "#458588" end
    /\ purple (raw_accents i) =
         match colors_of parsed !! 5%Z with Some c => c | None => "#b16286" end
    /\ aqua (raw_accents i) =
         match colors_of parsed !! 6%Z with Some c => c | None => "#689d6a" end.
Proof.
  intros Hwf.
  destruct (build_spec parsed Hwf) as (i & a & pal & Ei & _ & Ea & _ & Ep & Eb & _).
  destruct (assemble_items i a pal Ep)
    as (I1 & I2 & I3 & I4 & I5 & I6 & I7 & I8 & I9 & _).
  destruct (resolve_inputs_Some parsed i Ei)
    as (Efg & Ebg & Esel & Er & Eg & Ey & Ebl & Ep' & Eaq & _).
  pose proof (colors_of_canonical parsed) as Hcol.
  cbn zeta in Esel.
  rewrite !truthy_present in Esel
    by first [apply Hcol, Hwf | apply (wf_selection_background _ Hwf)].
  unfold foreground_of in Efg. unfold background_of in Ebg.
  rewrite !or_else_present in Efg, Ebg
    by first [apply Hcol, Hwf | apply (wf_foreground _ Hwf)
             | apply (wf_background _ Hwf)].
  rewrite or_else_present in Er, Eg, Ey, Ebl, Ep', Eaq by (apply Hcol, Hwf).
  exists i, a, pal. auto 25.
Qed.

Lemma fallbacks_of_absent_inputs_witness :
  well_formed no_theme
  /\ exists i a pal,
    resolve_inputs no_theme = Some i
    /\ dark_theme_block (background i) (raw_accents i) = Some a
    /\ build_starship_palette no_theme = Some pal
    /\ item "color_fg0" pal = Some (foreground i)
    /\ item "color_bg1" pal = Some (background i)
    /\ item "color_bg3" pal = Some (selection_background i)
    /\ item "color_red" pal = Some (red a)
    /\ item "color_green" pal = Some (green a)
    /\ item "color_yellow" pal = Some (yellow a)
    /\ item "color_blue" pal = Some (blue a)
    /\ item "color_purple" pal = Some (purple a)
    /\ item "color_aqua" pal = Some (aqua a)
    /\ foreground i = "#fbf1c7"
    /\ background i = "#3c3836"
    /\ Some (selection_background i) = blend (background i) (foreground i) 0.25
    /\ red (raw_accents i) = "#cc241d"
    /\ green (raw_accents i) = "#98971a"
    /\ yellow (raw_accents i) = "#d79921"
    /\ blue (raw_accents i) = "#458588"
    /\ purple (raw_accents i) = "#b16286"
    /\ aqua (raw_accents i) = "#689d6a".
Proof.
  split; [exact no_theme_well_formed |].
  exact (fallbacks_of_absent_inputs no_theme no_theme_well_formed).
Defined.

(** C6, as the specification states it, fails for the selection
    background: in two inputs that both leave it (and palette entry 8)
    absent, the palette's selection background is [#404040] in one and
    [#bfbfbf] in the other, so no fixed constant is substituted. *)
Lemma selection_background_fallback_not_constant :
  p_selection_background white_on_black = None
  /\ p_selection_background black_on_white = None
  /\ colors_of white_on_black !! 8%Z = None
  /\ colors_of black_on_white !! 8%Z = None
  /\ exists pal1 pal2,
       build_starship_palette white_on_black = Some pal1
       /\ build_starship_palette black_on_white = Some pal2
       /\ item "color_bg3" pal1 = Some "#404040"
       /\ item "color_bg3" pal2 = Some "#bfbfbf"
       /\ "#404040" <> "#bfbfbf".
Proof.
  repeat (split; [reflexivity |]).
  destruct (build_spec _ white_on_black_well_formed)
    as (i1 & a1 & pal1 & Ei1 & _ & _ & _ & Ep1 & Eb1 & _).
  destruct (build_spec _ black_on_white_well_formed)
    as (i2 & a2 & pal2 & Ei2 & _ & _ & _ & Ep2 & Eb2 & _).
  destruct (assemble_items _ _ _ Ep1) as (_ & _ & I1 & _).
  destruct (assemble_items _ _ _ Ep2) as (_ & _ & I2 & _).
  destruct (resolve_inputs_Some _ _ Ei1) as (Ef1 & Eg1 & Es1 & _).
  destruct (resolve_inputs_Some _ _ Ei2) as (Ef2 & Eg2 & Es2 & _).
  cbn zeta in Es1, Es2.
  change (p_selection_background white_on_black) with (@None string) in Es1.
  change (p_selection_background black_on_white) with (@None string) in Es2.
  change (colors_of white_on_black) with (∅ : gmap Z string) in Es1.
  change (colors_of black_on_white) with (∅ : gmap Z string) in Es2.
  rewrite lookup_empty in Es1, Es2. cbn [truthy] in Es1, Es2.
  rewrite Ef1, Eg1 in Es1. rewrite Ef2, Eg2 in Es2.
  change (foreground_of white_on_black) with "#ffffff" in Es1.
  change (background_of white_on_black) with "#000000" in Es1.
  change (foreground_of black_on_white) with "#000000" in Es2.
  change (background_of black_on_white) with "#ffffff" in Es2.
  assert (B1 : blend "#000000" "#ffffff" 0.25 = Some "#404040").
  { unfold blend. rewrite hex_black, hex_white. cbn [mbind option_bind].
    change (255 - 0)%Z with 255%Z.
    rewrite (py_round_near _ 64) by lra. reflexivity. }
  assert (B2 : blend "#ffffff" "#000000" 0.25 = Some "#bfbfbf").
  { unfold blend. rewrite hex_black, hex_white. cbn [mbind option_bind].
    change (0 - 255)%Z with (-255)%Z.
    rewrite (py_round_near _ 191) by lra. reflexivity. }
  exists pal1, pal2. rewrite B1 in Es1. rewrite B2 in Es2.
  injection Es1 as Es1. injection Es2 as Es2.
  repeat (split; [congruence |]). discriminate.
Qed.

(** * The claims about the colour functions *)




(** C7.  For every colour [scale_luminance] accepts and every target, the
    function returns a string.  When the luminance of the input is below
    0.001 that string is the input itself, no division taking place.
    Otherwise it is [rgb_to_hex] of three integers between 0 and 255, the
    values of [linear_to_channel]: a canonical colour, [#] and six digits,
    that reads back as those three channels. *)
Theorem scale_luminance_safe (color : string) (target_lum : R) (r g b : Z) :
  hex_to_rgb color = Some (r, g, b) ->
  let current_lum :=
    luminance_of (channel_to_linear r) (channel_to_linear g)
      (channel_to_linear b) in
  exists out,
    scale_luminance color target_lum = Some out
    /\ relative_luminance color = Some current_lum
    /\ (current_lum < 0.001 -> out = color)
    /\ (0.001 <= current_lum ->
        exists n1 n2 n3 : Z,
          out = rgb_to_hex (n1, n2, n3)
          /\ (0 <= n1 <= 255)%Z /\ (0 <= n2 <= 255)%Z /\ (0 <= n3 <= 255)%Z
          /\ canonical out = true
          /\ hex_to_rgb out = Some (n1, n2, n3)).
Proof.
  intros Hdec current_lum.
  assert (Hl : relative_luminance color = Some current_lum).
  { unfold relative_luminance. rewrite Hdec. reflexivity. }
  destruct (Rlt_le_dec current_lum 0.001) as [Hsmall | Hge].
  - exists color.
    split; [exact (scale_luminance_near_black _ target_lum _ Hl Hsmall) |].
    split; [exact Hl |]. split; [reflexivity |]. intros Hge. lra.
  - pose proof (scale_luminance_unfold color target_lum current_lum r g b
                  Hdec eq_refl Hge) as Hun.
    destruct (scaled_linear _ _ _ _) as [[new_r new_g] new_b].
    pose proof (linear_to_channel_byte new_r) as B1.
    pose proof (linear_to_channel_byte new_g) as B2.
    pose proof (linear_to_channel_byte new_b) as B3.
    assert (Hb : byte_triple (linear_to_channel new_r, linear_to_channel new_g,
                              linear_to_channel new_b))
      by (split; [| split]; assumption).
    eexists. split; [exact Hun |]. split; [exact Hl |].
    split; [intros Hsmall; lra |]. intros _.
    exists (linear_to_channel new_r), (linear_to_channel new_g),
      (linear_to_channel new_b).
    split; [reflexivity |].
    split; [exact B1 |]. split; [exact B2 |]. split; [exact B3 |].
    split; [apply rgb_to_hex_canonical, Hb | apply hex_to_rgb_to_hex, Hb].
Qed.

Lemma scale_luminance_safe_witness :
  hex_to_rgb "#ff0000" = Some (255, 0, 0)%Z
  /\ let current_lum :=
       luminance_of (channel_to_linear 255) (channel_to_linear 0)
         (channel_to_linear 0) in
     exists out,
       scale_luminance "#ff0000" 0.55 = Some out
       /\ relative_luminance "#ff0000" = Some current_lum
       /\ (current_lum < 0.001 -> out = "#ff0000")
       /\ (0.001 <= current_lum ->
           exists n1 n2 n3 : Z,
             out = rgb_to_hex (n1, n2, n3)
             /\ (0 <= n1 <= 255)%Z /\ (0 <= n2 <= 255)%Z /\ (0 <= n3 <= 255)%Z
             /\ canonical out = true
             /\ hex_to_rgb out = Some (n1, n2, n3)).
Proof.
  split; [exact hex_red |].
  exact (scale_luminance_safe "#ff0000" 0.55 255 0 0 hex_red).
Defined.

(** C8.  [best_contrast_text] works on the candidates after normalization,
    each kept where it first occurs.  When that list is empty the result is
    [#ffffff].  Otherwise the result is an element of the list whose
    contrast with the background is at least that of every other element
    and strictly above that of every element before it: the first
    occurrence of the maximum.  For black and the candidates white and
    black the result is white. *)
Theorem best_contrast_text_spec (background : string) (candidates : list string) :
  canonical background = true ->
  let unique := first_occurrences (normalized_candidates candidates) in
  unique_candidates_of candidates = unique
  /\ (unique = [] ->
      best_contrast_text background candidates = Some "#ffffff")
  /\ (unique <> [] ->
      exists pre r post kr,
        unique = (pre ++ r :: post)%list
        /\ best_contrast_text background candidates = Some r
        /\ contrast_ratio background r = Some kr
        /\ (forall x, In x pre ->
              exists k, contrast_ratio background x = Some k /\ k < kr)
        /\ (forall x, In x post ->
              exists k, contrast_ratio background x = Some k /\ k <= kr))
  /\ best_contrast_text "#000000" ["#ffffff"; "#000000"] = Some "#ffffff".
Proof.
  intros Hb unique.
  pose proof (unique_candidates_spec candidates) as Hspec. fold unique in Hspec.
  split; [exact Hspec |]. split; [| split].
  - intros Hnil. unfold best_contrast_text. rewrite Hspec, Hnil. reflexivity.
  - intros Hne. unfold best_contrast_text. rewrite Hspec.
    pose proof (unique_candidates_canonical candidates) as Hall.
    rewrite Hspec in Hall.
    destruct unique as [| first others]; [contradiction |].
    set (kf := fun c => match contrast_ratio background c with
                        | Some k => k | None => 0 end).
    assert (Hkey : forall x, In x (first :: others) ->
                             contrast_ratio background x = Some (kf x)).
    { intros x Hx. rewrite Forall_forall in Hall.
      apply list_elem_of_In in Hx.
      destruct (contrast_ratio_total background x Hb (Hall x Hx)) as (k & E & _).
      unfold kf. rewrite E. reflexivity. }
    rewrite (Hkey first) by (cbn; auto). cbn [mbind option_bind].
    destruct (max_by_key_first_max (contrast_ratio background) kf others [] [] first)
      as (pre & r & post & E & Hr & Hpre & Hpost);
      [exact Hkey | intros ? [] | intros ? [] |].
    cbn [app] in E.
    assert (Hin : forall x, In x (pre ++ r :: post)%list ->
                            contrast_ratio background x = Some (kf x)).
    { intros x Hx. apply Hkey. rewrite E. exact Hx. }
    exists pre, r, post, (kf r).
    split; [exact E |]. split; [exact Hr |].
    split; [apply Hin, in_or_app; cbn; auto |]. split.
    + intros x Hx. exists (kf x).
      split; [apply Hin, in_or_app; auto | apply Hpre, Hx].
    + intros x Hx. exists (kf x).
      split; [apply Hin, in_or_app; cbn; auto | apply Hpost, Hx].
  - unfold best_contrast_text.
    change (unique_candidates_of ["#ffffff"; "#000000"])
      with ["#ffffff"; "#000000"].
    cbv beta iota. rewrite contrast_black_white. cbn [mbind option_bind max_by_key].
    rewrite contrast_black_black. cbn [mbind option_bind].
    destruct (Rlt_dec 21 1); [lra | reflexivity].
Qed.

Lemma best_contrast_text_spec_witness :
  canonical "#000000" = true
  /\ let unique :=
       first_occurrences (normalized_candidates ["#ffffff"; "#000000"]) in
     unique_candidates_of ["#ffffff"; "#000000"] = unique
     /\ (unique = [] ->
         best_contrast_text "#000000" ["#ffffff"; "#000000"] = Some "#ffffff")
     /\ (unique <> [] ->
         exists pre r post kr,
           unique = (pre ++ r :: post)%list
           /\ best_contrast_text "#000000" ["#ffffff"; "#000000"] = Some r
           /\ contrast_ratio "#000000" r = Some kr
           /\ (forall x, In x pre ->
                 exists k, contrast_ratio "#000000" x = Some k /\ k < kr)
           /\ (forall x, In x post ->
                 exists k, contrast_ratio "#000000" x = Some k /\ k <= kr))
     /\ best_contrast_text "#000000" ["#ffffff"; "#000000"] = Some "#ffffff".
Proof.
  split; [reflexivity |].
  exact (best_contrast_text_spec "#000000" ["#ffffff"; "#000000"] eq_refl).
Defined.

(** C9.  Encoding the decoded value of a byte gives the byte back, for
    each of the 256 bytes. *)
Theorem encode_decode_round_trip (n : Z) :
  (0 <= n <= 255)%Z -> linear_to_channel (channel_to_linear n) = n.
Proof. intros Hn. apply encode_decode. exact Hn. Qed.

Lemma encode_decode_round_trip_witness :
  (0 <= 128 <= 255)%Z /\ linear_to_channel (channel_to_linear 128) = 128%Z.
Proof.
  split; [lia |]. apply (encode_decode_round_trip 128). lia.
Defined.



Lemma pure_red_undershoots :
  let '(new_r, new_g, new_b) :=
    scaled_linear (channel_to_linear 255) (channel_to_linear 0)
      (channel_to_linear 0) 0.55 in
  luminance_of new_r new_g new_b = 0.2126.
Proof.
  unfold scaled_linear. rewrite pure_red_luminance.
  rewrite channel_to_linear_255, channel_to_linear_0.
  replace (0 * (0.55 / 0.2126)) with 0 by lra.
  assert (Hm : Rmax (Rmax (1 * (0.55 / 0.2126)) 0) 0 = 0.55 / 0.2126).
  { rewrite (Rmax_left (1 * (0.55 / 0.2126)) 0) by lra.
    rewrite Rmax_left by lra. lra. }
  rewrite Hm. destruct (Rlt_dec 1 (0.55 / 0.2126)) as [_ | Hn]; [| lra].
  replace (0.55 / 0.2126 / (0.55 / 0.2126)) with 1 by (field; lra).
  unfold luminance_of. lra.
Qed.


(** * The dark background of the test notes *)

Lemma mul_bounds (a al ah k kl kh : R) :
  0 <= al -> al <= a <= ah -> 0 <= kl -> kl <= k <= kh ->
  al * kl <= a * k <= ah * kh.
Proof. intros. split; apply Rmult_le_compat; lra. Qed.

Lemma linear_to_channel_zero (v : R) :
  0 <= v <= 0.0001 -> linear_to_channel v = 0%Z.
Proof.
  intros Hv. rewrite linear_to_channel_low by lra.
  apply py_round_near. lra.
Qed.

Lemma scale_luminance_in_gamut (color : string) (target_lum : R) (r g b : Z) :
  hex_to_rgb color = Some (r, g, b) ->
  let rl := channel_to_linear r in
  let gl := channel_to_linear g in
  let bl := channel_to_linear b in
  let factor := target_lum / luminance_of rl gl bl in
  0.001 <= luminance_of rl gl bl ->
  rl * factor <= 1 -> gl * factor <= 1 -> bl * factor <= 1 ->
  scale_luminance color target_lum =
  Some (rgb_to_hex (linear_to_channel (rl * factor),
                    linear_to_channel (gl * factor),
                    linear_to_channel (bl * factor))).
Proof.
  intros Hdec rl gl bl factor Hcur H1 H2 H3.
  rewrite (scale_luminance_unfold color target_lum _ r g b Hdec eq_refl Hcur).
  fold rl gl bl. unfold scaled_linear. fold factor.
  destruct (Rlt_dec 1 (Rmax (Rmax (rl * factor) (gl * factor)) (bl * factor)))
    as [Hover | _]; [| reflexivity].
  exfalso. apply (Rlt_not_le _ _ Hover). repeat apply Rmax_lub; assumption.
Qed.

Lemma contrast_ratio_below (c bg : string) (lc lb K : R) :
  relative_luminance c = Some lc -> relative_luminance bg = Some lb ->
  0 <= lb <= lc -> lc + 0.05 < K * (lb + 0.05) ->
  exists cr, contrast_ratio c bg = Some cr /\ cr < K.
Proof.
  intros Hc Hb Hle Hlt.
  rewrite (contrast_ratio_over c bg lc lb Hc Hb) by lra.
  eexists; split; [reflexivity |].
  apply Rmult_lt_reg_r with (lb + 0.05); [lra |].
  unfold Rdiv. rewrite Rmult_assoc, Rinv_l, Rmult_1_r by lra. exact Hlt.
Qed.

Lemma hex_1d2021 : hex_to_rgb "#1d2021" = Some (29, 32, 33)%Z.
Proof. vm_compute. reflexivity. Qed.

Lemma hex_d21200 : hex_to_rgb "#d21200" = Some (210, 18, 0)%Z.
Proof. vm_compute. reflexivity. Qed.

Lemma hex_e61500 : hex_to_rgb "#e61500" = Some (230, 21, 0)%Z.
Proof. vm_compute. reflexivity. Qed.

Ltac enclose :=
  split; [apply channel_to_linear_gt | apply channel_to_linear_lt]; lra.

Lemma linear_29 : 0.0122864882 < channel_to_linear 29 < 0.0122864885.
Proof. enclose. Qed.

Lemma linear_32 : 0.0144438434 < channel_to_linear 32 < 0.0144438437.
Proof. enclose. Qed.

Lemma linear_33 : 0.0152085143 < channel_to_linear 33 < 0.0152085146.
Proof. enclose. Qed.

Lemma linear_204 : 0.6038273387 < channel_to_linear 204 < 0.6038273390.
Proof. enclose. Qed.

Lemma linear_36 : 0.0176419543 < channel_to_linear 36 < 0.0176419546.
Proof. enclose. Qed.

Lemma linear_210 : 0.6444796818 < channel_to_linear 210 < 0.6444796821.
Proof. enclose. Qed.

Lemma linear_18 : 0.0060488329 < channel_to_linear 18 < 0.0060488332.
Proof. enclose. Qed.

Lemma linear_230 : 0.7912979402 < channel_to_linear 230 < 0.7912979405.
Proof. enclose. Qed.

Lemma linear_21 : 0.0074990319 < channel_to_linear 21 < 0.0074990322.
Proof. enclose. Qed.

(** The background [#1d2021]: its luminance, and the target the contrast
    fix derives from it. *)
Lemma dark_background_luminance :
  exists lb, relative_luminance "#1d2021" = Some lb
             /\ 0.0140403 < lb < 0.0140405.
Proof.
  unfold relative_luminance. rewrite hex_1d2021. cbn [mbind option_bind].
  eexists; split; [reflexivity |].
  pose proof linear_29. pose proof linear_32. pose proof linear_33.
  unfold luminance_of. lra.
Qed.

(** The saturation boost of the fallback red. *)
Lemma boost_fallback_red :
  boost_saturation_preserve_luminance "#cc241d" DARK_THEME_SATURATION_BOOST
  = Some "#d21200".
Proof.
  unfold DARK_THEME_SATURATION_BOOST.
  rewrite (boost_unfold "#cc241d" 1.35 204 36 29) by (try exact hex_cc241d; lra).
  cbn zeta.
  pose proof linear_204 as Hr. pose proof linear_36 as Hg.
  pose proof linear_29 as Hb.
  set (r := channel_to_linear 204) in *.
  set (g := channel_to_linear 36) in *.
  set (b := channel_to_linear 29) in *.
  assert (Hy : luminance_of r g b = 0.2126 * r + 0.7152 * g + 0.0722 * b)
    by reflexivity.
  set (y := luminance_of r g b) in *.
  destruct (search_low_spec y r g b ltac:(lra) ltac:(lra) ltac:(lra) 1.35
              ltac:(lra)) as (Hk & HG & Hnear).
  set (k := search_low y r g b 1.35) in *.
  apply in_gamut_true in HG. destruct HG as (HGr & HGg & HGb).
  assert (Hkl : 1.0948076 <= k).
  { assert (HG' : in_gamut (transform y r g b 1.094808) = true)
      by (apply in_gamut_true; lra).
    specialize (Hnear 1.094808 ltac:(lra) HG'). lra. }
  assert (Hkh : k <= 1.094810).
  { destruct (Rle_lt_dec k 1.094810) as [H | H]; [exact H | exfalso].
    assert ((y - b) * 1.094810 <= (y - b) * k)
      by (apply Rmult_le_compat_l; lra).
    lra. }
  clear Hnear.
  assert (Hyb : 0.14187830 <= y <= 0.14187831) by lra.
  pose proof (mul_bounds r 0.6038273387 0.6038273390 k 1.0948076 1.094810
                ltac:(lra) ltac:(lra) ltac:(lra) ltac:(lra)) as Hrk.
  pose proof (mul_bounds g 0.0176419543 0.0176419546 k 1.0948076 1.094810
                ltac:(lra) ltac:(lra) ltac:(lra) ltac:(lra)) as Hgk.
  pose proof (mul_bounds b 0.0122864882 0.0122864885 k 1.0948076 1.094810
                ltac:(lra) ltac:(lra) ltac:(lra) ltac:(lra)) as Hbk.
  pose proof (mul_bounds y 0.14187830 0.14187831 k 1.0948076 1.094810
                ltac:(lra) ltac:(lra) ltac:(lra) ltac:(lra)) as Hyk.
  rewrite (linear_to_channel_enclosed (y + (r - y) * k) 0.64762 0.64763 210)
    by lra.
  rewrite (linear_to_channel_enclosed (y + (g - y) * k) 0.005862 0.005865 18)
    by lra.
  rewrite (linear_to_channel_zero (y + (b - y) * k)) by lra.
  reflexivity.
Qed.

Lemma boosted_red_luminance :
  exists l, relative_luminance "#d21200" = Some l /\ 0.141342 < l < 0.141343.
Proof.
  unfold relative_luminance. rewrite hex_d21200. cbn [mbind option_bind].
  eexists; split; [reflexivity |].
  pose proof linear_210. pose proof linear_18.
  rewrite channel_to_linear_0. unfold luminance_of. lra.
Qed.

Lemma clamp_boosted_red : _clamp_lum "#d21200" = Some "#d21200".
Proof.
  destruct boosted_red_luminance as (l & Hl & Hb).
  apply (clamp_lum_below _ l Hl). unfold DARK_ACCENT_MAX_LUMINANCE. lra.
Qed.

(** The contrast fix of the boosted red. *)
Lemma ensure_contrast_boosted_red (lb : R) :
  relative_luminance "#1d2021" = Some lb ->
  _ensure_contrast "#1d2021" lb "#d21200" = Some "#e61500".
Proof.
  intros Hlb.
  destruct dark_background_luminance as (lb' & Hlb' & Hb).
  assert (lb' = lb) by congruence. subst lb'.
  destruct boosted_red_luminance as (l & Hl & Hlr).
  destruct (contrast_ratio_below "#d21200" "#1d2021" l lb 3.5 Hl Hlb
              ltac:(lra) ltac:(lra)) as (cr & Hcr & Hshort).
  rewrite (ensure_contrast_short _ _ _ cr Hcr) by exact Hshort.
  unfold DARK_ACCENT_MIN_CONTRAST.
  rewrite Rmax_left by lra.
  set (T := 3.5 * (lb + 0.05) - 0.05).
  assert (HT : 0.17414105 <= T <= 0.17414175) by (unfold T; lra).
  clearbody T. clear Hcr Hshort cr Hlb Hb.
  unfold relative_luminance in Hl. rewrite hex_d21200 in Hl.
  cbn [mbind option_bind] in Hl. injection Hl as Hl.
  pose proof linear_210 as H210. pose proof linear_18 as H18.
  assert (Hcur : 0.001 <= luminance_of (channel_to_linear 210)
                    (channel_to_linear 18) (channel_to_linear 0)) by lra.
  set (f := T / luminance_of (channel_to_linear 210) (channel_to_linear 18)
                  (channel_to_linear 0)).
  assert (Hl' : l = 0.2126 * channel_to_linear 210
                    + 0.7152 * channel_to_linear 18).
  { rewrite <- Hl. unfold luminance_of. rewrite channel_to_linear_0. lra. }
  assert (Hf : 1.232050 <= f <= 1.232056).
  { unfold f. rewrite Hl. split.
    - apply Rmult_le_reg_r with l; [lra |].
      unfold Rdiv. rewrite Rmult_assoc, Rinv_l, Rmult_1_r by lra. lra.
    - apply Rmult_le_reg_r with l; [lra |].
      unfold Rdiv. rewrite Rmult_assoc, Rinv_l, Rmult_1_r by lra. lra. }
  pose proof (mul_bounds (channel_to_linear 210) 0.6444796818 0.6444796821
                f 1.232050 1.232056
                ltac:(lra) ltac:(lra) ltac:(lra) ltac:(lra)) as Hrf.
  pose proof (mul_bounds (channel_to_linear 18) 0.0060488329 0.0060488332
                f 1.232050 1.232056
                ltac:(lra) ltac:(lra) ltac:(lra) ltac:(lra)) as Hgf.
  assert (Hbf : channel_to_linear 0 * f = 0)
    by (rewrite channel_to_linear_0; lra).
  rewrite (scale_luminance_in_gamut "#d21200" T 210 18 0 hex_d21200 Hcur);
    fold f; try lra.
  rewrite (linear_to_channel_enclosed (channel_to_linear 210 * f)
             0.79403 0.79404 230) by lra.
  rewrite (linear_to_channel_enclosed (channel_to_linear 18 * f)
             0.007452 0.007453 21) by lra.
  rewrite Hbf, (linear_to_channel_zero 0) by lra.
  reflexivity.
Qed.

Lemma corrected_fallback_red (lb : R) :
  relative_luminance "#1d2021" = Some lb ->
  corrected "#1d2021" lb "#cc241d" = Some "#e61500".
Proof.
  intros Hlb. unfold corrected.
  rewrite boost_fallback_red. cbn [mbind option_bind].
  rewrite clamp_boosted_red. cbn [mbind option_bind].
  apply ensure_contrast_boosted_red, Hlb.
Qed.

Lemma final_red_luminance :
  exists l, relative_luminance "#e61500" = Some l /\ 0.173593 < l < 0.173594.
Proof.
  unfold relative_luminance. rewrite hex_e61500. cbn [mbind option_bind].
  eexists; split; [reflexivity |].
  pose proof linear_230. pose proof linear_21.
  rewrite channel_to_linear_0. unfold luminance_of. lra.
Qed.

(** C3.  With the background [#1d2021] and no palette, red is the fallback
    [#cc241d] and the background is dark (luminance about 0.014).  The
    target of the contrast fix, [3.5 * (bg_lum + 0.05) - 0.05], is about
    0.174 and therefore not floored at 0.15.  The red of the palette is
    [#e61500]: its luminance is below 0.55, but its contrast with the
    background is below 3.5 (about 3.49), because the rescaled channels are
    rounded to bytes. *)
Theorem dark_red_misses_minimum_contrast :
  well_formed dark_theme
  /\ exists pal lb l cr,
       build_starship_palette dark_theme = Some pal
       /\ relative_luminance "#1d2021" = Some lb
       /\ lb < DARK_BACKGROUND_LUMINANCE_THRESHOLD
       /\ 0.15 < DARK_ACCENT_MIN_CONTRAST * (lb + 0.05) - 0.05
       /\ item "color_red" pal = Some "#e61500"
       /\ relative_luminance "#e61500" = Some l
       /\ l <= DARK_ACCENT_MAX_LUMINANCE
       /\ contrast_ratio "#e61500" "#1d2021" = Some cr
       /\ cr < DARK_ACCENT_MIN_CONTRAST.
Proof.
  split; [exact dark_theme_well_formed |].
  destruct dark_background_luminance as (lb & Hlb & Hb).
  destruct final_red_luminance as (l & Hl & Hlr).
  unfold DARK_BACKGROUND_LUMINANCE_THRESHOLD, DARK_ACCENT_MIN_CONTRAST,
    DARK_ACCENT_MAX_LUMINANCE.
  destruct (contrast_ratio_below "#e61500" "#1d2021" l lb 3.5 Hl Hlb
              ltac:(lra) ltac:(lra)) as (cr & Hcr & Hshort).
  assert (Hbg : relative_luminance (background_of dark_theme) = Some lb)
    by exact Hlb.
  destruct (build_accents_spec dark_theme lb dark_theme_well_formed Hbg)
    as (i & a & pal & Ei & Eb & I1 & _ & _ & _ & _ & _ & _ & _ & Hdark).
  destruct (resolve_inputs_Some dark_theme i Ei) as (_ & Ebg & _ & Er & _).
  change (background_of dark_theme) with "#1d2021" in Ebg.
  change (or_else _ "#cc241d") with "#cc241d" in Er.
  destruct Hdark as (Hr & _).
  { unfold DARK_BACKGROUND_LUMINANCE_THRESHOLD. lra. }
  rewrite Ebg, Er, (corrected_fallback_red lb Hlb) in Hr.
  exists pal, lb, l, cr.
  split; [exact Eb |]. split; [exact Hlb |]. split; [lra |]. split; [lra |].
  split; [congruence |]. split; [exact Hl |]. split; [lra |].
  split; [exact Hcr | exact Hshort].
Qed.

(** * Further properties of the colour functions *)

(** ** The codec, in the other direction *)

Lemma all_bytes_digits_ok :
  forallb byte_digits_ok (map Z.of_nat (seq 0 256)) = true.
Proof. vm_compute. reflexivity. Qed.

Lemma format_02x_digits (n : Z) :
  byte n ->
  format_02x n =
  String (lower_hex_char (n / 16)) (String (lower_hex_char (n mod 16)) "").
Proof.
  intros Hn. pose proof all_bytes_digits_ok as Hall.
  rewrite forallb_forall in Hall.
  apply String.eqb_eq, Hall, in_map_iff.
  exists (Z.to_nat n). unfold byte in Hn. split; [lia |].
  apply in_seq. lia.
Qed.

Lemma is_lower_hex_char (c : ascii) :
  is_lower_hex c = true ->
  exists d, hex_digit c = Some d /\ (0 <= d <= 15)%Z /\ lower_hex_char d = c.
Proof.
  destruct c as [[] [] [] [] [] [] [] []]; intros H; vm_compute in H;
    try discriminate H;
    (eexists; split; [vm_compute; reflexivity | split; [lia | reflexivity]]).
Qed.

Lemma format_02x_of_digits (c1 c2 : ascii) (d1 d2 : Z) :
  (0 <= d1 <= 15)%Z -> (0 <= d2 <= 15)%Z ->
  lower_hex_char d1 = c1 -> lower_hex_char d2 = c2 ->
  format_02x (16 * (16 * 0 + d1) + d2) = String c1 (String c2 "").
Proof.
  intros H1 H2 <- <-.
  rewrite format_02x_digits by (unfold byte; lia).
  replace ((16 * (16 * 0 + d1) + d2) / 16)%Z with d1
    by (apply Z.div_unique with d2; lia).
  replace ((16 * (16 * 0 + d1) + d2) mod 16)%Z with d2
    by (apply Z.mod_unique with d1; lia).
  reflexivity.
Qed.

(** X1.  Formatting three bytes gives a canonical colour string, and
    parsing it gives the three bytes back. *)
Theorem rgb_to_hex_round_trip (t : Z * Z * Z) :
  byte_triple t ->
  canonical (rgb_to_hex t) = true /\ hex_to_rgb (rgb_to_hex t) = Some t.
Proof.
  intros Ht. split; [apply rgb_to_hex_canonical | apply hex_to_rgb_to_hex];
    exact Ht.
Qed.

Lemma rgb_to_hex_round_trip_witness :
  byte_triple (204, 36, 29)%Z
  /\ canonical (rgb_to_hex (204, 36, 29)%Z) = true
  /\ hex_to_rgb (rgb_to_hex (204, 36, 29)%Z) = Some (204, 36, 29)%Z.
Proof.
  assert (H : byte_triple (204, 36, 29)%Z) by (unfold byte_triple, byte; lia).
  split; [exact H |]. exact (rgb_to_hex_round_trip (204, 36, 29)%Z H).
Defined.

(** A canonical colour string is the format of its three channels. *)
Lemma canonical_decode_encode (s : string) :
  canonical s = true ->
  exists t, hex_to_rgb s = Some t /\ rgb_to_hex t = s.
Proof.
  destruct s as [| h s]; [discriminate |].
  destruct (Ascii.eqb_spec h "#") as [-> | Hne].
  2:{ intros H; exfalso; revert H; cbn.
      destruct h as [[] [] [] [] [] [] [] []]; try discriminate; congruence. }
  destruct s as [| c1 [| c2 [| c3 [| c4 [| c5 [| c6 [| ? ?]]]]]]];
    try discriminate.
  intros Hc. assert (Hc' := Hc). revert Hc'.
  cbn [canonical]. rewrite !andb_true_iff.
  intros [[[[[H1 H2] H3] H4] H5] H6].
  pose proof (is_lower_hex_digit _ H1) as [E1 _].
  apply is_lower_hex_char in H1 as (d1 & D1 & B1 & L1).
  apply is_lower_hex_char in H2 as (d2 & D2 & B2 & L2).
  apply is_lower_hex_char in H3 as (d3 & D3 & B3 & L3).
  apply is_lower_hex_char in H4 as (d4 & D4 & B4 & L4).
  apply is_lower_hex_char in H5 as (d5 & D5 & B5 & L5).
  apply is_lower_hex_char in H6 as (d6 & D6 & B6 & L6).
  unfold hex_to_rgb. cbn [lstrip]. rewrite Ascii.eqb_refl. cbn [lstrip].
  rewrite E1. cbn [substring int16 int16_from].
  rewrite D1, D2, D3, D4, D5, D6. cbn [mbind option_bind].
  eexists; split; [reflexivity |].
  unfold rgb_to_hex.
  rewrite (format_02x_of_digits c1 c2 d1 d2),
          (format_02x_of_digits c3 c4 d3 d4),
          (format_02x_of_digits c5 c6 d5 d6) by assumption.
  reflexivity.
Qed.

(** X2.  Parsing a canonical colour string gives three bytes, and
    formatting them gives the string back. *)
Theorem hex_to_rgb_round_trip (s : string) :
  canonical s = true ->
  exists t, hex_to_rgb s = Some t /\ byte_triple t /\ rgb_to_hex t = s.
Proof.
  intros Hc. destruct (canonical_decode_encode s Hc) as (t & Hdec & Henc).
  exists t. split; [exact Hdec |].
  split; [exact (hex_to_rgb_bytes s t Hdec) | exact Henc].
Qed.

Lemma hex_to_rgb_round_trip_witness :
  canonical "#cc241d" = true
  /\ exists t, hex_to_rgb "#cc241d" = Some t /\ byte_triple t
               /\ rgb_to_hex t = "#cc241d".
Proof.
  split; [reflexivity |]. exact (hex_to_rgb_round_trip "#cc241d" eq_refl).
Defined.

(** ** Normalization *)

Lemma is_hex_lower_digit (c : ascii) :
  is_hex c = true ->
  hex_digit (lower_ascii c) = hex_digit c
  /\ Ascii.eqb "#" c = false /\ Ascii.eqb "#" (lower_ascii c) = false.
Proof.
  destruct c as [[] [] [] [] [] [] [] []]; intros H; vm_compute in H;
    try discriminate H; repeat split; reflexivity.
Qed.

(** X3.  Whatever [normalize_hex] accepts it returns in canonical form;
    the result is left unchanged by a second normalization and decodes to
    the same three channels as the input without its surrounding blanks:
    only the case of the digits changes. *)
Theorem normalize_hex_sound (value s : string) :
  normalize_hex value = Some s ->
  canonical s = true
  /\ normalize_hex s = Some s
  /\ hex_to_rgb s = hex_to_rgb (strip value).
Proof.
  intros H.
  pose proof (normalize_hex_canonical value s H) as Hc.
  split; [exact Hc |]. split; [apply normalize_hex_of_canonical, Hc |].
  revert H. unfold normalize_hex, HEX_RE_match.
  destruct (strip value) as [| h rest]; [discriminate |].
  destruct (Ascii.eqb_spec h "#") as [-> | Hne].
  2:{ destruct h as [[] [] [] [] [] [] [] []]; try discriminate; congruence. }
  destruct rest as [| c1 [| c2 [| c3 [| c4 [| c5 [| c6 rest]]]]]];
    try discriminate.
  cbn [substring String.length Nat.eqb all_hex andb].
  rewrite substring_0_0. cbn [String.length Nat.eqb all_hex andb].
  destruct (is_hex c1) eqn:H1; [| discriminate].
  destruct (is_hex c2) eqn:H2; [| discriminate].
  destruct (is_hex c3) eqn:H3; [| discriminate].
  destruct (is_hex c4) eqn:H4; [| discriminate].
  destruct (is_hex c5) eqn:H5; [| discriminate].
  destruct (is_hex c6) eqn:H6; [| discriminate].
  cbn [andb].
  match goal with |- context [if ?c then _ else _] => destruct c end;
    [| discriminate].
  intros [= <-].
  apply is_hex_lower_digit in H1 as (D1 & E1 & L1).
  apply is_hex_lower_digit in H2 as (D2 & _ & _).
  apply is_hex_lower_digit in H3 as (D3 & _ & _).
  apply is_hex_lower_digit in H4 as (D4 & _ & _).
  apply is_hex_lower_digit in H5 as (D5 & _ & _).
  apply is_hex_lower_digit in H6 as (D6 & _ & _).
  unfold hex_to_rgb. cbv [String.append lower].
  cbn [lstrip]. rewrite Ascii.eqb_refl. cbn [lstrip]. rewrite E1, L1.
  cbn [substring]. rewrite !substring_0_0.
  cbn [int16 int16_from]. rewrite D1, D2, D3, D4, D5, D6. reflexivity.
Qed.

Lemma normalize_hex_sound_witness :
  normalize_hex "  #CC241d " = Some "#cc241d"
  /\ canonical "#cc241d" = true
  /\ normalize_hex "#cc241d" = Some "#cc241d"
  /\ hex_to_rgb "#cc241d" = hex_to_rgb (strip "  #CC241d ").
Proof.
  split; [reflexivity |].
  exact (normalize_hex_sound "  #CC241d " "#cc241d" eq_refl).
Defined.

(** ** Blending *)

(** X4.  Blending with the amount 0 returns the first colour and with the
    amount 1 the second, for canonical colours. *)
Theorem blend_endpoints (a b : string) :
  canonical a = true -> canonical b = true ->
  blend a b 0 = Some a /\ blend a b 1 = Some b.
Proof.
  intros Ha Hb.
  destruct (canonical_decode_encode a Ha) as ([[ar ag] ab] & Da & Ra).
  destruct (canonical_decode_encode b Hb) as ([[br bg] bb] & Db & Rb).
  unfold blend. rewrite Da, Db. cbn [mbind option_bind]. split.
  - replace (IZR ar + IZR (br - ar) * 0) with (IZR ar) by lra.
    replace (IZR ag + IZR (bg - ag) * 0) with (IZR ag) by lra.
    replace (IZR ab + IZR (bb - ab) * 0) with (IZR ab) by lra.
    rewrite !py_round_IZR, Ra. reflexivity.
  - replace (IZR ar + IZR (br - ar) * 1) with (IZR br)
      by (rewrite minus_IZR; lra).
    replace (IZR ag + IZR (bg - ag) * 1) with (IZR bg)
      by (rewrite minus_IZR; lra).
    replace (IZR ab + IZR (bb - ab) * 1) with (IZR bb)
      by (rewrite minus_IZR; lra).
    rewrite !py_round_IZR, Rb. reflexivity.
Qed.

Lemma blend_endpoints_witness :
  canonical "#cc241d" = true /\ canonical "#d79921" = true
  /\ blend "#cc241d" "#d79921" 0 = Some "#cc241d"
  /\ blend "#cc241d" "#d79921" 1 = Some "#d79921".
Proof.
  split; [reflexivity |]. split; [reflexivity |].
  exact (blend_endpoints "#cc241d" "#d79921" eq_refl eq_refl).
Defined.

Lemma py_round_between (x : R) (a b : Z) :
  IZR (Z.min a b) <= x <= IZR (Z.max a b) ->
  (Z.min a b <= py_round x <= Z.max a b)%Z.
Proof. apply py_round_bounds. Qed.

Lemma lerp_between (a b : Z) (amount : R) :
  0 <= amount <= 1 ->
  IZR (Z.min a b) <= IZR a + IZR (b - a) * amount <= IZR (Z.max a b).
Proof.
  intros Hamt. rewrite minus_IZR.
  destruct (Z.le_ge_cases a b) as [H | H].
  - rewrite Z.min_l, Z.max_r by lia. apply IZR_le in H. nra.
  - rewrite Z.min_r, Z.max_l by lia. apply IZR_le in H. nra.
Qed.

(** X5.  For an amount between 0 and 1 every channel of the blend lies
    between the corresponding channels of the two colours, and the result
    parses back to exactly those channels. *)
Theorem blend_between (a b : string) (amount : R) (ar ag ab br bg bb : Z) :
  hex_to_rgb a = Some (ar, ag, ab) -> hex_to_rgb b = Some (br, bg, bb) ->
  0 <= amount <= 1 ->
  exists s r g b_out,
    blend a b amount = Some s
    /\ hex_to_rgb s = Some (r, g, b_out)
    /\ (Z.min ar br <= r <= Z.max ar br)%Z
    /\ (Z.min ag bg <= g <= Z.max ag bg)%Z
    /\ (Z.min ab bb <= b_out <= Z.max ab bb)%Z.
Proof.
  intros Da Db Hamt.
  destruct (hex_to_rgb_bytes _ _ Da) as (A1 & A2 & A3).
  destruct (hex_to_rgb_bytes _ _ Db) as (B1 & B2 & B3).
  unfold blend. rewrite Da, Db. cbn [mbind option_bind].
  pose proof (py_round_between _ ar br (lerp_between ar br amount Hamt)) as Hr.
  pose proof (py_round_between _ ag bg (lerp_between ag bg amount Hamt)) as Hg.
  pose proof (py_round_between _ ab bb (lerp_between ab bb amount Hamt)) as Hb.
  eexists; do 3 eexists. split; [reflexivity |].
  split; [| split; [exact Hr | split; [exact Hg | exact Hb]]].
  apply hex_to_rgb_to_hex. unfold byte_triple, byte in *. lia.
Qed.

Lemma blend_between_witness :
  hex_to_rgb "#cc241d" = Some (204, 36, 29)%Z
  /\ hex_to_rgb "#d79921" = Some (215, 153, 33)%Z
  /\ 0 <= 0.5 <= 1
  /\ exists s r g b_out,
    blend "#cc241d" "#d79921" 0.5 = Some s
    /\ hex_to_rgb s = Some (r, g, b_out)
    /\ (Z.min 204 215 <= r <= Z.max 204 215)%Z
    /\ (Z.min 36 153 <= g <= Z.max 36 153)%Z
    /\ (Z.min 29 33 <= b_out <= Z.max 29 33)%Z.
Proof.
  assert (H1 : hex_to_rgb "#cc241d" = Some (204, 36, 29)%Z) by reflexivity.
  assert (H2 : hex_to_rgb "#d79921" = Some (215, 153, 33)%Z) by reflexivity.
  assert (H3 : 0 <= 0.5 <= 1) by lra.
  split; [exact H1 |]. split; [exact H2 |]. split; [exact H3 |].
  exact (blend_between "#cc241d" "#d79921" 0.5 204 36 29 215 153 33 H1 H2 H3).
Defined.

(** ** Luminance and contrast *)

Lemma relative_luminance_range (c : string) (l : R) :
  relative_luminance c = Some l -> 0 <= l <= 1.
Proof.
  unfold relative_luminance.
  destruct (hex_to_rgb c) as [[[r g] b] |] eqn:Hdec; [| discriminate].
  cbn [mbind option_bind]. intros [= <-].
  destruct (hex_to_rgb_bytes _ _ Hdec) as (B1 & B2 & B3).
  apply luminance_of_range; apply channel_to_linear_range; assumption.
Qed.

(** X6.  The contrast ratio does not depend on the order of its two
    arguments, whatever the strings are. *)
Theorem contrast_ratio_symmetric (a b : string) :
  contrast_ratio a b = contrast_ratio b a.
Proof.
  unfold contrast_ratio.
  destruct (relative_luminance a) as [la |], (relative_luminance b) as [lb |];
    cbn [mbind option_bind]; try reflexivity.
  rewrite (Rmax_comm la lb), (Rmin_comm la lb). reflexivity.
Qed.

(** X7.  A contrast ratio, when it is defined, lies between 1 and 21, and
    the contrast of either colour with itself is exactly 1. *)
Theorem contrast_ratio_range (a b : string) (cr : R) :
  contrast_ratio a b = Some cr ->
  1 <= cr <= 21
  /\ contrast_ratio a a = Some 1 /\ contrast_ratio b b = Some 1.
Proof.
  unfold contrast_ratio.
  destruct (relative_luminance a) as [la |] eqn:Ea; [| discriminate].
  destruct (relative_luminance b) as [lb |] eqn:Eb; [| discriminate].
  cbn [mbind option_bind]. intros [= <-].
  pose proof (relative_luminance_range a la Ea) as Ra.
  pose proof (relative_luminance_range b lb Eb) as Rb.
  assert (Hself : forall l, 0 <= l ->
            (Rmax l l + 0.05) / (Rmin l l + 0.05) = 1).
  { intros l Hl. rewrite Rmax_left, Rmin_left by lra. field. lra. }
  rewrite !Hself by lra. split; [| split; reflexivity].
  assert (Hd : 0 < Rmin la lb + 0.05).
  { unfold Rmin. destruct (Rle_dec la lb); lra. }
  assert (Hmax : Rmin la lb <= Rmax la lb <= 1).
  { split; [apply Rle_trans with la; [apply Rmin_l | apply Rmax_l] |].
    apply Rmax_lub; lra. }
  assert (Hmin : 0 <= Rmin la lb) by (apply Rmin_glb; lra).
  split.
  - apply Rmult_le_reg_r with (Rmin la lb + 0.05); [exact Hd |].
    unfold Rdiv. rewrite Rmult_assoc, Rinv_l, Rmult_1_r by lra. lra.
  - apply Rmult_le_reg_r with (Rmin la lb + 0.05); [exact Hd |].
    unfold Rdiv. rewrite Rmult_assoc, Rinv_l, Rmult_1_r by lra. lra.
Qed.

Lemma contrast_ratio_range_witness :
  contrast_ratio "#000000" "#ffffff" = Some 21
  /\ 1 <= 21 <= 21
  /\ contrast_ratio "#000000" "#000000" = Some 1
  /\ contrast_ratio "#ffffff" "#ffffff" = Some 1.
Proof.
  split; [exact contrast_black_white |].
  exact (contrast_ratio_range "#000000" "#ffffff" 21 contrast_black_white).
Defined.

(** The decoding of a channel is strictly increasing. *)
Lemma channel_to_linear_increasing (n m : Z) :
  (n < m)%Z -> channel_to_linear n < channel_to_linear m.
Proof.
  intros Hnm. assert (Hr := IZR_lt _ _ Hnm).
  destruct (Rle_lt_dec (IZR n / 255) 0.04045) as [Hn | Hn];
    destruct (Rle_lt_dec (IZR m / 255) 0.04045) as [Hm | Hm].
  - rewrite !channel_to_linear_low by assumption. lra.
  - rewrite (channel_to_linear_low n) by assumption.
    pose proof (channel_to_linear_above m Hm) as Ha.
    assert (H10 : IZR n <= 10).
    { apply IZR_le, Z.lt_succ_r, lt_IZR. change (Z.succ 10) with 11%Z. lra. }
    lra.
  - lra.
  - rewrite !channel_to_linear_high by assumption.
    unfold py_pow. apply Rlt_Rpower_l; lra.
Qed.

Lemma channel_to_linear_monotone (n m : Z) :
  (n <= m)%Z -> channel_to_linear n <= channel_to_linear m.
Proof.
  intros H. destruct (Z.eq_dec n m) as [-> | Hne]; [lra |].
  left. apply channel_to_linear_increasing. lia.
Qed.

(** X8.  A colour none of whose channels is smaller than those of another
    has a relative luminance at least as large; both lie between 0 and 1,
    and a strictly larger channel makes the luminance strictly larger. *)
Theorem relative_luminance_monotone
    (a b : string) (r1 g1 b1 r2 g2 b2 : Z) :
  hex_to_rgb a = Some (r1, g1, b1) -> hex_to_rgb b = Some (r2, g2, b2) ->
  (r1 <= r2)%Z -> (g1 <= g2)%Z -> (b1 <= b2)%Z ->
  exists la lb,
    relative_luminance a = Some la /\ relative_luminance b = Some lb
    /\ 0 <= la /\ la <= lb /\ lb <= 1
    /\ ((r1 < r2)%Z \/ (g1 < g2)%Z \/ (b1 < b2)%Z -> la < lb).
Proof.
  intros Da Db Hr Hg Hb.
  unfold relative_luminance. rewrite Da, Db. cbn [mbind option_bind].
  do 2 eexists. split; [reflexivity |]. split; [reflexivity |].
  destruct (hex_to_rgb_bytes _ _ Da) as (A1 & A2 & A3).
  destruct (hex_to_rgb_bytes _ _ Db) as (B1 & B2 & B3).
  pose proof (channel_to_linear_range _ A1).
  pose proof (channel_to_linear_range _ A2).
  pose proof (channel_to_linear_range _ A3).
  pose proof (channel_to_linear_range _ B1).
  pose proof (channel_to_linear_range _ B2).
  pose proof (channel_to_linear_range _ B3).
  pose proof (channel_to_linear_monotone _ _ Hr).
  pose proof (channel_to_linear_monotone _ _ Hg).
  pose proof (channel_to_linear_monotone _ _ Hb).
  unfold luminance_of. repeat split; try lra.
  intros [H' | [H' | H']]; apply channel_to_linear_increasing in H'; lra.
Qed.

Lemma relative_luminance_monotone_witness :
  hex_to_rgb "#1d2021" = Some (29, 32, 33)%Z
  /\ hex_to_rgb "#cc241d" = Some (204, 36, 29)%Z
  /\ hex_to_rgb "#fbf1c7" = Some (251, 241, 199)%Z
  /\ exists la lb,
    relative_luminance "#cc241d" = Some la
    /\ relative_luminance "#fbf1c7" = Some lb
    /\ 0 <= la /\ la <= lb /\ lb <= 1
    /\ ((204 < 251)%Z \/ (36 < 241)%Z \/ (29 < 199)%Z -> la < lb).
Proof.
  split; [exact hex_1d2021 |]. split; [exact hex_cc241d |].
  split; [exact hex_fbf1c7 |].
  apply (relative_luminance_monotone "#cc241d" "#fbf1c7" 204 36 29 251 241 199
           hex_cc241d hex_fbf1c7); lia.
Defined.

(** ** The encoder *)

Lemma py_round_monotone (x y : R) : x <= y -> (py_round x <= py_round y)%Z.
Proof.
  intros Hxy.
  pose proof (Zfloor_le x y Hxy) as Hf.
  pose proof (Zfloor_bound x) as [Hx1 Hx2].
  pose proof (Zfloor_bound y) as [Hy1 Hy2].
  assert (Hrx : (Zfloor x <= py_round x <= Zfloor x + 1)%Z).
  { unfold py_round.
    destruct (Rlt_dec _ _); [lia |]. destruct (Rlt_dec _ _); [lia |].
    destruct (Z.even _); lia. }
  assert (Hry : (Zfloor y <= py_round y <= Zfloor y + 1)%Z).
  { unfold py_round.
    destruct (Rlt_dec _ _); [lia |]. destruct (Rlt_dec _ _); [lia |].
    destruct (Z.even _); lia. }
  destruct (Z.eq_dec (Zfloor x) (Zfloor y)) as [E | Hne]; [| lia].
  clear Hrx Hry Hf. unfold py_round. rewrite E in *.
  set (f := Zfloor y) in *.
  destruct (Rlt_dec (x - IZR f) (1 / 2)) as [X1 | X1];
    destruct (Rlt_dec (y - IZR f) (1 / 2)) as [Y1 | Y1];
    destruct (Rlt_dec (1 / 2) (x - IZR f)) as [X2 | X2];
    destruct (Rlt_dec (1 / 2) (y - IZR f)) as [Y2 | Y2];
    try (exfalso; lra); destruct (Z.even f); lia.
Qed.

Lemma linear_to_channel_clamped (v : R) :
  linear_to_channel v = linear_to_channel (Rmax 0 (Rmin 1 v)).
Proof.
  unfold linear_to_channel.
  pose proof (clamp_unit_range v) as Hw.
  set (w := Rmax 0 (Rmin 1 v)) in *.
  rewrite (Rmin_right 1 w), (Rmax_right 0 w) by lra. reflexivity.
Qed.

Lemma linear_to_channel_monotone_unit (v w : R) :
  0 <= v -> v <= w -> w <= 1 ->
  (linear_to_channel v <= linear_to_channel w)%Z.
Proof.
  intros Hv Hvw Hw.
  destruct (Rle_lt_dec v 0.0031308) as [Lv | Lv];
    destruct (Rle_lt_dec w 0.0031308) as [Lw | Lw].
  - rewrite !linear_to_channel_low by lra. apply py_round_monotone. lra.
  - rewrite linear_to_channel_low, linear_to_channel_high by lra.
    apply Z.le_trans with 10%Z.
    + rewrite <- (py_round_near 10.4 10) by lra. apply py_round_monotone. lra.
    + rewrite <- (py_round_near 9.6 10) by lra. apply py_round_monotone.
      assert (0.0904 < py_pow w (1 / 2.4)).
      { apply py_pow_encode_gt; [lra |].
        apply Rlt_le_trans with (0.0031308 ^ 5); [lra |].
        apply pow_incr. lra. }
      lra.
  - lra.
  - rewrite !linear_to_channel_high by lra. apply py_round_monotone.
    assert (py_pow v (1 / 2.4) <= py_pow w (1 / 2.4)).
    { unfold py_pow. apply Rle_Rpower_l; lra. }
    lra.
Qed.

(** X9.  The encoder never decreases when its argument grows, returns 0
    for every argument up to 0 and 255 for every argument from 1 on. *)
Theorem linear_to_channel_monotone (v w : R) :
  v <= w ->
  (linear_to_channel v <= linear_to_channel w)%Z
  /\ (v <= 0 -> linear_to_channel v = 0%Z)
  /\ (1 <= w -> linear_to_channel w = 255%Z).
Proof.
  intros Hvw. split; [| split].
  - rewrite (linear_to_channel_clamped v), (linear_to_channel_clamped w).
    pose proof (clamp_unit_range v). pose proof (clamp_unit_range w).
    apply linear_to_channel_monotone_unit; try lra.
    apply Rmax_lub; [apply Rmax_l |].
    apply Rle_trans with (Rmin 1 w); [| apply Rmax_r].
    apply Rmin_glb; [apply Rmin_l |].
    apply Rle_trans with v; [apply Rmin_r | exact Hvw].
  - intros H0. rewrite linear_to_channel_clamped.
    rewrite (Rmin_right 1 v), (Rmax_left 0 v) by lra.
    rewrite linear_to_channel_low by lra.
    apply py_round_near. lra.
  - intros H1. rewrite linear_to_channel_clamped.
    rewrite (Rmin_left 1 w), (Rmax_right 0 1) by lra.
    rewrite <- channel_to_linear_255. apply encode_decode. split; lia.
Qed.

Lemma linear_to_channel_monotone_witness :
  -1 <= 2
  /\ (linear_to_channel (-1) <= linear_to_channel 2)%Z
  /\ (-1 <= 0 -> linear_to_channel (-1) = 0%Z)
  /\ (1 <= 2 -> linear_to_channel 2 = 255%Z).
Proof.
  assert (H : -1 <= 2) by lra.
  split; [exact H |]. exact (linear_to_channel_monotone (-1) 2 H).
Defined.

(** ** Fixed points of the saturation boost *)

Lemma channel_zero_or_full (r g b : Z) :
  byte_triple (r, g, b) ->
  Z.min r (Z.min g b) = 0%Z \/ Z.max r (Z.max g b) = 255%Z ->
  (r = 0 \/ g = 0 \/ b = 0)%Z \/ (r = 255 \/ g = 255 \/ b = 255)%Z.
Proof. unfold byte_triple, byte. lia. Qed.

(** X10.  A canonical colour that is a grey, or has a channel equal to 0
    or to 255, is returned unchanged by the saturation boost for every
    factor up to 4096: no scale above 1 keeps such a colour in gamut, or
    every scale leaves it where it is.  In exact arithmetic the factor
    plays no part; the bound is there for the source, whose rounding of a
    grey grows with the factor. *)
Theorem boost_fixed_points (c : string) (factor : R) (r g b : Z) :
  canonical c = true -> hex_to_rgb c = Some (r, g, b) ->
  (r = g /\ g = b) \/ Z.min r (Z.min g b) = 0%Z
  \/ Z.max r (Z.max g b) = 255%Z ->
  factor <= 4096 ->
  boost_saturation_preserve_luminance c factor = Some c.
Proof.
  intros Hc Hdec Hshape _.
  destruct (Rle_lt_dec factor 1) as [Hf | Hf]; [apply boost_noop, Hf |].
  destruct (canonical_decode_encode c Hc) as (t & Ht & Hback).
  assert (t = (r, g, b)) by congruence. subst t.
  pose proof (hex_to_rgb_bytes _ _ Hdec) as Hbytes.
  assert (Hbytes' := Hbytes). destruct Hbytes' as (B1 & B2 & B3).
  rewrite (boost_unfold c factor r g b Hf Hdec). cbn zeta.
  pose proof (channel_to_linear_range r B1) as Hr.
  pose proof (channel_to_linear_range g B2) as Hg.
  pose proof (channel_to_linear_range b B3) as Hb.
  destruct (search_low_spec
              (luminance_of (channel_to_linear r) (channel_to_linear g)
                 (channel_to_linear b)) _ _ _ Hr Hg Hb factor ltac:(lra))
    as (Hk & HG & _).
  apply in_gamut_true in HG. destruct HG as (G1 & G2 & G3).
  set (rl := channel_to_linear r) in *.
  set (gl := channel_to_linear g) in *.
  set (bl := channel_to_linear b) in *.
  assert (Hy : luminance_of rl gl bl = 0.2126 * rl + 0.7152 * gl + 0.0722 * bl)
    by reflexivity.
  set (y := luminance_of rl gl bl) in *.
  set (k := search_low y rl gl bl factor) in *.
  assert (Hcases : k = 1 \/ (rl = y /\ gl = y /\ bl = y)).
  { destruct Hshape as [[-> ->] | Hedge].
    - right. subst rl gl bl. lra.
    - destruct (channel_zero_or_full r g b Hbytes Hedge) as [Hz | Hfull].
      + assert (Hzero : rl = 0 \/ gl = 0 \/ bl = 0).
        { destruct Hz as [-> | [-> | ->]]; subst rl gl bl;
            rewrite channel_to_linear_0; auto. }
        assert (Hprod : y * (k - 1) <= 0).
        { destruct Hzero as [E | [E | E]]; rewrite E in *; lra. }
        destruct (Req_dec k 1) as [E | Hne]; [left; exact E | right].
        assert (y = 0) by nra. lra.
      + assert (Hone : rl = 1 \/ gl = 1 \/ bl = 1).
        { destruct Hfull as [-> | [-> | ->]]; subst rl gl bl;
            rewrite channel_to_linear_255; auto. }
        assert (Hprod : (1 - y) * (k - 1) <= 0).
        { destruct Hone as [E | [E | E]]; rewrite E in *; lra. }
        destruct (Req_dec k 1) as [E | Hne]; [left; exact E | right].
        assert (y = 1) by nra. lra. }
  assert (Hsame : y + (rl - y) * k = rl /\ y + (gl - y) * k = gl
                  /\ y + (bl - y) * k = bl).
  { destruct Hcases as [E | (E1 & E2 & E3)];
      [rewrite E | rewrite E1, E2, E3]; lra. }
  destruct Hsame as (-> & -> & ->).
  subst rl gl bl. rewrite !encode_decode by assumption.
  rewrite Hback. reflexivity.
Qed.

Lemma boost_fixed_points_witness :
  canonical "#ff0000" = true
  /\ hex_to_rgb "#ff0000" = Some (255, 0, 0)%Z
  /\ 1.35 <= 4096
  /\ boost_saturation_preserve_luminance "#ff0000" 1.35 = Some "#ff0000".
Proof.
  split; [reflexivity |]. split; [exact hex_red |].
  assert (H : 1.35 <= 4096) by lra.
  split; [exact H |].
  apply (boost_fixed_points "#ff0000" 1.35 255 0 0 eq_refl hex_red);
    [right; left; reflexivity | exact H].
Defined.

(** ** The rescaled triple *)




(** X12.  Scaling a canonical colour to its own luminance returns the
    colour: the factor is 1, no channel overflows, and each channel is
    encoded back to the byte it was decoded from. *)
Theorem scale_luminance_fixed_point (color : string) (l : R) :
  canonical color = true -> relative_luminance color = Some l ->
  scale_luminance color l = Some color.
Proof.
  intros Hc Hl.
  destruct (Rlt_dec l 0.001) as [Hlt | Hge].
  - exact (scale_luminance_near_black color l l Hl Hlt).
  - destruct (canonical_decode_encode color Hc) as ([[r g] b] & Hdec & Henc).
    pose proof (hex_to_rgb_bytes color _ Hdec) as (Hr & Hg & Hb).
    unfold relative_luminance in Hl. rewrite Hdec in Hl.
    cbn [mbind option_bind] in Hl. injection Hl as Hl.
    rewrite (scale_luminance_unfold color l l r g b Hdec Hl) by lra.
    pose proof (channel_to_linear_range r Hr) as Rr.
    pose proof (channel_to_linear_range g Hg) as Rg.
    pose proof (channel_to_linear_range b Hb) as Rb.
    unfold scaled_linear. rewrite Hl.
    assert (Hf : l / l = 1) by (field; lra).
    rewrite Hf, !Rmult_1_r.
    destruct (Rlt_dec 1 _) as [Hgt | _].
    + exfalso. revert Hgt. unfold Rmax.
      repeat destruct (Rle_dec _ _); lra.
    + rewrite !encode_decode by assumption. rewrite Henc. reflexivity.
Qed.

Lemma scale_luminance_fixed_point_witness :
  canonical "#ffffff" = true /\ relative_luminance "#ffffff" = Some 1
  /\ scale_luminance "#ffffff" 1 = Some "#ffffff".
Proof.
  split; [reflexivity |]. split; [exact luminance_white |].
  exact (scale_luminance_fixed_point "#ffffff" 1 eq_refl luminance_white).
Defined.

(** ** Readability of the chosen text colour *)

Lemma In_first_occurrences (x : string) (l : list string) :
  In x (first_occurrences l) <-> In x l.
Proof.
  induction l as [| y l IH]; [reflexivity |].
  cbn [first_occurrences In]. rewrite filter_In, IH.
  destruct (String.eqb_spec y x) as [-> | Hne]; cbn [negb]; [tauto |].
  intuition congruence.
Qed.

Lemma In_normalized_candidates (n : string) (candidates : list string) :
  In n (normalized_candidates candidates) <->
  exists c, In c candidates /\ normalize_hex c = Some n.
Proof.
  induction candidates as [| c cs IH]; cbn [normalized_candidates In].
  - split; [intros [] | intros (c & [] & _)].
  - destruct (normalize_hex c) as [m |] eqn:E; cbn [In]; rewrite ?IH.
    + split.
      * intros [<- | (c' & Hin & Hn)]; [exists c; auto | exists c'; auto].
      * intros (c' & [<- | Hin] & Hn); [left; congruence | right; eauto].
    + split.
      * intros (c' & Hin & Hn). exists c'; auto.
      * intros (c' & [<- | Hin] & Hn); [congruence | eauto].
Qed.

Lemma In_unique_candidates (n : string) (candidates : list string) :
  In n (unique_candidates_of candidates) <->
  exists c, In c candidates /\ normalize_hex c = Some n.
Proof.
  rewrite unique_candidates_spec, In_first_occurrences.
  apply In_normalized_candidates.
Qed.

(** The result of [best_contrast_text] on a non-empty candidate list. *)
Lemma best_contrast_text_max (background : string) (candidates : list string) :
  canonical background = true ->
  unique_candidates_of candidates <> [] ->
  exists r kr,
    best_contrast_text background candidates = Some r
    /\ In r (unique_candidates_of candidates)
    /\ contrast_ratio background r = Some kr
    /\ (forall x, In x (unique_candidates_of candidates) ->
          exists k, contrast_ratio background x = Some k /\ k <= kr).
Proof.
  intros Hb Hne. unfold best_contrast_text.
  pose proof (unique_candidates_canonical candidates) as Hall.
  destruct (unique_candidates_of candidates) as [| first others];
    [contradiction |].
  set (kf := fun c => match contrast_ratio background c with
                      | Some k => k | None => 0 end).
  assert (Hkey : forall x, In x (first :: others) ->
                           contrast_ratio background x = Some (kf x)).
  { intros x Hx. rewrite Forall_forall in Hall.
    apply list_elem_of_In in Hx.
    destruct (contrast_ratio_total background x Hb (Hall x Hx)) as (k & E & _).
    unfold kf. rewrite E. reflexivity. }
  rewrite (Hkey first) by (cbn; auto). cbn [mbind option_bind].
  destruct (max_by_key_first_max (contrast_ratio background) kf others [] [] first)
    as (pre & r & post & E & Hr & Hpre & Hpost);
    [exact Hkey | intros ? [] | intros ? [] |].
  cbn [app] in E. rewrite E in *.
  exists r, (kf r). split; [exact Hr |].
  split; [apply in_or_app; cbn; auto |].
  split; [apply Hkey, in_or_app; cbn; auto |].
  intros x Hx. exists (kf x). split; [apply Hkey, Hx |].
  apply in_app_or in Hx as [Hx | [<- | Hx]].
  - left. apply Hpre, Hx.
  - lra.
  - apply Hpost, Hx.
Qed.

Lemma contrast_with_white (c : string) (l : R) :
  relative_luminance c = Some l ->
  contrast_ratio c "#ffffff" = Some (1.05 / (l + 0.05)).
Proof.
  intros Hl. pose proof (relative_luminance_range c l Hl).
  unfold contrast_ratio. rewrite Hl, luminance_white.
  cbn [mbind option_bind]. rewrite Rmax_right, Rmin_left by lra.
  do 2 f_equal. lra.
Qed.

Lemma contrast_with_black (c : string) (l : R) :
  relative_luminance c = Some l ->
  contrast_ratio c "#000000" = Some ((l + 0.05) / 0.05).
Proof.
  intros Hl. pose proof (relative_luminance_range c l Hl).
  unfold contrast_ratio. rewrite Hl, luminance_black.
  cbn [mbind option_bind]. rewrite Rmax_left, Rmin_right by lra.
  do 2 f_equal. lra.
Qed.

(** Black and white never both fail: one of them has a contrast of at
    least the square root of 21 with any colour. *)
Lemma black_or_white_contrast (l k : R) :
  0 <= l <= 1 -> 1.05 / (l + 0.05) <= k -> (l + 0.05) / 0.05 <= k ->
  21 <= k * k /\ 4.5 <= k.
Proof.
  intros Hl Hw Hb.
  assert (Hpos : 0 < l + 0.05) by lra.
  assert (Hw' : 1.05 <= k * (l + 0.05)).
  { apply Rmult_le_reg_r with (/ (l + 0.05));
      [apply Rinv_0_lt_compat; exact Hpos |].
    rewrite Rmult_assoc, Rinv_r, Rmult_1_r by lra. exact Hw. }
  assert (Hb' : l + 0.05 <= 0.05 * k) by lra.
  assert (Hk : 1 <= k) by nra.
  assert (H21 : 21 <= k * k) by nra.
  split; [exact H21 | nra].
Qed.

(** With white and black among the candidates, the chosen text colour is
    one of the normalized candidates and its contrast with the surface is at
    least the square root of 21. *)
Lemma best_contrast_text_choice (surface : string) (candidates : list string) :
  canonical surface = true ->
  In "#ffffff" candidates -> In "#000000" candidates ->
  exists t k,
    best_contrast_text surface candidates = Some t
    /\ In t (unique_candidates_of candidates)
    /\ contrast_ratio surface t = Some k
    /\ 21 <= k * k /\ 4.5 <= k.
Proof.
  intros Hs Hw Hb.
  assert (Hinw : In "#ffffff" (unique_candidates_of candidates)).
  { apply In_unique_candidates. exists "#ffffff". split; [exact Hw | reflexivity]. }
  assert (Hinb : In "#000000" (unique_candidates_of candidates)).
  { apply In_unique_candidates. exists "#000000". split; [exact Hb | reflexivity]. }
  destruct (best_contrast_text_max surface candidates Hs) as (t & k & Ht & Hin & Hk & Hmax).
  { intros E. rewrite E in Hinw. destruct Hinw. }
  destruct (relative_luminance_total surface Hs) as (l & Hl & Hrange).
  destruct (Hmax _ Hinw) as (kw & Ekw & Hkw).
  destruct (Hmax _ Hinb) as (kb & Ekb & Hkb).
  rewrite (contrast_with_white surface l Hl) in Ekw.
  rewrite (contrast_with_black surface l Hl) in Ekb.
  injection Ekw as <-. injection Ekb as <-.
  exists t, k. repeat (split; [assumption |]).
  apply (black_or_white_contrast l k); assumption.
Qed.

(** X13.  When white and black are among the candidates, the text colour
    chosen for a canonical surface has a contrast of at least 4.5 with it
    (its square is at least 21), and it is the normalized form of one of the
    candidates. *)
Theorem best_contrast_text_readable
    (surface : string) (candidates : list string) :
  canonical surface = true ->
  In "#ffffff" candidates -> In "#000000" candidates ->
  exists t k c,
    best_contrast_text surface candidates = Some t
    /\ In c candidates /\ normalize_hex c = Some t
    /\ contrast_ratio surface t = Some k
    /\ 21 <= k * k /\ 4.5 <= k.
Proof.
  intros Hs Hw Hb.
  destruct (best_contrast_text_choice surface candidates Hs Hw Hb)
    as (t & k & Ht & Hin & Hk & H21 & H45).
  apply In_unique_candidates in Hin as (c & Hc & Hn).
  exists t, k, c. repeat (split; [assumption |]). assumption.
Qed.

Lemma best_contrast_text_readable_witness :
  canonical "#808080" = true
  /\ In "#ffffff" ["#fbf1c7"; "#3c3836"; "#ffffff"; "#000000"]
  /\ In "#000000" ["#fbf1c7"; "#3c3836"; "#ffffff"; "#000000"]
  /\ exists t k c,
    best_contrast_text "#808080" ["#fbf1c7"; "#3c3836"; "#ffffff"; "#000000"]
      = Some t
    /\ In c ["#fbf1c7"; "#3c3836"; "#ffffff"; "#000000"]
    /\ normalize_hex c = Some t
    /\ contrast_ratio "#808080" t = Some k
    /\ 21 <= k * k /\ 4.5 <= k.
Proof.
  assert (Hw : In "#ffffff" ["#fbf1c7"; "#3c3836"; "#ffffff"; "#000000"])
    by (cbn; auto).
  assert (Hb : In "#000000" ["#fbf1c7"; "#3c3836"; "#ffffff"; "#000000"])
    by (cbn; auto 6).
  split; [reflexivity |]. split; [exact Hw |]. split; [exact Hb |].
  exact (best_contrast_text_readable "#808080" _ eq_refl Hw Hb).
Defined.

(** The nine text items of the returned dictionary. *)
Lemma assemble_text_items (i : inputs) (a : accents) (pal : list (string * string)) :
  assemble i a = Some pal ->
  let cands := [foreground i; background i; "#ffffff"; "#000000"] in
  item "color_on_bg1" pal = best_contrast_text (background i) cands
  /\ item "color_on_bg3" pal = best_contrast_text (selection_background i) cands
  /\ item "color_on_blue" pal = best_contrast_text (blue a) cands
  /\ item "color_on_aqua" pal = best_contrast_text (aqua a) cands
  /\ item "color_on_green" pal = best_contrast_text (green a) cands
  /\ item "color_on_orange" pal = best_contrast_text (orange a) cands
  /\ item "color_on_purple" pal = best_contrast_text (purple a) cands
  /\ item "color_on_red" pal = best_contrast_text (red a) cands
  /\ item "color_on_yellow" pal = best_contrast_text (yellow a) cands.
Proof.
  intros H. unfold assemble in H.
  do 9 invert_bind H. injection H as <-. cbn zeta.
  repeat split; symmetry; assumption.
Qed.

(** X14.  In the palette built from a well-formed input, each of the nine
    text colours is the foreground, the background, white or black, and has
    a contrast of at least 4.5 with the surface it is meant for. *)
Theorem palette_text_readable (parsed : parsed_config) :
  well_formed parsed ->
  exists pal,
    build_starship_palette parsed = Some pal
    /\ forall on_slot surface_slot,
         In (on_slot, surface_slot) text_pairs ->
         exists t s k,
           item on_slot pal = Some t /\ item surface_slot pal = Some s
           /\ (Some t = item "color_fg0" pal \/ Some t = item "color_bg1" pal
               \/ t = "#ffffff" \/ t = "#000000")
           /\ contrast_ratio s t = Some k /\ 4.5 <= k.
Proof.
  intros Hwf.
  destruct (build_spec parsed Hwf)
    as (i & a & pal & Ei & Hi & Ea & Ha & Ep & Eb & _).
  destruct Hi as (Hfg & Hbg & Hsel & _).
  destruct Ha as (Hr & Hg & Hy & Hbl & Hp & Haq & Ho).
  destruct (assemble_items i a pal Ep)
    as (Ifg & Ibg & Isel & Ir & Ig & Iy & Ibl & Ip & Iaq & Io).
  destruct (assemble_text_items i a pal Ep)
    as (T1 & T2 & T3 & T4 & T5 & T6 & T7 & T8 & T9).
  set (cands := [foreground i; background i; "#ffffff"; "#000000"]) in *.
  assert (Hw : In "#ffffff" cands) by (cbn; auto).
  assert (Hb : In "#000000" cands) by (cbn; auto 6).
  assert (Hone : forall s, canonical s = true ->
    exists t k, best_contrast_text s cands = Some t
      /\ (Some t = item "color_fg0" pal \/ Some t = item "color_bg1" pal
          \/ t = "#ffffff" \/ t = "#000000")
      /\ contrast_ratio s t = Some k /\ 4.5 <= k).
  { intros s Hs.
    destruct (best_contrast_text_choice s cands Hs Hw Hb)
      as (t & k & Ht & Hin & Hk & _ & H45).
    apply In_unique_candidates in Hin as (c & Hc & Hn).
    exists t, k. split; [exact Ht |]. split; [| auto].
    destruct Hc as [<- | [<- | [<- | [<- | []]]]].
    - rewrite normalize_hex_of_canonical in Hn by exact Hfg.
      left. congruence.
    - rewrite normalize_hex_of_canonical in Hn by exact Hbg.
      right; left. congruence.
    - right; right; left.
      change (normalize_hex "#ffffff") with (Some "#ffffff") in Hn. congruence.
    - right; right; right.
      change (normalize_hex "#000000") with (Some "#000000") in Hn. congruence. }
  exists pal. split; [exact Eb |].
  intros on_slot surface_slot Hin. cbn [text_pairs In] in Hin.
  repeat (destruct Hin as [[= <- <-] | Hin];
    [match goal with
     | T : item ?slot pal = best_contrast_text ?s cands |- context [item ?slot pal] =>
         let Hs := fresh in
         assert (Hs : canonical s = true) by assumption;
         destruct (Hone s Hs) as (t & k & Ht & Hsrc & Hk & H45);
         exists t, s, k; rewrite T;
         repeat (split; [first [assumption | congruence] |]); assumption
     end |]).
  destruct Hin.
Qed.

Lemma palette_text_readable_witness :
  well_formed no_theme
  /\ exists pal,
    build_starship_palette no_theme = Some pal
    /\ forall on_slot surface_slot,
         In (on_slot, surface_slot) text_pairs ->
         exists t s k,
           item on_slot pal = Some t /\ item surface_slot pal = Some s
           /\ (Some t = item "color_fg0" pal \/ Some t = item "color_bg1" pal
               \/ t = "#ffffff" \/ t = "#000000")
           /\ contrast_ratio s t = Some k /\ 4.5 <= k.
Proof.
  split; [exact no_theme_well_formed |].
  exact (palette_text_readable no_theme no_theme_well_formed).
Defined.

(** X15.  Between white and black, [best_contrast_text] picks black exactly
    when the square of the surface's luminance plus 0.05 exceeds 0.0525
    (a luminance of about 0.179), and white otherwise, ties included. *)
Theorem black_or_white_text (surface : string) (l : R) :
  relative_luminance surface = Some l ->
  best_contrast_text surface ["#ffffff"; "#000000"]
  = Some (if Rlt_dec 0.0525 ((l + 0.05) * (l + 0.05))
          then "#000000" else "#ffffff").
Proof.
  intros Hl. pose proof (relative_luminance_range surface l Hl) as Hr.
  unfold best_contrast_text.
  change (unique_candidates_of ["#ffffff"; "#000000"])
    with ["#ffffff"; "#000000"].
  cbv beta iota.
  rewrite (contrast_with_white surface l Hl). cbn [mbind option_bind max_by_key].
  rewrite (contrast_with_black surface l Hl). cbn [mbind option_bind].
  assert (Ha : 1.05 / (l + 0.05) * (l + 0.05) = 1.05) by (field; lra).
  assert (Hb : (l + 0.05) / 0.05 * 0.05 = l + 0.05) by (field; lra).
  revert Ha Hb.
  generalize (1.05 / (l + 0.05)) as a. generalize ((l + 0.05) / 0.05) as b.
  intros b a Ha Hb.
  destruct (Rlt_dec a b) as [H | H];
    destruct (Rlt_dec 0.0525 ((l + 0.05) * (l + 0.05))) as [H' | H'];
    try reflexivity; exfalso.
  - apply H'. nra.
  - apply H. nra.
Qed.

Lemma black_or_white_text_witness :
  relative_luminance "#000000" = Some 0
  /\ best_contrast_text "#000000" ["#ffffff"; "#000000"]
     = Some (if Rlt_dec 0.0525 ((0 + 0.05) * (0 + 0.05))
             then "#000000" else "#ffffff").
Proof.
  split; [exact luminance_black |].
  exact (black_or_white_text "#000000" 0 luminance_black).
Defined.

(** ** Which palette entries are read *)

(** X16.  The palette only depends on the three named colours and on the
    palette entries 0 to 8: two inputs that agree on those give the same
    result, whatever their other entries are, and a missing palette counts
    as an empty one. *)
Theorem build_reads_entries_0_to_8 (parsed parsed' : parsed_config) :
  p_foreground parsed = p_foreground parsed' ->
  p_background parsed = p_background parsed' ->
  p_selection_background parsed = p_selection_background parsed' ->
  (forall idx, (0 <= idx <= 8)%Z ->
     colors_of parsed !! idx = colors_of parsed' !! idx) ->
  build_starship_palette parsed = build_starship_palette parsed'.
Proof.
  intros Hfg Hbg Hsel Hcol.
  unfold build_starship_palette. f_equal.
  unfold resolve_inputs, foreground_of, background_of.
  rewrite Hfg, Hbg, Hsel.
  rewrite (Hcol 0%Z), (Hcol 1%Z), (Hcol 2%Z), (Hcol 3%Z), (Hcol 4%Z),
    (Hcol 5%Z), (Hcol 6%Z), (Hcol 7%Z), (Hcol 8%Z) by lia.
  reflexivity.
Qed.

Lemma build_reads_entries_0_to_8_witness :
  p_foreground bright_only = p_foreground no_theme
  /\ p_background bright_only = p_background no_theme
  /\ p_selection_background bright_only = p_selection_background no_theme
  /\ (forall idx, (0 <= idx <= 8)%Z ->
        colors_of bright_only !! idx = colors_of no_theme !! idx)
  /\ build_starship_palette bright_only = build_starship_palette no_theme.
Proof.
  assert (H : forall idx, (0 <= idx <= 8)%Z ->
            colors_of bright_only !! idx = colors_of no_theme !! idx).
  { intros idx Hidx. change (colors_of no_theme) with (∅ : gmap Z string).
    rewrite lookup_empty. apply lookup_singleton_ne. lia. }
  repeat (split; [reflexivity |]). split; [exact H |].
  exact (build_reads_entries_0_to_8 bright_only no_theme
           eq_refl eq_refl eq_refl H).
Defined.

(** * The text functions *)

(** ** Strings *)

Lemma append_cons (c : ascii) (a b : string) :
  String c a ++ b = String c (a ++ b).
Proof. reflexivity. Qed.

Lemma append_nil_l (b : string) : "" ++ b = b.
Proof. reflexivity. Qed.

Lemma append_nil_r (a : string) : a ++ "" = a.
Proof. induction a as [| c a IH]; [reflexivity |]. rewrite append_cons, IH. reflexivity. Qed.

Lemma append_assoc (a b c : string) : (a ++ b) ++ c = a ++ (b ++ c).
Proof.
  induction a as [| x a IH]; [reflexivity |].
  rewrite !append_cons, IH. reflexivity.
Qed.

Lemma length_append (a b : string) :
  String.length (a ++ b) = (String.length a + String.length b)%nat.
Proof.
  induction a as [| x a IH]; [reflexivity |].
  rewrite append_cons. cbn [String.length]. rewrite IH. reflexivity.
Qed.

Lemma substring_prefix (a b : string) :
  substring 0 (String.length a) (a ++ b) = a.
Proof.
  induction a as [| x a IH].
  - cbn [String.length]. rewrite append_nil_l. apply substring_0_0.
  - rewrite append_cons. cbn [String.length substring]. rewrite IH. reflexivity.
Qed.

Lemma substring_all (b : string) : substring 0 (String.length b) b = b.
Proof.
  rewrite <- (append_nil_r b) at 2. rewrite substring_prefix. reflexivity.
Qed.

Lemma substring_suffix (a b : string) (n : nat) :
  n = String.length b ->
  substring (String.length a) n (a ++ b) = b.
Proof.
  intros ->. induction a as [| x a IH].
  - rewrite append_nil_l. apply substring_all.
  - rewrite append_cons. cbn [String.length substring]. exact IH.
Qed.

Lemma last_char_append (prev : option ascii) (a b : string) :
  last_char prev (a ++ b) = last_char (last_char prev a) b.
Proof.
  revert prev. induction a as [| x a IH]; intros prev; [reflexivity |].
  rewrite append_cons. cbn [last_char]. apply IH.
Qed.

Lemma last_char_snoc (prev : option ascii) (a : string) (c : ascii) :
  last_char prev (snoc a c) = Some c.
Proof. unfold snoc. rewrite last_char_append. reflexivity. Qed.

Lemma last_char_Some (s : string) (c : ascii) :
  last_char None s = Some c -> exists s0, s = snoc s0 c.
Proof.
  assert (H : forall prev, last_char prev s = Some c ->
            (s = "" /\ prev = Some c) \/ exists s0, s = snoc s0 c).
  { induction s as [| x s IH]; intros prev Hl; [left; auto | right].
    cbn [last_char] in Hl. destruct (IH _ Hl) as [[-> [= ->]] | (s0 & ->)].
    - exists "". reflexivity.
    - exists (String x s0). reflexivity. }
  intros Hl. destruct (H None Hl) as [[_ Hn] | Hs]; [discriminate | exact Hs].
Qed.

(** ** The matcher *)

Lemma star_loop_inv {A} (p : ascii -> bool) (rest : string)
    (prev : option ascii) (pos : nat)
    (k : option ascii -> nat -> string -> option A) (x : A) :
  star_loop p prev pos rest k = Some x ->
  exists s rest',
    rest = s ++ rest' /\ all_chars p s = true
    /\ k (last_char prev s) (pos + String.length s)%nat rest' = Some x.
Proof.
  revert prev pos. induction rest as [| c r IH]; intros prev pos H.
  - exists "", "". cbn in *. rewrite Nat.add_0_r. auto.
  - cbn [star_loop] in H. destruct (p c) eqn:Hp.
    + destruct (star_loop p (Some c) (S pos) r k) as [y |] eqn:Hs.
      * injection H as ->. destruct (IH _ _ Hs) as (s & rest' & -> & Hall & Hk).
        exists (String c s), rest'. cbn [all_chars last_char String.length].
        rewrite Hp, Hall. rewrite Nat.add_succ_r. auto.
      * exists "", (String c r). cbn. rewrite Nat.add_0_r. auto.
    + exists "", (String c r). cbn. rewrite Nat.add_0_r. auto.
Qed.

Lemma rep_loop_inv {A} (n : nat) (p : ascii -> bool) (rest : string)
    (prev : option ascii) (pos : nat)
    (k : option ascii -> nat -> string -> option A) (x : A) :
  rep_loop n p prev pos rest k = Some x ->
  exists s rest',
    rest = s ++ rest' /\ all_chars p s = true /\ String.length s = n
    /\ k (last_char prev s) (pos + String.length s)%nat rest' = Some x.
Proof.
  revert rest prev pos. induction n as [| n IH]; intros rest prev pos H.
  - exists "", rest. cbn in *. rewrite Nat.add_0_r. auto.
  - cbn [rep_loop] in H. destruct rest as [| c r]; [discriminate |].
    destruct (p c) eqn:Hp; [| discriminate].
    destruct (IH _ _ _ H) as (s & rest' & -> & Hall & Hlen & Hk).
    exists (String c s), rest'. cbn [all_chars last_char String.length].
    rewrite Hp, Hall, Nat.add_succ_r.
    split; [reflexivity |]. split; [reflexivity |].
    split; [congruence | exact Hk].
Qed.

(** A match consumes a prefix of what is left; after a pattern that ends
    in [$] the rest is at the end of a line. *)
Lemma run_ends_eol (multiline : bool) (atoms : list atom) :
  forall caps prev pos rest stop caps',
    run multiline (atoms ++ [Eol]) caps prev pos rest = Some (stop, caps') ->
    exists s rest',
      rest = s ++ rest' /\ stop = (pos + String.length s)%nat
      /\ at_eol multiline rest' = true.
Proof.
  induction atoms as [| a atoms IH]; intros caps prev pos rest stop caps' H.
  - cbn [app run] in H. destruct (at_eol multiline rest) eqn:He; [| discriminate].
    injection H as <- <-. exists "", rest. cbn. rewrite Nat.add_0_r. auto.
  - cbn [app] in H.
    assert (Hshift : forall c r prev',
      run multiline (atoms ++ [Eol]) caps prev' (S pos) r = Some (stop, caps') ->
      exists s rest', String c r = s ++ rest'
        /\ stop = (pos + String.length s)%nat /\ at_eol multiline rest' = true).
    { intros c r prev' Hr. destruct (IH _ _ _ _ _ _ Hr) as (s & rest' & -> & -> & He).
      exists (String c s), rest'. cbn [String.length].
      rewrite Nat.add_succ_r. auto. }
    assert (Hloop : forall s0 rest0 prev',
      rest = s0 ++ rest0 ->
      run multiline (atoms ++ [Eol]) caps prev' (pos + String.length s0) rest0
        = Some (stop, caps') ->
      exists s rest', rest = s ++ rest'
        /\ stop = (pos + String.length s)%nat /\ at_eol multiline rest' = true).
    { intros s0 rest0 prev' -> Hr.
      destruct (IH _ _ _ _ _ _ Hr) as (s & rest' & -> & -> & He).
      exists (s0 ++ s), rest'. rewrite append_assoc, length_append.
      rewrite Nat.add_assoc. auto. }
    destruct a; cbn [run] in H.
    + destruct (at_bol multiline prev); [| discriminate]. eapply IH, H.
    + destruct (at_eol multiline rest); [| discriminate]. eapply IH, H.
    + destruct rest as [| c r]; [discriminate |].
      destruct (p c); [| discriminate]. eapply Hshift, H.
    + apply star_loop_inv in H as (s0 & rest0 & E & _ & Hr).
      eapply Hloop; eassumption.
    + destruct rest as [| c r]; [discriminate |].
      destruct (p c); [| discriminate].
      apply star_loop_inv in H as (s0 & rest0 & E & _ & Hr).
      apply (Hloop (String c s0) rest0 (last_char (Some c) s0));
        [rewrite E; reflexivity |].
      cbn [String.length]. rewrite Nat.add_succ_r. exact Hr.
    + apply rep_loop_inv in H as (s0 & rest0 & E & _ & _ & Hr).
      eapply Hloop; eassumption.
    + eapply IH, H.
    + destruct (assoc g (opened caps)); [| discriminate]. eapply IH, H.
Qed.

Lemma search_from_inv (multiline : bool) (atoms : list atom) (rest : string) :
  forall prev pos start stop,
    search_from multiline atoms prev pos rest = Some (start, stop) ->
    exists skipped rest' caps',
      rest = skipped ++ rest' /\ start = (pos + String.length skipped)%nat
      /\ run multiline atoms no_captures (last_char prev skipped) start rest'
         = Some (stop, caps').
Proof.
  induction rest as [| c r IH]; intros prev pos start stop H;
    cbn [search_from] in H.
  - destruct (run multiline atoms no_captures prev pos "") as [[e caps'] |] eqn:Hr;
      [| discriminate].
    injection H as <- <-. exists "", "", caps'. cbn. rewrite Nat.add_0_r. auto.
  - destruct (run multiline atoms no_captures prev pos (String c r))
      as [[e caps'] |] eqn:Hr.
    + injection H as <- <-. exists "", (String c r), caps'. cbn.
      rewrite Nat.add_0_r. auto.
    + destruct (IH _ _ _ _ H) as (skipped & rest' & caps' & -> & -> & Hrun).
      exists (String c skipped), rest', caps'. cbn [String.length last_char].
      rewrite Nat.add_succ_r. auto.
Qed.

(** ** Matches that succeed *)

Section Succeeds.
Context {A : Type} (p : ascii -> bool) (k : option ascii -> nat -> string -> option A).

Lemma star_loop_some (prev : option ascii) (pos : nat) (rest : string) (x : A) :
  k prev pos rest = Some x -> exists y, star_loop p prev pos rest k = Some y.
Proof.
  intros Hk. destruct rest as [| c r]; cbn [star_loop]; [eauto |].
  destruct (p c); [| eauto].
  destruct (star_loop p (Some c) (S pos) r k); eauto.
Qed.

Lemma star_loop_cons (prev : option ascii) (pos : nat) (c : ascii) (r : string)
    (x : A) :
  p c = true -> star_loop p (Some c) (S pos) r k = Some x ->
  star_loop p prev pos (String c r) k = Some x.
Proof. intros Hp Hs. cbn [star_loop]. rewrite Hp, Hs. reflexivity. Qed.

Lemma star_loop_nil (prev : option ascii) (pos : nat) (rest : string) (x : A) :
  stops p rest = true -> k prev pos rest = Some x ->
  star_loop p prev pos rest k = Some x.
Proof.
  intros Hs Hk. destruct rest as [| c r]; cbn [star_loop]; [exact Hk |].
  cbn [stops] in Hs. apply negb_true_iff in Hs. rewrite Hs. exact Hk.
Qed.

(** The longest run is tried first. *)
Lemma star_loop_exact (s rest : string) (prev : option ascii) (pos : nat) (x : A) :
  all_chars p s = true -> stops p rest = true ->
  k (last_char prev s) (pos + String.length s) rest = Some x ->
  star_loop p prev pos (s ++ rest) k = Some x.
Proof.
  revert prev pos. induction s as [| c s IH]; intros prev pos Hall Hs Hk.
  - cbn [last_char String.length] in Hk. rewrite Nat.add_0_r in Hk.
    rewrite append_nil_l. apply star_loop_nil; assumption.
  - cbn [all_chars] in Hall. apply andb_true_iff in Hall as [Hc Hall].
    rewrite append_cons. apply star_loop_cons; [exact Hc |].
    apply IH; [exact Hall | exact Hs |].
    cbn [last_char String.length] in Hk. rewrite Nat.add_succ_r in Hk. exact Hk.
Qed.

Lemma rep_loop_exact (s rest : string) (prev : option ascii) (pos : nat) :
  all_chars p s = true ->
  rep_loop (String.length s) p prev pos (s ++ rest) k
  = k (last_char prev s) (pos + String.length s) rest.
Proof.
  revert prev pos. induction s as [| c s IH]; intros prev pos Hall.
  - cbn. rewrite Nat.add_0_r. reflexivity.
  - cbn [all_chars] in Hall. apply andb_true_iff in Hall as [Hc Hall].
    rewrite append_cons. cbn [String.length rep_loop last_char]. rewrite Hc.
    rewrite IH by exact Hall. rewrite Nat.add_succ_r. reflexivity.
Qed.

End Succeeds.

Section Steps.
Context (multiline : bool) (atoms : list atom) (caps : captures)
        (prev : option ascii) (pos : nat) (x : nat * captures).

Lemma run_Bol (rest : string) :
  at_bol multiline prev = true ->
  run multiline atoms caps prev pos rest = Some x ->
  run multiline (Bol :: atoms) caps prev pos rest = Some x.
Proof. intros H1 H2. cbn [run]. rewrite H1. exact H2. Qed.

Lemma run_Eol (rest : string) :
  at_eol multiline rest = true ->
  run multiline atoms caps prev pos rest = Some x ->
  run multiline (Eol :: atoms) caps prev pos rest = Some x.
Proof. intros H1 H2. cbn [run]. rewrite H1. exact H2. Qed.

Lemma run_Chr (p : ascii -> bool) (c : ascii) (r : string) :
  p c = true ->
  run multiline atoms caps (Some c) (S pos) r = Some x ->
  run multiline (Chr p :: atoms) caps prev pos (String c r) = Some x.
Proof. intros H1 H2. cbn [run]. rewrite H1. exact H2. Qed.

Lemma run_Star (p : ascii -> bool) (rest : string) :
  star_loop p prev pos rest (run multiline atoms caps) = Some x ->
  run multiline (Star p :: atoms) caps prev pos rest = Some x.
Proof. intros H. exact H. Qed.

Lemma run_Plus (p : ascii -> bool) (c : ascii) (r : string) :
  p c = true ->
  star_loop p (Some c) (S pos) r (run multiline atoms caps) = Some x ->
  run multiline (Plus p :: atoms) caps prev pos (String c r) = Some x.
Proof. intros H1 H2. cbn [run]. rewrite H1. exact H2. Qed.

Lemma run_Rep (n : nat) (p : ascii -> bool) (rest : string) :
  rep_loop n p prev pos rest (run multiline atoms caps) = Some x ->
  run multiline (Rep n p :: atoms) caps prev pos rest = Some x.
Proof. intros H. exact H. Qed.

Lemma run_Open (g : nat) (rest : string) :
  run multiline atoms (Captures ((g, pos) :: opened caps) (closed caps))
      prev pos rest = Some x ->
  run multiline (Open g :: atoms) caps prev pos rest = Some x.
Proof. intros H. exact H. Qed.

Lemma run_Close (g start : nat) (rest : string) :
  assoc g (opened caps) = Some start ->
  run multiline atoms
      (Captures (opened caps) ((g, (start, pos)) :: closed caps))
      prev pos rest = Some x ->
  run multiline (Close g :: atoms) caps prev pos rest = Some x.
Proof. intros H1 H2. cbn [run]. rewrite H1. exact H2. Qed.

End Steps.

(** One step of a match on characters that are known: the test is decided
    by computation. *)
Ltac match_known :=
  repeat first
    [ apply run_Chr; [vm_compute; reflexivity |]
    | apply run_Open
    | apply run_Close; [reflexivity |]
    | apply run_Star
    | apply run_Plus; [vm_compute; reflexivity |]
    | apply star_loop_cons; [vm_compute; reflexivity |]
    | apply star_loop_nil; [vm_compute; reflexivity |] ].

(** ** Groups *)

Lemma all_chars_append (p : ascii -> bool) (a b : string) :
  all_chars p (a ++ b) = all_chars p a && all_chars p b.
Proof.
  induction a as [| c a IH]; [reflexivity |].
  rewrite append_cons. cbn [all_chars]. rewrite IH, andb_assoc. reflexivity.
Qed.

Lemma all_chars_substring (p : ascii -> bool) (s : string) :
  forall n m, all_chars p s = true -> all_chars p (substring n m s) = true.
Proof.
  induction s as [| c s IH]; intros n m H.
  - destruct n, m; reflexivity.
  - cbn [all_chars] in H. apply andb_true_iff in H as [Hc H].
    destruct n as [| n]; [destruct m as [| m] |]; cbn [substring all_chars].
    + reflexivity.
    + rewrite Hc. apply IH, H.
    + apply IH, H.
Qed.

Lemma group_all_chars (p : ascii -> bool) (g : nat) (m : nat * captures)
    (text : string) :
  all_chars p text = true -> all_chars p (group g m text) = true.
Proof.
  intros H. unfold group. destruct (assoc g (closed (snd m))) as [[a b] |];
    [apply all_chars_substring, H | reflexivity].
Qed.

(** A group that is closed stays as it is to the end of the match, unless
    the pattern closes it again. *)
Lemma run_keeps_closed (multiline : bool) (g : nat) (x : nat * nat)
    (atoms : list atom) :
  forallb (fun a => negb (closes g a)) atoms = true ->
  forall caps prev pos rest stop caps',
    assoc g (closed caps) = Some x ->
    run multiline atoms caps prev pos rest = Some (stop, caps') ->
    assoc g (closed caps') = Some x.
Proof.
  induction atoms as [| a atoms IH];
    intros Hno caps prev pos rest stop caps' Hg H.
  - cbn [run] in H. injection H as <- <-. exact Hg.
  - cbn [forallb] in Hno. apply andb_true_iff in Hno as [Ha Hno].
    specialize (IH Hno).
    destruct a; cbn [run] in H.
    + destruct (at_bol multiline prev); [| discriminate]. eapply IH; eassumption.
    + destruct (at_eol multiline rest); [| discriminate]. eapply IH; eassumption.
    + destruct rest as [| c r]; [discriminate |].
      destruct (p c); [| discriminate]. eapply IH; eassumption.
    + apply star_loop_inv in H as (s0 & rest0 & _ & _ & Hr).
      eapply IH; eassumption.
    + destruct rest as [| c r]; [discriminate |].
      destruct (p c); [| discriminate].
      apply star_loop_inv in H as (s0 & rest0 & _ & _ & Hr).
      eapply IH; eassumption.
    + apply rep_loop_inv in H as (s0 & rest0 & _ & _ & _ & Hr).
      eapply IH; eassumption.
    + eapply IH; [| exact H]. exact Hg.
    + destruct (assoc g0 (opened caps)) as [start |]; [| discriminate].
      eapply IH; [| exact H]. cbn [closed assoc].
      cbn [closes] in Ha. apply negb_true_iff in Ha. rewrite Ha. exact Hg.
Qed.

(** Group 1 of the pattern of [update_palette_section] is the run of
    blanks at the start of the line. *)
Lemma value_line_indent (line : string) (m : nat * captures) :
  re_match false VALUE_LINE_RE line = Some m ->
  all_chars is_space (group 1 m line) = true.
Proof.
  destruct m as [stop caps']. unfold re_match.
  change VALUE_LINE_RE
    with (Bol :: Open 1 :: Star is_space :: Close 1 :: skipn 4 VALUE_LINE_RE).
  set (tail := skipn 4 VALUE_LINE_RE).
  assert (Htail : forallb (fun a => negb (closes 1 a)) tail = true)
    by reflexivity.
  clearbody tail. intros H.
  change (star_loop is_space None 0 line
            (run false (Close 1 :: tail) (Captures [(1, 0)]%nat []))
          = Some (stop, caps')) in H.
  apply star_loop_inv in H as (s & rest & -> & Hs & Hr).
  change (run false tail
            (Captures [(1, 0)]%nat [(1, (0, 0 + String.length s))]%nat)
            (last_char None s) (0 + String.length s) rest
          = Some (stop, caps')) in Hr.
  assert (Hg : assoc 1 (closed caps') = Some (0, 0 + String.length s)%nat).
  { eapply (run_keeps_closed false 1 _ tail Htail); [| exact Hr]. reflexivity. }
  unfold group. cbn [snd]. rewrite Hg.
  rewrite Nat.add_0_l, Nat.sub_0_r, substring_prefix. exact Hs.
Qed.

(** ** Reading the configuration *)

Lemma set_palette_well_formed (idx : Z) (color : string) (parsed : parsed_config) :
  well_formed parsed -> canonical color = true ->
  well_formed (set_palette idx color parsed).
Proof.
  intros Hwf Hc. split; cbn [set_palette p_foreground p_background
                              p_selection_background p_palette];
    try apply Hwf.
  intros d i [= <-] s Hs.
  apply lookup_insert_Some in Hs as [[_ <-] | [_ Hs]]; [exact Hc |].
  exact (colors_of_canonical parsed i Hwf s Hs).
Qed.

Lemma set_named_well_formed (key color : string) (parsed : parsed_config) :
  well_formed parsed -> canonical color = true ->
  well_formed (set_named key color parsed).
Proof.
  intros Hwf Hc. unfold set_named.
  destruct (String.eqb key "foreground");
    [| destruct (String.eqb key "background")];
    split; cbn [p_foreground p_background p_selection_background p_palette];
    try apply Hwf; apply present_Some, Hc.
Qed.

Lemma load_line_well_formed (parsed parsed' : parsed_config) (raw_line : string) :
  well_formed parsed -> load_line parsed raw_line = Some parsed' ->
  well_formed parsed'.
Proof.
  intros Hwf. unfold load_line.
  destruct (_ || _); [intros [= <-]; exact Hwf |].
  destruct (re_match false KEY_VALUE_RE _) as [kv |];
    [| intros [= <-]; exact Hwf].
  cbn zeta. destruct (String.eqb _ "palette").
  - destruct (re_match false PALETTE_LINE_RE _) as [pm |];
      [| intros [= <-]; exact Hwf].
    destruct (int10 _) as [idx |]; [| discriminate].
    cbn [mbind option_bind].
    destruct (normalize_hex _) as [color |] eqn:En;
      intros [= <-]; [| exact Hwf].
    apply set_palette_well_formed; [exact Hwf |].
    eapply normalize_hex_canonical, En.
  - destruct (_ || _); [| intros [= <-]; exact Hwf].
    destruct (normalize_hex _) as [color |] eqn:En;
      intros [= <-]; [| exact Hwf].
    apply set_named_well_formed; [exact Hwf |].
    eapply normalize_hex_canonical, En.
Qed.

Lemma load_lines_well_formed (lines : list string) :
  forall parsed parsed',
    well_formed parsed -> load_lines parsed lines = Some parsed' ->
    well_formed parsed'.
Proof.
  induction lines as [| l lines IH]; intros parsed parsed' Hwf H.
  - injection H as <-. exact Hwf.
  - cbn [load_lines] in H.
    destruct (load_line parsed l) as [p1 |] eqn:E1; [| discriminate].
    cbn [mbind option_bind] in H.
    eapply IH; [eapply load_line_well_formed; eassumption | exact H].
Qed.

Lemma load_ghostty_config_well_formed (stdout : option string) (parsed : parsed_config) :
  load_ghostty_config stdout = Some parsed -> well_formed parsed.
Proof.
  destruct stdout as [text |]; cbn [load_ghostty_config].
  - apply load_lines_well_formed.
    split; try apply present_None.
    intros d idx [= <-] s. rewrite lookup_empty. discriminate.
  - intros [= <-]. exact no_theme_well_formed.
Qed.

(** X17.  Whatever the terminal's command printed, the colours that
    [load_ghostty_config] keeps are all canonical, so that
    [build_starship_palette] accepts its result and returns the complete
    palette of nineteen canonical colours. *)
Theorem load_then_build (stdout : option string) (parsed : parsed_config) :
  load_ghostty_config stdout = Some parsed ->
  well_formed parsed
  /\ exists pal,
       build_starship_palette parsed = Some pal
       /\ map fst pal = slot_names
       /\ Forall (fun v => canonical v = true) (map snd pal).
Proof.
  intros H. pose proof (load_ghostty_config_well_formed _ _ H) as Hwf.
  split; [exact Hwf |].
  destruct (build_spec parsed Hwf) as (i & a & pal & _ & _ & _ & _ & _ & Eb & Hk & Hv).
  exists pal. auto.
Qed.

Lemma sample_stdout_loaded :
  load_ghostty_config (Some sample_stdout)
  = Some (Parsed (Some {[ 1%Z := "#cc241d" ]}) None (Some "#1d2021") None).
Proof. vm_compute. reflexivity. Qed.

Lemma load_then_build_witness :
  load_ghostty_config (Some sample_stdout)
  = Some (Parsed (Some {[ 1%Z := "#cc241d" ]}) None (Some "#1d2021") None)
  /\ well_formed (Parsed (Some {[ 1%Z := "#cc241d" ]}) None (Some "#1d2021") None)
  /\ exists pal,
       build_starship_palette
         (Parsed (Some {[ 1%Z := "#cc241d" ]}) None (Some "#1d2021") None)
       = Some pal
       /\ map fst pal = slot_names
       /\ Forall (fun v => canonical v = true) (map snd pal).
Proof.
  split; [exact sample_stdout_loaded |].
  exact (load_then_build (Some sample_stdout) _ sample_stdout_loaded).
Defined.

(** Reading the output of the command never loses the key [palette]. *)
Lemma load_line_palette (parsed parsed' : parsed_config) (raw_line : string) :
  p_palette parsed <> None -> load_line parsed raw_line = Some parsed' ->
  p_palette parsed' <> None.
Proof.
  intros Hp. unfold load_line.
  destruct (_ || _); [intros [= <-]; exact Hp |].
  destruct (re_match false KEY_VALUE_RE _) as [kv |];
    [| intros [= <-]; exact Hp].
  cbn zeta. destruct (String.eqb _ "palette").
  - destruct (re_match false PALETTE_LINE_RE _) as [pm |];
      [| intros [= <-]; exact Hp].
    destruct (int10 _) as [idx |]; [| discriminate].
    cbn [mbind option_bind].
    destruct (normalize_hex _) as [color |];
      intros [= <-]; [discriminate | exact Hp].
  - destruct (_ || _); [| intros [= <-]; exact Hp].
    destruct (normalize_hex _) as [color |];
      intros [= <-]; [| exact Hp].
    unfold set_named.
    destruct (String.eqb _ "foreground");
      [| destruct (String.eqb _ "background")]; exact Hp.
Qed.

Lemma load_lines_palette (lines : list string) :
  forall parsed parsed',
    p_palette parsed <> None -> load_lines parsed lines = Some parsed' ->
    p_palette parsed' <> None.
Proof.
  induction lines as [| l lines IH]; intros parsed parsed' Hp H.
  - injection H as <-. exact Hp.
  - cbn [load_lines] in H.
    destruct (load_line parsed l) as [p1 |] eqn:E1; [| discriminate].
    cbn [mbind option_bind] in H.
    eapply IH; [eapply load_line_palette; eassumption | exact H].
Qed.

Lemma load_has_key (text : string) (parsed : parsed_config) :
  load_ghostty_config (Some text) = Some parsed -> has_key parsed = true.
Proof.
  cbn [load_ghostty_config]. intros H.
  apply load_lines_palette in H; [| discriminate].
  unfold has_key. destruct (p_palette parsed); [reflexivity | contradiction].
Qed.

(** ** The lines that are read *)

Lemma star_loop_all {A} (p : ascii -> bool)
    (k : option ascii -> nat -> string -> option A)
    (s : string) (prev : option ascii) (pos : nat) (x : A) :
  all_chars p s = true ->
  k (last_char prev s) (pos + String.length s)%nat "" = Some x ->
  star_loop p prev pos s k = Some x.
Proof.
  intros Hall Hk. rewrite <- (append_nil_r s) at 1.
  apply star_loop_exact; [exact Hall | reflexivity | exact Hk].
Qed.

Lemma rep_loop_all {A} (p : ascii -> bool)
    (k : option ascii -> nat -> string -> option A)
    (s : string) (prev : option ascii) (pos : nat) :
  all_chars p s = true ->
  rep_loop (String.length s) p prev pos s k
  = k (last_char prev s) (pos + String.length s)%nat "".
Proof.
  intros Hall. rewrite <- (append_nil_r s) at 2.
  apply rep_loop_exact, Hall.
Qed.

Lemma all_hex_all_chars (s : string) : all_hex s = all_chars is_hex s.
Proof. induction s as [| c s IH]; [reflexivity |]. cbn. rewrite IH. reflexivity. Qed.

Lemma all_chars_impl (p q : ascii -> bool) (s : string) :
  (forall c, p c = true -> q c = true) ->
  all_chars p s = true -> all_chars q s = true.
Proof.
  intros Hpq. induction s as [| c s IH]; [reflexivity |]. cbn [all_chars].
  intros H. apply andb_true_iff in H as [Hc H]. rewrite (Hpq c Hc). apply IH, H.
Qed.

Lemma is_key_char_facts (c : ascii) :
  is_key_char c = true -> is_space c = false /\ c <> "#"%char.
Proof.
  destruct c as [[] [] [] [] [] [] [] []]; intros H; vm_compute in H;
    try discriminate H; (split; [reflexivity | discriminate]).
Qed.

Lemma is_hex_facts (c : ascii) :
  is_hex c = true -> is_space c = false /\ not_newline c = true.
Proof.
  destruct c as [[] [] [] [] [] [] [] []]; intros H; vm_compute in H;
    try discriminate H; split; reflexivity.
Qed.

Lemma is_digit_facts (c : ascii) :
  is_digit c = true -> is_space c = false /\ not_newline c = true.
Proof.
  destruct c as [[] [] [] [] [] [] [] []]; intros H; vm_compute in H;
    try discriminate H; split; reflexivity.
Qed.

Lemma last_char_nonempty (s : string) (prev : option ascii) :
  s <> "" -> last_char prev s = last_char None s.
Proof. destruct s; [congruence | reflexivity]. Qed.

(** Nothing is stripped from a string that neither starts nor ends with a
    blank. *)
Lemma rstrip_clean (p : ascii -> bool) (s : string) (c : ascii) :
  last_char None s = Some c -> p c = false -> rstrip p s = s.
Proof.
  intros Hl Hc. induction s as [| x s IH]; [discriminate |].
  cbn [rstrip]. destruct s as [| y s].
  - cbn in Hl. injection Hl as ->. cbn [rstrip]. rewrite Hc. reflexivity.
  - rewrite IH by exact Hl. reflexivity.
Qed.

Lemma strip_clean (s : string) (c : ascii) :
  stops is_space s = true -> last_char None s = Some c -> is_space c = false ->
  strip s = s.
Proof.
  intros Hs Hl Hc. unfold strip. destruct s as [| x s]; [reflexivity |].
  cbn [stops] in Hs. apply negb_true_iff in Hs. cbn [lstrip]. rewrite Hs.
  apply (rstrip_clean is_space _ c); assumption.
Qed.

(** The pattern of the lines [key = value]. *)
Lemma key_value_match (key value : string) :
  key <> "" -> all_chars is_key_char key = true ->
  value <> "" -> all_chars not_newline value = true ->
  stops is_space value = true ->
  exists m,
    re_match false KEY_VALUE_RE (key ++ " = " ++ value) = Some m
    /\ group 1 m (key ++ " = " ++ value) = key
    /\ group 2 m (key ++ " = " ++ value) = value.
Proof.
  intros Hk0 Hk Hv0 Hv Hs.
  destruct key as [| k0 key]; [congruence |].
  destruct value as [| v0 value]; [congruence |].
  cbn [all_chars] in Hk, Hv.
  apply andb_true_iff in Hk as [Hk1 Hk], Hv as [Hv1 Hv].
  eexists. split; [| split].
  - unfold re_match, KEY_VALUE_RE. rewrite append_cons.
    apply run_Bol; [reflexivity |]. apply run_Open.
    apply run_Plus; [exact Hk1 |].
    apply star_loop_exact; [exact Hk | reflexivity |].
    apply run_Close with (start := 0%nat); [reflexivity |].
    apply run_Star.
    change (" = " ++ String v0 value)
      with (String " " (String "=" (String " " (String v0 value)))).
    apply star_loop_cons; [reflexivity |].
    apply star_loop_nil; [reflexivity |].
    apply run_Chr; [reflexivity |]. apply run_Star.
    apply star_loop_cons; [reflexivity |].
    apply star_loop_nil; [exact Hs |].
    apply run_Open. apply run_Plus; [exact Hv1 |].
    apply star_loop_all; [exact Hv |].
    eapply run_Close; [reflexivity |].
    apply run_Eol; [reflexivity |]. reflexivity.
  - unfold group. cbn [snd closed assoc Nat.eqb].
    rewrite Nat.sub_0_r.
    change (1 + String.length key)%nat with (String.length (String k0 key)).
    apply substring_prefix.
  - unfold group. cbn [snd closed assoc Nat.eqb].
    rewrite <- (append_assoc (String k0 key) " = " (String v0 value)).
    replace (S (S (S (1 + String.length key))))
      with (String.length (String k0 key ++ " = ")).
    2:{ rewrite length_append. cbn [String.length]. lia. }
    apply substring_suffix. rewrite length_append. cbn [String.length]. lia.
Qed.

(** A line [key = value] is dispatched on its key. *)
Lemma load_line_key_value (parsed : parsed_config) (key value : string) (c : ascii) :
  key <> "" -> all_chars is_key_char key = true ->
  all_chars not_newline value = true ->
  stops is_space value = true ->
  last_char None value = Some c -> is_space c = false ->
  load_line parsed (key ++ " = " ++ value)
  = if String.eqb key "palette" then
      match re_match false PALETTE_LINE_RE value with
      | Some palette_match =>
          idx ← int10 (group 1 palette_match value);
          match normalize_hex (group 2 palette_match value) with
          | Some color => Some (set_palette idx color parsed)
          | None => Some parsed
          end
      | None => Some parsed
      end
    else if String.eqb key "foreground" || String.eqb key "background"
            || String.eqb key "selection-background" then
      match normalize_hex value with
      | Some color => Some (set_named key color parsed)
      | None => Some parsed
      end
    else Some parsed.
Proof.
  intros Hk0 Hk Hv Hs Hl Hc.
  assert (Hv0 : value <> "") by (intros ->; discriminate Hl).
  destruct (key_value_match key value Hk0 Hk Hv0 Hv Hs) as (m & Em & G1 & G2).
  assert (Hvalue : strip value = value) by (apply (strip_clean value c); assumption).
  set (line := key ++ " = " ++ value) in *.
  assert (Hline : strip line = line).
  { apply (strip_clean line c); [| | exact Hc].
    - subst line. destruct key as [| k0 key]; [congruence |].
      cbn [all_chars] in Hk. apply andb_true_iff in Hk as [Hk1 _].
      apply is_key_char_facts in Hk1 as [Hsp _].
      rewrite append_cons. cbn [stops]. rewrite Hsp. reflexivity.
    - subst line. rewrite <- append_assoc, last_char_append.
      rewrite last_char_nonempty by exact Hv0. exact Hl. }
  assert (Hstart : String.eqb line "" || startswith "#" line = false).
  { subst line. destruct key as [| k0 key]; [congruence |].
    cbn [all_chars] in Hk. apply andb_true_iff in Hk as [Hk1 _].
    apply is_key_char_facts in Hk1 as [_ Hne].
    rewrite append_cons. unfold startswith. cbn [String.eqb String.prefix orb].
    destruct (ascii_dec "#" k0) as [E | _]; [congruence | reflexivity]. }
  unfold load_line. rewrite Hline, Hstart, Em. cbn zeta.
  rewrite G1, G2, Hvalue. reflexivity.
Qed.

Lemma normalize_hex_digits (digits : string) :
  all_hex digits = true -> String.length digits = 6%nat ->
  normalize_hex (String "#" digits) = Some (String "#" (lower digits))
  /\ all_chars not_newline (String "#" digits) = true
  /\ exists c, last_char None (String "#" digits) = Some c /\ is_space c = false.
Proof.
  intros Hall Hlen.
  destruct digits as [| c1 [| c2 [| c3 [| c4 [| c5 [| c6 [| ? ?]]]]]]];
    try discriminate Hlen.
  cbn [all_hex] in Hall. rewrite !andb_true_iff in Hall.
  destruct Hall as (H1 & H2 & H3 & H4 & H5 & H6 & _).
  pose proof (is_hex_facts c1 H1) as [S1 N1].
  pose proof (is_hex_facts c2 H2) as [S2 N2].
  pose proof (is_hex_facts c3 H3) as [S3 N3].
  pose proof (is_hex_facts c4 H4) as [S4 N4].
  pose proof (is_hex_facts c5 H5) as [S5 N5].
  pose proof (is_hex_facts c6 H6) as [S6 N6].
  split; [| split].
  - unfold normalize_hex.
    rewrite (strip_clean _ c6) by (reflexivity || exact S6).
    unfold HEX_RE_match. cbn [substring String.length Nat.sub].
    cbn [String.length Nat.eqb all_hex].
    rewrite H1, H2, H3, H4, H5, H6. reflexivity.
  - cbn [all_chars]. rewrite N1, N2, N3, N4, N5, N6. reflexivity.
  - exists c6. split; [reflexivity | exact S6].
Qed.

(** X18.  A line [key = #RRGGBB] of the command's output, for one of the
    three keys that are read and six hexadecimal digits of any case, sets
    that key to the colour in lower case. *)
Theorem load_line_reads_colour
    (parsed : parsed_config) (key digits : string) :
  In key ["foreground"; "background"; "selection-background"] ->
  all_hex digits = true -> String.length digits = 6%nat ->
  load_line parsed (key ++ " = #" ++ digits)
  = Some (set_named key ("#" ++ lower digits) parsed).
Proof.
  intros Hkey Hall Hlen.
  destruct (normalize_hex_digits digits Hall Hlen) as (Hn & Hnl & c & Hl & Hc).
  change (key ++ " = #" ++ digits) with (key ++ " = " ++ String "#" digits).
  rewrite (load_line_key_value parsed key (String "#" digits) c);
    [| | | exact Hnl | reflexivity | exact Hl | exact Hc].
  - rewrite Hn.
    destruct Hkey as [<- | [<- | [<- | []]]]; reflexivity.
  - destruct Hkey as [<- | [<- | [<- | []]]]; discriminate.
  - destruct Hkey as [<- | [<- | [<- | []]]]; reflexivity.
Qed.

Lemma load_line_reads_colour_witness :
  In "background" ["foreground"; "background"; "selection-background"]
  /\ all_hex "1D2021" = true /\ String.length "1D2021" = 6%nat
  /\ load_line no_theme ("background" ++ " = #" ++ "1D2021")
     = Some (set_named "background" ("#" ++ lower "1D2021") no_theme).
Proof.
  assert (Hin : In "background" ["foreground"; "background"; "selection-background"])
    by (right; left; reflexivity).
  split; [exact Hin |]. split; [reflexivity |]. split; [reflexivity |].
  exact (load_line_reads_colour no_theme "background" "1D2021" Hin eq_refl eq_refl).
Defined.

(** The pattern of the palette's entries. *)
Lemma palette_entry_match (n digits : string) :
  n <> "" -> all_chars is_digit n = true ->
  all_hex digits = true -> String.length digits = 6%nat ->
  exists m,
    re_match false PALETTE_LINE_RE (n ++ "=#" ++ digits) = Some m
    /\ group 1 m (n ++ "=#" ++ digits) = n
    /\ group 2 m (n ++ "=#" ++ digits) = String "#" digits.
Proof.
  intros Hn0 Hn Hall Hlen. rewrite all_hex_all_chars in Hall.
  destruct n as [| d0 n]; [congruence |].
  cbn [all_chars] in Hn. apply andb_true_iff in Hn as [Hd Hn].
  eexists. split; [| split].
  - unfold re_match, PALETTE_LINE_RE. rewrite append_cons.
    apply run_Bol; [reflexivity |]. apply run_Open.
    apply run_Plus; [exact Hd |].
    apply star_loop_exact; [exact Hn | reflexivity |].
    apply run_Close with (start := 0%nat); [reflexivity |].
    apply run_Star.
    change ("=#" ++ digits) with (String "=" (String "#" digits)).
    apply star_loop_nil; [reflexivity |].
    apply run_Chr; [reflexivity |]. apply run_Star.
    apply star_loop_nil; [reflexivity |].
    apply run_Open. apply run_Chr; [reflexivity |].
    apply run_Rep. rewrite <- Hlen, rep_loop_all by exact Hall.
    eapply run_Close; [reflexivity |].
    apply run_Eol; [reflexivity |]. reflexivity.
  - unfold group. cbn [snd closed assoc Nat.eqb].
    rewrite Nat.sub_0_r.
    change (1 + String.length n)%nat with (String.length (String d0 n)).
    apply substring_prefix.
  - unfold group. cbn [snd closed assoc Nat.eqb].
    change (String d0 n ++ "=#" ++ digits)
      with (String d0 n ++ "=" ++ String "#" digits).
    rewrite <- (append_assoc (String d0 n) "=" (String "#" digits)).
    replace (S (1 + String.length n))
      with (String.length (String d0 n ++ "=")).
    2:{ rewrite length_append. cbn [String.length]. lia. }
    apply substring_suffix. rewrite length_append. cbn [String.length]. lia.
Qed.

(** X19.  A line [palette = N=#RRGGBB] of the command's output, for a
    decimal index of at most 4300 digits and six hexadecimal digits of any
    case, sets the entry of that index to the colour in lower case. *)
Theorem load_line_reads_palette_entry
    (parsed : parsed_config) (n digits : string) :
  n <> "" -> all_chars is_digit n = true -> (String.length n <= 4300)%nat ->
  all_hex digits = true -> String.length digits = 6%nat ->
  load_line parsed ("palette = " ++ n ++ "=#" ++ digits)
  = Some (set_palette (int10_from 0 n) ("#" ++ lower digits) parsed).
Proof.
  intros Hn0 Hn Hnlen Hall Hlen.
  destruct (normalize_hex_digits digits Hall Hlen) as (Hnorm & Hnl & c & Hl & Hc).
  destruct (palette_entry_match n digits Hn0 Hn Hall Hlen) as (m & Em & G1 & G2).
  change ("palette = " ++ n ++ "=#" ++ digits)
    with ("palette" ++ " = " ++ (n ++ "=#" ++ digits)).
  rewrite (load_line_key_value parsed "palette" (n ++ "=#" ++ digits) c);
    [| discriminate | reflexivity | | | | exact Hc].
  - cbn [String.eqb Ascii.eqb Bool.eqb andb].
    rewrite Em, G1, G2, Hnorm. unfold int10.
    apply Nat.leb_le in Hnlen. rewrite Hnlen. reflexivity.
  - rewrite all_chars_append. apply andb_true_iff. split.
    + revert Hn. apply all_chars_impl. intros x Hx.
      apply (is_digit_facts x Hx).
    + exact Hnl.
  - destruct n as [| d0 n]; [congruence |].
    cbn [all_chars] in Hn. apply andb_true_iff in Hn as [Hd _].
    apply is_digit_facts in Hd as [Hsp _].
    rewrite append_cons. cbn [stops]. rewrite Hsp. reflexivity.
  - change (n ++ "=#" ++ digits) with (n ++ "=" ++ String "#" digits).
    rewrite <- append_assoc, last_char_append.
    rewrite last_char_nonempty by discriminate. exact Hl.
Qed.

Lemma load_line_reads_palette_entry_witness :
  "12" <> ""
  /\ all_chars is_digit "12" = true /\ (String.length "12" <= 4300)%nat
  /\ all_hex "83A598" = true /\ String.length "83A598" = 6%nat
  /\ load_line no_theme ("palette = " ++ "12" ++ "=#" ++ "83A598")
     = Some (set_palette (int10_from 0 "12") ("#" ++ lower "83A598") no_theme).
Proof.
  assert (Hne : "12" <> "") by discriminate.
  assert (Hle : (String.length "12" <= 4300)%nat) by (cbn; lia).
  split; [exact Hne |]. split; [reflexivity |]. split; [exact Hle |].
  split; [reflexivity |]. split; [reflexivity |].
  exact (load_line_reads_palette_entry no_theme "12" "83A598"
           Hne eq_refl Hle eq_refl eq_refl).
Defined.

(** ** Reading the output always returns *)

Lemma length_substring_le (s : string) :
  forall n m, (String.length (substring n m s) <= String.length s)%nat.
Proof.
  induction s as [| c s IH]; intros n m.
  - destruct n, m; cbn; lia.
  - destruct n as [| n]; [destruct m as [| m] |];
      cbn [substring String.length].
    + lia.
    + specialize (IH 0%nat m). lia.
    + specialize (IH n m). lia.
Qed.

Lemma length_group_le (g : nat) (m : nat * captures) (text : string) :
  (String.length (group g m text) <= String.length text)%nat.
Proof.
  unfold group. destruct (assoc g (closed (snd m))) as [[a b] |];
    [apply length_substring_le | cbn; lia].
Qed.

Lemma length_lstrip_le (p : ascii -> bool) (s : string) :
  (String.length (lstrip p s) <= String.length s)%nat.
Proof.
  induction s as [| c s IH]; cbn [lstrip]; [lia |].
  destruct (p c); cbn [String.length]; lia.
Qed.

Lemma length_rstrip_le (p : ascii -> bool) (s : string) :
  (String.length (rstrip p s) <= String.length s)%nat.
Proof.
  induction s as [| c s IH]; cbn [rstrip]; [lia |].
  destruct (rstrip p s) as [| x t].
  - destruct (p c); cbn [String.length]; lia.
  - cbn [String.length] in *. lia.
Qed.

Lemma length_strip_le (s : string) :
  (String.length (strip s) <= String.length s)%nat.
Proof.
  unfold strip. eapply Nat.le_trans;
    [apply length_rstrip_le | apply length_lstrip_le].
Qed.

Lemma length_snoc (s : string) (c : ascii) :
  String.length (snoc s c) = S (String.length s).
Proof. unfold snoc. rewrite length_append. cbn [String.length]. lia. Qed.

Lemma splitlines_from_length (s : string) :
  forall cur after_cr,
    Forall (fun l => (String.length l <= String.length cur + String.length s)%nat)
           (splitlines_from cur after_cr s).
Proof.
  induction s as [| c s IH]; intros cur after_cr;
    cbn [splitlines_from String.length].
  - destruct (String.eqb cur ""); [constructor |].
    constructor; [lia | constructor].
  - destruct (after_cr && Ascii.eqb c "010").
    + eapply List.Forall_impl; [| apply (IH cur false)].
      cbn beta. intros l Hl. lia.
    + destruct (is_linebreak c).
      * constructor; [lia |].
        eapply List.Forall_impl; [| apply (IH "" (Ascii.eqb c "013"))].
        cbn beta. intros l Hl. cbn [String.length] in Hl. lia.
      * eapply List.Forall_impl; [| apply (IH (snoc cur c) false)].
        cbn beta. intros l Hl. rewrite length_snoc in Hl. lia.
Qed.

(** A line of at most 4300 characters is read without error: the index of
    a palette entry is then short enough for [int]. *)
Lemma load_line_returns (parsed : parsed_config) (raw_line : string) :
  (String.length raw_line <= 4300)%nat ->
  exists parsed', load_line parsed raw_line = Some parsed'.
Proof.
  intros Hlen. unfold load_line.
  destruct (_ || _); [eauto |].
  destruct (re_match false KEY_VALUE_RE _) as [kv |]; [| eauto]. cbn zeta.
  destruct (String.eqb _ "palette").
  - destruct (re_match false PALETTE_LINE_RE _) as [pm |]; [| eauto].
    unfold int10.
    match goal with
    | |- context [(String.length ?g <=? 4300)%nat] =>
        assert (Hg : (String.length g <= 4300)%nat)
    end.
    { eapply Nat.le_trans; [apply length_group_le |].
      eapply Nat.le_trans; [apply length_strip_le |].
      eapply Nat.le_trans; [apply length_group_le |].
      eapply Nat.le_trans; [apply length_strip_le | exact Hlen]. }
    apply Nat.leb_le in Hg. rewrite Hg. cbn [mbind option_bind].
    destruct (normalize_hex _); eauto.
  - destruct (_ || _); [| eauto]. destruct (normalize_hex _); eauto.
Qed.

Lemma load_lines_returns (lines : list string) :
  Forall (fun l => (String.length l <= 4300)%nat) lines ->
  forall parsed, exists parsed', load_lines parsed lines = Some parsed'.
Proof.
  induction 1 as [| l lines Hl _ IH]; intros parsed; [eexists; reflexivity |].
  cbn [load_lines]. destruct (load_line_returns parsed l Hl) as (p1 & ->).
  cbn [mbind option_bind]. apply IH.
Qed.

(** X20.  An output of at most 4300 characters is read without error:
    [load_ghostty_config] returns a dictionary that has the key [palette]
    and holds canonical colours only. *)
Theorem load_ghostty_config_returns (text : string) :
  (String.length text <= 4300)%nat ->
  exists parsed,
    load_ghostty_config (Some text) = Some parsed
    /\ has_key parsed = true /\ well_formed parsed.
Proof.
  intros Hlen.
  destruct (load_lines_returns (splitlines text)) with (parsed := Parsed (Some ∅) None None None)
    as (parsed & Hp).
  { eapply List.Forall_impl; [| apply (splitlines_from_length text "" false)].
    cbn beta. intros l Hl. cbn [String.length] in Hl. lia. }
  exists parsed. split; [exact Hp |].
  split; [apply (load_has_key text), Hp |].
  apply (load_ghostty_config_well_formed (Some text)), Hp.
Qed.

Lemma load_ghostty_config_returns_witness :
  (String.length sample_stdout <= 4300)%nat
  /\ exists parsed,
       load_ghostty_config (Some sample_stdout) = Some parsed
       /\ has_key parsed = true /\ well_formed parsed.
Proof.
  assert (Hlen : (String.length sample_stdout <= 4300)%nat)
    by (apply Nat.leb_le; reflexivity).
  split; [exact Hlen |].
  exact (load_ghostty_config_returns sample_stdout Hlen).
Defined.

(** ** Lines *)

Lemma all_chars_snoc (p : ascii -> bool) (s : string) (c : ascii) :
  all_chars p (snoc s c) = all_chars p s && p c.
Proof.
  unfold snoc. rewrite all_chars_append. cbn [all_chars].
  rewrite andb_true_r. reflexivity.
Qed.

(** The lines of [splitlines] hold no line boundary. *)
Lemma splitlines_from_no_breaks (s : string) :
  forall cur after_cr,
    no_breaks cur = true ->
    Forall (fun l => no_breaks l = true) (splitlines_from cur after_cr s).
Proof.
  induction s as [| c s IH]; intros cur after_cr Hcur; cbn [splitlines_from].
  - destruct (String.eqb cur "");
      [constructor | constructor; [exact Hcur | constructor]].
  - destruct (after_cr && Ascii.eqb c "010"); [apply IH, Hcur |].
    destruct (is_linebreak c) eqn:Hc.
    + constructor; [exact Hcur | apply IH; reflexivity].
    + apply IH. unfold no_breaks in *. rewrite all_chars_snoc, Hcur.
      unfold not_linebreak. rewrite Hc. reflexivity.
Qed.

Lemma splitlines_no_breaks (s : string) :
  Forall (fun l => no_breaks l = true) (splitlines s).
Proof. apply splitlines_from_no_breaks. reflexivity. Qed.

(** A line and its newline. *)
Lemma splitlines_from_line (l rest cur : string) :
  no_breaks l = true ->
  splitlines_from cur false (l ++ String "010" rest)
  = (cur ++ l) :: splitlines_from "" false rest.
Proof.
  revert cur. induction l as [| c l IH]; intros cur H.
  - rewrite append_nil_l, append_nil_r. reflexivity.
  - unfold no_breaks in H. cbn [all_chars] in H.
    apply andb_true_iff in H as [Hc H].
    unfold not_linebreak in Hc. apply negb_true_iff in Hc.
    rewrite append_cons. cbn [splitlines_from andb]. rewrite Hc.
    rewrite IH by exact H. unfold snoc. rewrite append_assoc. reflexivity.
Qed.

(** A last line without its newline. *)
Lemma splitlines_from_last (l cur : string) :
  no_breaks l = true ->
  splitlines_from cur false l
  = if String.eqb (cur ++ l) "" then [] else [cur ++ l].
Proof.
  revert cur. induction l as [| c l IH]; intros cur H.
  - rewrite append_nil_r. reflexivity.
  - unfold no_breaks in H. cbn [all_chars] in H.
    apply andb_true_iff in H as [Hc H].
    unfold not_linebreak in Hc. apply negb_true_iff in Hc.
    cbn [splitlines_from andb]. rewrite Hc.
    rewrite IH by exact H. unfold snoc. rewrite append_assoc. reflexivity.
Qed.

Lemma splitlines_terminated (ls : list string) :
  Forall (fun l => no_breaks l = true) ls -> splitlines (terminated ls) = ls.
Proof.
  unfold splitlines. induction 1 as [| l ls Hl _ IH]; [reflexivity |].
  cbn [terminated]. rewrite splitlines_from_line by exact Hl.
  rewrite append_nil_l, IH. reflexivity.
Qed.

Lemma join_lines_terminated (ls : list string) :
  ls <> [] -> join_lines ls ++ String "010" "" = terminated ls.
Proof.
  induction ls as [| l ls IH]; [congruence |]. intros _.
  destruct ls as [| l' ls]; [reflexivity |].
  change (join_lines (l :: l' :: ls))
    with (l ++ String "010" (join_lines (l' :: ls))).
  change (terminated (l :: l' :: ls))
    with (l ++ String "010" (terminated (l' :: ls))).
  rewrite append_assoc, append_cons, IH by discriminate. reflexivity.
Qed.

(** Joining lines and splitting the text again gives the lines back. *)
Lemma splitlines_join_lines (ls : list string) :
  ls <> [] -> Forall (fun l => no_breaks l = true) ls ->
  splitlines (join_lines ls ++ String "010" "") = ls.
Proof.
  intros Hne Hnb. rewrite join_lines_terminated by exact Hne.
  apply splitlines_terminated, Hnb.
Qed.

(** Reading a first part of the text leaves its lines and a state; after a
    newline the state is the initial one. *)
Lemma splitlines_from_app (a : string) :
  forall cur after_cr prev,
    split_state_ok cur after_cr ->
    exists ls cur' after_cr',
      split_state_ok cur' after_cr'
      /\ (forall b, splitlines_from cur after_cr (a ++ b)
                    = (ls ++ splitlines_from cur' after_cr' b)%list)
      /\ (last_char prev a = Some "010"%char ->
          (prev = Some "010"%char -> cur = "" /\ after_cr = false) ->
          cur' = "" /\ after_cr' = false).
Proof.
  induction a as [| c a IH]; intros cur after_cr prev Hok.
  - exists [], cur, after_cr. split; [exact Hok |].
    split; [intros b; reflexivity |].
    intros Hl Hp. exact (Hp Hl).
  - destruct (after_cr && Ascii.eqb c "010") eqn:E1;
      [| destruct (is_linebreak c) eqn:E2].
    + apply andb_true_iff in E1 as [Hcr Hc]. pose proof (Hok Hcr) as Hcur.
      destruct (IH cur false (Some c)) as (ls & cur' & ac' & Hok' & Happ & Hlast).
      { intros H; discriminate H. }
      exists ls, cur', ac'. split; [exact Hok' |]. split.
      * intros b. rewrite append_cons. cbn [splitlines_from].
        rewrite Hcr, Hc. cbn [andb]. apply Happ.
      * intros Hl _. apply Hlast; [exact Hl |]. intros _. auto.
    + destruct (IH "" (Ascii.eqb c "013") (Some c))
        as (ls & cur' & ac' & Hok' & Happ & Hlast).
      { intros _; reflexivity. }
      exists (cur :: ls), cur', ac'. split; [exact Hok' |]. split.
      * intros b. rewrite append_cons. cbn [splitlines_from].
        rewrite E1, E2. cbn [app]. rewrite Happ. reflexivity.
      * intros Hl _. apply Hlast; [exact Hl |].
        intros [= ->]. split; reflexivity.
    + destruct (IH (snoc cur c) false (Some c))
        as (ls & cur' & ac' & Hok' & Happ & Hlast).
      { intros H; discriminate H. }
      exists ls, cur', ac'. split; [exact Hok' |]. split.
      * intros b. rewrite append_cons. cbn [splitlines_from].
        rewrite E1, E2. apply Happ.
      * intros Hl _. apply Hlast; [exact Hl |].
        intros [= ->]. discriminate E2.
Qed.

Lemma last_char_None (s : string) : last_char None s = None -> s = "".
Proof.
  destruct s as [| c s]; [reflexivity |]. cbn [last_char].
  assert (H : forall s prev, exists c', last_char (Some prev) s = Some c').
  { clear. induction s as [| x s IH]; intros prev; [eexists; reflexivity |].
    cbn [last_char]. apply IH. }
  destruct (H s c) as (c' & ->). discriminate.
Qed.

(** A whole line of a text, without line boundary and not empty, is one of
    the text's lines. *)
Lemma whole_line_In (line text : string) :
  no_breaks line = true -> line <> "" ->
  whole_line line text -> In line (splitlines text).
Proof.
  intros Hnb Hne (pre & post & -> & Hbol & Heol). unfold splitlines.
  assert (Hpre : exists ls, forall b,
            splitlines_from "" false (pre ++ b)
            = (ls ++ splitlines_from "" false b)%list).
  { destruct (last_char None pre) as [c |] eqn:El.
    - cbn [at_bol andb] in Hbol. apply Ascii.eqb_eq in Hbol. subst c.
      destruct (splitlines_from_app pre "" false None)
        as (ls & cur' & ac' & _ & Happ & Hlast).
      { intros H; discriminate H. }
      destruct (Hlast El) as [-> ->]; [intros H; discriminate H |].
      exists ls. exact Happ.
    - apply last_char_None in El. subst pre. exists []. intros b. reflexivity. }
  destruct Hpre as (ls & Happ). rewrite Happ. apply in_or_app. right.
  destruct post as [| c r].
  - rewrite append_nil_r, splitlines_from_last by exact Hnb.
    rewrite append_nil_l. destruct (String.eqb_spec line "") as [E | _];
      [contradiction | left; reflexivity].
  - cbn [at_eol] in Heol. apply andb_true_iff in Heol as [Hc _].
    apply Ascii.eqb_eq in Hc. subst c.
    rewrite splitlines_from_line by exact Hnb. left. reflexivity.
Qed.

(** ** The name of the palette *)

Lemma join_lines_app (a b : list string) :
  b <> [] -> join_lines (a ++ b) = terminated a ++ join_lines b.
Proof.
  intros Hb. induction a as [| l a IH]; [reflexivity |].
  cbn [app terminated]. rewrite append_assoc, append_cons, <- IH.
  cbn [join_lines]. destruct (a ++ b)%list eqn:E; [| reflexivity].
  apply app_eq_nil in E as [_ E]. contradiction.
Qed.

Lemma last_char_terminated (lines : list string) :
  at_bol true (last_char None (terminated lines)) = true.
Proof.
  assert (H : forall prev, at_bol true prev = true ->
            at_bol true (last_char prev (terminated lines)) = true).
  { induction lines as [| l ls IH]; intros prev Hp; [exact Hp |].
    cbn [terminated]. rewrite last_char_append. cbn [last_char].
    apply IH. reflexivity. }
  apply H. reflexivity.
Qed.

Lemma run_bol (multiline : bool) (atoms : list atom) (caps : captures)
    (prev : option ascii) (pos : nat) (rest : string) (r : nat * captures) :
  run multiline (Bol :: atoms) caps prev pos rest = Some r ->
  at_bol multiline prev = true.
Proof. cbn [run]. destruct (at_bol multiline prev); [reflexivity | discriminate]. Qed.

(** The search tries every position from the left. *)
Lemma search_from_complete (multiline : bool) (atoms : list atom)
    (skipped rest : string) :
  forall prev pos r,
    run multiline atoms no_captures (last_char prev skipped)
        (pos + String.length skipped) rest = Some r ->
    exists m, search_from multiline atoms prev pos (skipped ++ rest) = Some m.
Proof.
  induction skipped as [| c sk IH]; intros prev pos r Hr.
  - cbn [last_char String.length] in Hr. rewrite Nat.add_0_r in Hr.
    rewrite append_nil_l. destruct r as [stop caps'].
    exists (pos, stop). destruct rest; cbn [search_from]; rewrite Hr; reflexivity.
  - rewrite append_cons. cbn [search_from].
    destruct (run multiline atoms no_captures prev pos (String c (sk ++ rest)))
      as [[stop caps'] |]; [eexists; reflexivity |].
    apply (IH (Some c) (S pos) r).
    cbn [last_char String.length] in Hr. rewrite Nat.add_succ_r in Hr. exact Hr.
Qed.

Lemma palette_line_in_result (config_text : string) :
  exists pre post,
    ensure_palette_name config_text = pre ++ palette_line ++ post
    /\ at_bol true (last_char None pre) = true
    /\ at_eol true post = true.
Proof.
  unfold ensure_palette_name, re_search.
  destruct (search_from true PALETTE_NAME_RE None 0 config_text)
    as [[start stop] |] eqn:Hs.
  - apply search_from_inv in Hs as (skipped & rest & caps' & -> & -> & Hrun).
    cbn [Nat.add] in *.
    pose proof (run_bol _ _ _ _ _ _ _ Hrun) as Hbol.
    change PALETTE_NAME_RE with
      ((Bol :: removelast (tl PALETTE_NAME_RE)) ++ [Eol])%list in Hrun.
    apply run_ends_eol in Hrun as (s & post & -> & -> & Heol).
    exists skipped, post. split; [| split; assumption].
    rewrite substring_prefix. do 2 f_equal.
    rewrite <- append_assoc, <- length_append.
    apply substring_suffix. rewrite !length_append. lia.
  - set (lines := splitlines config_text).
    set (n := first_section lines).
    rewrite join_lines_app by discriminate.
    exists (terminated (firstn n lines)),
           (String "010" (join_lines ("" :: skipn n lines) ++ String "010" "")).
    split; [| split; [apply last_char_terminated | reflexivity]].
    rewrite append_assoc. reflexivity.
Qed.

(** X21.  Whatever the document, the result of [ensure_palette_name] has
    the line that names the palette as one of its lines: it starts the text
    or follows a newline, it ends the text or is followed by one, and
    [splitlines] gives it among the lines of the result. *)
Theorem ensure_palette_name_line (config_text : string) :
  whole_line palette_line (ensure_palette_name config_text)
  /\ In palette_line (splitlines (ensure_palette_name config_text)).
Proof.
  pose proof (palette_line_in_result config_text) as Hline.
  split; [exact Hline |].
  apply whole_line_In; [reflexivity | discriminate | exact Hline].
Qed.

(** The pattern matches a whole line that names the palette. *)
Lemma palette_line_matches (prev : option ascii) (pos : nat) (post : string) :
  at_bol true prev = true -> at_eol true post = true ->
  exists r, run true PALETTE_NAME_RE no_captures prev pos (palette_line ++ post)
            = Some r.
Proof.
  intros Hbol Heol.
  destruct (star_loop_some is_space (run true [Eol] no_captures)
              (Some "'"%char) (27 + pos) post (27 + pos, no_captures)%nat)
    as (y & Hy).
  { cbn [run]. rewrite Heol. reflexivity. }
  exists y.
  cbv [palette_line PALETTE_NAME String.append PALETTE_NAME_RE].
  apply run_Bol; [exact Hbol |].
  match_known. exact Hy.
Qed.

(** X22.  The pattern of [ensure_palette_name] finds a line in the
    function's own result: applied again, the function replaces that line
    and does not insert a second one. *)
Theorem ensure_palette_name_found (config_text : string) :
  exists start stop,
    re_search true PALETTE_NAME_RE (ensure_palette_name config_text)
    = Some (start, stop).
Proof.
  destruct (palette_line_in_result config_text)
    as (pre & post & -> & Hbol & Heol).
  destruct (palette_line_matches (last_char None pre) (0 + String.length pre)
              post Hbol Heol) as (r & Hr).
  destruct (search_from_complete true PALETTE_NAME_RE pre (palette_line ++ post)
              None 0 r Hr) as ([start stop] & Hm).
  exists start, stop. exact Hm.
Qed.

(** The lines before [first_section] open no section; the line at that
    index, if there is one, does. *)
Lemma first_section_spec (lines : list string) :
  forallb (fun l => negb (startswith "[" (strip l)))
          (firstn (first_section lines) lines) = true
  /\ match skipn (first_section lines) lines with
     | [] => True
     | l :: _ => startswith "[" (strip l) = true
     end.
Proof.
  induction lines as [| l lines IH]; [split; [reflexivity | exact I] |].
  cbn [first_section]. destruct (startswith "[" (strip l)) eqn:E.
  - split; [reflexivity | exact E].
  - cbn [firstn skipn forallb]. rewrite E. exact IH.
Qed.

(** X23.  A document without a line that names a palette gets that line
    and a blank one just before its first line that opens a section, or at
    its end when no line does; its own lines are all kept, in their
    order. *)
Theorem ensure_palette_name_inserts (config_text : string) :
  re_search true PALETTE_NAME_RE config_text = None ->
  let lines := splitlines config_text in
  let insert_at := first_section lines in
  splitlines (ensure_palette_name config_text)
  = (firstn insert_at lines ++ [palette_line; ""] ++ skipn insert_at lines)%list
  /\ forallb (fun l => negb (startswith "[" (strip l))) (firstn insert_at lines)
     = true
  /\ match skipn insert_at lines with
     | [] => True
     | l :: _ => startswith "[" (strip l) = true
     end.
Proof.
  intros Hnone lines insert_at. split; [| apply first_section_spec].
  unfold ensure_palette_name. rewrite Hnone. fold lines. fold insert_at.
  pose proof (splitlines_no_breaks config_text) as Hnb. fold lines in Hnb.
  apply splitlines_join_lines.
  - intros E. apply app_eq_nil in E as [_ E]. discriminate E.
  - rewrite <- (firstn_skipn insert_at lines) in Hnb.
    apply Forall_app in Hnb as [Hfirst Hskip].
    apply Forall_app. split; [exact Hfirst |].
    apply Forall_app. split; [repeat constructor | exact Hskip].
Qed.

Lemma ensure_palette_name_inserts_witness :
  re_search true PALETTE_NAME_RE plain_template = None
  /\ splitlines (ensure_palette_name plain_template)
     = (firstn (first_section (splitlines plain_template))
               (splitlines plain_template)
        ++ [palette_line; ""]
        ++ skipn (first_section (splitlines plain_template))
                 (splitlines plain_template))%list
  /\ forallb (fun l => negb (startswith "[" (strip l)))
             (firstn (first_section (splitlines plain_template))
                     (splitlines plain_template))
     = true
  /\ match skipn (first_section (splitlines plain_template))
                 (splitlines plain_template) with
     | [] => True
     | l :: _ => startswith "[" (strip l) = true
     end.
Proof.
  split; [reflexivity |].
  exact (ensure_palette_name_inserts plain_template eq_refl).
Defined.

(** ** The blanks after the name of the palette *)

Lemma star_loop_back {A} (p : ascii -> bool)
    (k : option ascii -> nat -> string -> option A)
    (prev : option ascii) (pos : nat) (c : ascii) (r : string) (x : A) :
  p c = true -> star_loop p (Some c) (S pos) r k = None ->
  k prev pos (String c r) = Some x ->
  star_loop p prev pos (String c r) k = Some x.
Proof. intros Hp Hs Hk. cbn [star_loop]. rewrite Hp, Hs. exact Hk. Qed.

Lemma star_loop_nil_None {A} (p : ascii -> bool)
    (k : option ascii -> nat -> string -> option A)
    (prev : option ascii) (pos : nat) (rest : string) :
  stops p rest = true -> k prev pos rest = None ->
  star_loop p prev pos rest k = None.
Proof.
  intros Hs Hk. destruct rest as [| c r]; cbn [star_loop]; [exact Hk |].
  cbn [stops] in Hs. apply negb_true_iff in Hs. rewrite Hs. exact Hk.
Qed.

Lemma substring_n_0 (s : string) : forall n, substring n 0 s = "".
Proof.
  induction s as [| c s IH]; intros [| n]; cbn [substring];
    [reflexivity | reflexivity | reflexivity | apply IH].
Qed.

(** The match of a line [palette = 'name'] up to its closing quote. *)
Ltac match_palette_setting Hn1 Hn :=
  unfold re_search, PALETTE_NAME_RE;
  rewrite ?append_cons, ?append_nil_l; cbn [search_from];
  match goal with
  | |- context [run ?ml ?atoms ?caps ?prev ?pos ?text] =>
      let r := fresh "r" in
      evar (r : (nat * captures)%type);
      assert (Hrun : run ml atoms caps prev pos text = Some r);
      [ subst r;
        apply run_Bol; [reflexivity |];
        do 7 (apply run_Chr; [reflexivity |]);
        apply run_Star; apply star_loop_cons; [reflexivity |];
        apply star_loop_nil; [reflexivity |];
        apply run_Chr; [reflexivity |];
        apply run_Star; apply star_loop_cons; [reflexivity |];
        apply star_loop_nil; [reflexivity |];
        apply run_Chr; [reflexivity |];
        apply run_Plus; [exact Hn1 |];
        apply star_loop_exact; [exact Hn | reflexivity |];
        rewrite ?append_cons, ?append_nil_l;
        apply run_Chr; [reflexivity |];
        apply run_Star
      | ]
  end.

(** X24.  The pattern of [ensure_palette_name] takes the blanks that
    follow the line it replaces: when nothing else follows, they are all
    removed, final newline included; when a blank line and then a line that
    starts with no blank follow, the blank line is removed. *)
Theorem ensure_palette_name_trailing_blanks (name ws rest : string) :
  name <> "" -> all_chars not_quote name = true ->
  all_chars is_space ws = true ->
  rest <> "" -> stops is_space rest = true ->
  ensure_palette_name ("palette = '" ++ name ++ "'" ++ ws) = palette_line
  /\ ensure_palette_name
       ("palette = '" ++ name ++ "'" ++ String "010" (String "010" rest))
     = palette_line ++ String "010" rest.
Proof.
  intros Hn0 Hn Hws Hr0 Hr.
  destruct name as [| n0 name]; [congruence |].
  cbn [all_chars] in Hn. apply andb_true_iff in Hn as [Hn1 Hn].
  split.
  - unfold ensure_palette_name.
    set (text := "palette = '" ++ String n0 name ++ "'" ++ ws).
    assert (Hs : re_search true PALETTE_NAME_RE text
                 = Some (0, String.length text)%nat).
    { subst text. match_palette_setting Hn1 Hn.
      - apply star_loop_all; [exact Hws |].
        apply run_Eol; [reflexivity |]. reflexivity.
      - rewrite Hrun. subst r. cbn [fst snd]. do 2 f_equal.
        repeat (progress (cbn [String.length]; rewrite ?length_append)). lia. }
    rewrite Hs. cbv beta iota.
    rewrite Nat.sub_diag, !substring_n_0.
    rewrite append_nil_l, append_nil_r. reflexivity.
  - unfold ensure_palette_name.
    set (head := "palette = '" ++ String n0 name ++ "'").
    set (text := "palette = '" ++ String n0 name ++ "'"
                 ++ String "010" (String "010" rest)).
    assert (Htext : text = (head ++ String "010" "") ++ String "010" rest).
    { subst text head. rewrite !append_assoc. reflexivity. }
    assert (Hs : re_search true PALETTE_NAME_RE text
                 = Some (0, String.length (head ++ String "010" ""))%nat).
    { subst text head. match_palette_setting Hn1 Hn.
      - destruct rest as [| r0 rest]; [congruence |].
        cbn [stops] in Hr. apply negb_true_iff in Hr.
        apply star_loop_cons; [reflexivity |].
        apply star_loop_back; [reflexivity | | reflexivity].
        apply star_loop_nil_None; [cbn [stops]; rewrite Hr; reflexivity |].
        cbn [run at_eol].
        destruct (Ascii.eqb_spec r0 "010") as [-> | _];
          [discriminate Hr | reflexivity].
      - rewrite Hrun. subst r. cbn [fst snd]. do 2 f_equal.
        repeat (progress (cbn [String.length]; rewrite ?length_append)). lia. }
    rewrite Hs. cbv beta iota. rewrite substring_0_0, append_nil_l. f_equal.
    rewrite Htext. apply substring_suffix.
    rewrite !length_append. lia.
Qed.

Lemma ensure_palette_name_trailing_blanks_witness :
  "gruvbox" <> "" /\ all_chars not_quote "gruvbox" = true
  /\ all_chars is_space (String "010" "") = true
  /\ "[character]" <> "" /\ stops is_space "[character]" = true
  /\ ensure_palette_name
       ("palette = '" ++ "gruvbox" ++ "'" ++ String "010" "")
     = palette_line
  /\ ensure_palette_name
       ("palette = '" ++ "gruvbox" ++ "'"
        ++ String "010" (String "010" "[character]"))
     = palette_line ++ String "010" "[character]".
Proof.
  assert (H1 : "gruvbox" <> "") by discriminate.
  assert (H2 : "[character]" <> "") by discriminate.
  split; [exact H1 |]. split; [reflexivity |]. split; [reflexivity |].
  split; [exact H2 |]. split; [reflexivity |].
  exact (ensure_palette_name_trailing_blanks "gruvbox" (String "010" "")
           "[character]" H1 eq_refl eq_refl H2 eq_refl).
Defined.

(** ** Rewriting the section of the palette *)

Lemma has_value_line_app (key value : string) (a b : list string) :
  has_value_line key value a \/ has_value_line key value b ->
  has_value_line key value (a ++ b)%list.
Proof.
  intros [(indent & Hi & H) | (indent & Hi & H)]; exists indent;
    (split; [exact Hi | apply in_or_app; auto]).
Qed.

Lemma has_value_line_here (key value : string) (lines : list string) :
  In (value_line key value) lines -> has_value_line key value lines.
Proof. intros H. exists "". split; [reflexivity | exact H]. Qed.

Lemma missing_lines_In (values : list (string * string)) (seen : list string)
    (k v : string) :
  item k values = Some v -> mem k seen = false ->
  In (value_line k v) (missing_lines values seen).
Proof.
  induction values as [| [k' v'] values IH]; cbn [item missing_lines];
    [discriminate |].
  destruct (String.eqb_spec k' k) as [-> | Hne].
  - intros [= ->] Hm. rewrite Hm. left; reflexivity.
  - intros Hg Hm. destruct (mem k' seen); [| right]; apply IH; assumption.
Qed.

Lemma missing_lines_nil (values : list (string * string)) :
  missing_lines values [] = map (fun kv => value_line (fst kv) (snd kv)) values.
Proof.
  induction values as [| [k v] values IH]; [reflexivity |].
  cbn [missing_lines mem existsb map fst snd]. rewrite IH. reflexivity.
Qed.

Lemma item_In (k v : string) (values : list (string * string)) :
  item k values = Some v -> In (k, v) values.
Proof.
  induction values as [| [k' v'] values IH]; cbn [item]; [discriminate |].
  destruct (String.eqb_spec k' k) as [-> | _].
  - intros [= ->]. left; reflexivity.
  - intros H. right. apply IH, H.
Qed.

(** *** Every key gets its line *)

Lemma close_inv (values : list (string * string)) (st : rewriter) :
  rewriter_inv values st -> in_section st = true ->
  rewriter_inv values
    (Rewriter (output st ++ missing_lines values (seen st)) false
              (found_section st) (seen st)).
Proof.
  intros (I1 & I2 & I3) Hin. unfold rewriter_inv; cbn.
  split; [| split].
  - intros k v Hm Hg. apply has_value_line_app. left. exact (I1 k v Hm Hg).
  - intros _ _ k v Hg. apply has_value_line_app.
    destruct (mem k (seen st)) eqn:Hm.
    + left. exact (I1 k v Hm Hg).
    + right. apply has_value_line_here, missing_lines_In; assumption.
  - discriminate.
Qed.

Lemma keep_inv (values : list (string * string)) (st : rewriter) (line : string) :
  rewriter_inv values st ->
  rewriter_inv values
    (Rewriter (output st ++ [line]) (in_section st) (found_section st) (seen st)).
Proof.
  intros (I1 & I2 & I3). unfold rewriter_inv; cbn.
  split; [| split].
  - intros k v Hm Hg. apply has_value_line_app. left. exact (I1 k v Hm Hg).
  - intros Hf Hi k v Hg. apply has_value_line_app. left. exact (I2 Hf Hi k v Hg).
  - exact I3.
Qed.

Lemma open_inv (values : list (string * string)) (st : rewriter) (line : string) :
  rewriter_inv values st ->
  rewriter_inv values (Rewriter (output st ++ [line]) true true (seen st)).
Proof.
  intros (I1 & I2 & I3). unfold rewriter_inv; cbn.
  split; [| split].
  - intros k v Hm Hg. apply has_value_line_app. left. exact (I1 k v Hm Hg).
  - discriminate.
  - reflexivity.
Qed.

Lemma replace_inv (values : list (string * string)) (st : rewriter)
    (indent key value : string) :
  rewriter_inv values st -> all_chars is_space indent = true ->
  item key values = Some value ->
  rewriter_inv values
    (Rewriter (output st ++ [indent ++ value_line key value])
              (in_section st) (found_section st) (key :: seen st)).
Proof.
  intros (I1 & I2 & I3) Hindent Hkey.
  unfold rewriter_inv; cbn [output in_section found_section seen].
  split; [| split].
  - intros k v Hm Hg. apply has_value_line_app.
    cbn [mem existsb] in Hm. destruct (String.eqb_spec k key) as [-> | Hne].
    + right. exists indent. split; [exact Hindent |]. left. congruence.
    + left. exact (I1 k v Hm Hg).
  - intros Hf Hi k v Hg. apply has_value_line_app. left. exact (I2 Hf Hi k v Hg).
  - exact I3.
Qed.

Lemma rewrite_line_inv (values : list (string * string)) (st : rewriter)
    (line : string) :
  rewriter_inv values st -> rewriter_inv values (rewrite_line values st line).
Proof.
  intros Hinv. unfold rewrite_line.
  set (is_header := startswith "[" (strip line) && endswith "]" (strip line)).
  set (st1 := if is_header && in_section st then _ else st).
  assert (H1 : rewriter_inv values st1).
  { subst st1. destruct (is_header && in_section st) eqn:E; [| exact Hinv].
    apply andb_true_iff in E as [_ E]. apply close_inv; assumption. }
  clearbody st1. destruct st1 as [out i f s].
  cbn [output in_section found_section seen].
  destruct (is_header && String.eqb (strip line) section_header).
  - exact (open_inv values _ line H1).
  - assert (Hkeep : rewriter_inv values (Rewriter (out ++ [line]) i f s))
      by exact (keep_inv values _ line H1).
    destruct i; [| exact Hkeep].
    destruct (re_match false VALUE_LINE_RE line) as [m |] eqn:Hm;
      [| exact Hkeep].
    destruct (item (group 2 m line) values) as [value |] eqn:Hg;
      [| exact Hkeep].
    exact (replace_inv values _ _ _ _ H1 (value_line_indent line m Hm) Hg).
Qed.

Lemma fold_rewrite_line_inv (values : list (string * string))
    (lines : list string) (st : rewriter) :
  rewriter_inv values st ->
  rewriter_inv values (fold_left (rewrite_line values) lines st).
Proof.
  revert st. induction lines as [| line lines IH]; intros st H; [exact H |].
  cbn [fold_left]. apply IH, rewrite_line_inv, H.
Qed.

(** Every key of the dictionary has its line among the lines that are
    joined. *)
Lemma updated_lines_value
    (config_text : string) (values : list (string * string)) (k v : string) :
  item k values = Some v ->
  has_value_line k v (updated_lines config_text values).
Proof.
  intros Hg. unfold updated_lines.
  set (st := fold_left (rewrite_line values) (splitlines config_text)
               (Rewriter [] false false [])).
  assert (Hinv : rewriter_inv values st).
  { apply fold_rewrite_line_inv. unfold rewriter_inv; cbn.
    split; [| split]; discriminate. }
  destruct Hinv as (I1 & I2 & I3).
  destruct (found_section st) eqn:Hf.
  - destruct (in_section st) eqn:Hi.
    + apply has_value_line_app. destruct (mem k (seen st)) eqn:Hm.
      * left. exact (I1 k v Hm Hg).
      * right. apply has_value_line_here, missing_lines_In; assumption.
    + exact (I2 eq_refl eq_refl k v Hg).
  - apply has_value_line_app. right. apply has_value_line_here. right.
    apply missing_lines_In; [exact Hg | reflexivity].
Qed.

(** *** The lines that are copied *)

(** Outside the section, and as long as it has not been met, the loop
    copies the lines. *)
Lemma fold_rewrite_line_outside (values : list (string * string))
    (lines : list string) (out seen0 : list string) :
  forallb (fun l => negb (opens_section l)) lines = true ->
  fold_left (rewrite_line values) lines (Rewriter out false false seen0)
  = Rewriter (out ++ lines) false false seen0.
Proof.
  revert out. induction lines as [| line lines IH]; intros out H.
  - rewrite app_nil_r. reflexivity.
  - cbn [forallb] in H. apply andb_true_iff in H as [Hl H].
    apply negb_true_iff in Hl. unfold opens_section in Hl.
    cbn [fold_left].
    assert (E : rewrite_line values (Rewriter out false false seen0) line
                = Rewriter (out ++ [line]) false false seen0).
    { unfold rewrite_line. cbn [in_section output found_section seen].
      rewrite andb_false_r, Hl, andb_false_r. reflexivity. }
    rewrite E, IH by exact H. rewrite <- app_assoc. reflexivity.
Qed.

(** Each round adds at least one line at the end and removes none. *)
Lemma rewrite_line_output (values : list (string * string)) (st : rewriter)
    (line : string) :
  exists l more,
    output (rewrite_line values st line) = (output st ++ more ++ [l])%list.
Proof.
  unfold rewrite_line.
  set (is_header := startswith "[" (strip line) && endswith "]" (strip line)).
  set (st1 := if is_header && in_section st then _ else st).
  assert (H1 : exists more, output st1 = (output st ++ more)%list).
  { subst st1. destruct (is_header && in_section st).
    - eexists. reflexivity.
    - exists []. rewrite app_nil_r. reflexivity. }
  clearbody st1. destruct H1 as (more & E).
  assert (Hadd : forall l, exists l' more',
            (output st1 ++ [l] = output st ++ more' ++ [l'])%list).
  { intros l. exists l, more. rewrite E, app_assoc. reflexivity. }
  destruct (is_header && String.eqb (strip line) section_header); [apply Hadd |].
  destruct (in_section st1) eqn:Hi; [| apply Hadd].
  destruct (re_match false VALUE_LINE_RE line) as [m |]; [| apply Hadd].
  destruct (item (group 2 m line) values); apply Hadd.
Qed.

Lemma fold_rewrite_line_output (values : list (string * string))
    (lines : list string) (st : rewriter) :
  exists more,
    output (fold_left (rewrite_line values) lines st) = (output st ++ more)%list
    /\ (lines <> [] -> more <> []).
Proof.
  revert st. induction lines as [| line lines IH]; intros st.
  - exists []. rewrite app_nil_r. split; [reflexivity | congruence].
  - cbn [fold_left]. destruct (IH (rewrite_line values st line)) as (m2 & E2 & _).
    destruct (rewrite_line_output values st line) as (l & m1 & E1).
    exists ((m1 ++ [l]) ++ m2)%list. rewrite E2, E1, !app_assoc.
    split; [reflexivity |]. intros _ E.
    apply app_eq_nil in E as [E _]. apply app_eq_nil in E as [_ E].
    discriminate E.
Qed.

Lemma fold_rewrite_line_keeps (values : list (string * string))
    (lines : list string) (st : rewriter) (l : string) :
  In l (output st) ->
  In l (output (fold_left (rewrite_line values) lines st)).
Proof.
  intros H. destruct (fold_rewrite_line_output values lines st) as (more & -> & _).
  apply in_or_app; auto.
Qed.

(** A line is copied unless it sets, inside the section, a key of the
    dictionary. *)
Lemma rewrite_line_copies (values : list (string * string)) (st : rewriter)
    (line : string) :
  (forall m, re_match false VALUE_LINE_RE line = Some m ->
             item (group 2 m line) values = None) ->
  In line (output (rewrite_line values st line)).
Proof.
  intros Hkey. unfold rewrite_line.
  set (is_header := startswith "[" (strip line) && endswith "]" (strip line)).
  set (st1 := if is_header && in_section st then _ else st).
  clearbody st1.
  assert (Hadd : In line (output st1 ++ [line])%list)
    by (apply in_or_app; right; left; reflexivity).
  destruct (is_header && String.eqb (strip line) section_header); [exact Hadd |].
  destruct (in_section st1) eqn:Hi; [| exact Hadd].
  destruct (re_match false VALUE_LINE_RE line) as [m |] eqn:Hm; [| exact Hadd].
  rewrite (Hkey m eq_refl). exact Hadd.
Qed.

Lemma fold_rewrite_line_copies (values : list (string * string))
    (lines : list string) (line : string) :
  (forall m, re_match false VALUE_LINE_RE line = Some m ->
             item (group 2 m line) values = None) ->
  forall st, In line lines ->
    In line (output (fold_left (rewrite_line values) lines st)).
Proof.
  intros Hkey. induction lines as [| l ls IH]; intros st Hin; [destruct Hin |].
  cbn [fold_left]. destruct Hin as [-> | Hin].
  - apply fold_rewrite_line_keeps, rewrite_line_copies, Hkey.
  - apply IH, Hin.
Qed.

Lemma updated_lines_output (config_text : string)
    (values : list (string * string)) (l : string) :
  In l (output (fold_left (rewrite_line values) (splitlines config_text)
                  (Rewriter [] false false []))) ->
  In l (updated_lines config_text values).
Proof.
  intros H. unfold updated_lines.
  set (st := fold_left (rewrite_line values) (splitlines config_text)
               (Rewriter [] false false [])) in *.
  set (out1 := if in_section st then _ else _).
  assert (H1 : In l out1).
  { subst out1. destruct (in_section st); [apply in_or_app; left |]; exact H. }
  clearbody out1.
  destruct (found_section st); [exact H1 |].
  apply in_or_app. left.
  destruct (last_is_blank out1); [| apply in_or_app; left]; exact H1.
Qed.

Lemma updated_lines_copies (config_text : string)
    (values : list (string * string)) (line : string) :
  In line (splitlines config_text) ->
  (forall m, re_match false VALUE_LINE_RE line = Some m ->
             item (group 2 m line) values = None) ->
  In line (updated_lines config_text values).
Proof.
  intros Hin Hkey. apply updated_lines_output.
  apply fold_rewrite_line_copies; assumption.
Qed.

(** *** The header of the section *)

Lemma rewrite_line_header (values : list (string * string)) (st : rewriter)
    (line : string) :
  (found_section st = true ->
   exists h, In h (output st) /\ opens_section h = true) ->
  found_section (rewrite_line values st line) = true ->
  exists h, In h (output (rewrite_line values st line))
            /\ opens_section h = true.
Proof.
  intros IH. unfold rewrite_line.
  set (is_header := startswith "[" (strip line) && endswith "]" (strip line)).
  set (st1 := if is_header && in_section st then _ else st).
  assert (H1 : found_section st1 = found_section st
               /\ forall h, In h (output st) -> In h (output st1)).
  { subst st1. destruct (is_header && in_section st); cbn; split; auto.
    intros h Hh. apply in_or_app; auto. }
  clearbody st1. destruct H1 as [Hf Hsub].
  destruct (is_header && String.eqb (strip line) section_header) eqn:E.
  - intros _. apply andb_true_iff in E as [_ E]. exists line.
    split; [apply in_or_app; right; left; reflexivity | exact E].
  - assert (Hgoal : forall x, found_section st1 = true ->
              exists h, In h (output st1 ++ [x])%list /\ opens_section h = true).
    { intros x Hfs. rewrite Hf in Hfs. destruct (IH Hfs) as (h & Hh & Ho).
      exists h. split; [apply in_or_app; left; apply Hsub, Hh | exact Ho]. }
    destruct (in_section st1) eqn:Hi; [| apply Hgoal].
    destruct (re_match false VALUE_LINE_RE line) as [m |]; [| apply Hgoal].
    destruct (item (group 2 m line) values); apply Hgoal.
Qed.

Lemma fold_rewrite_line_header (values : list (string * string))
    (lines : list string) :
  forall st,
    (found_section st = true ->
     exists h, In h (output st) /\ opens_section h = true) ->
    found_section (fold_left (rewrite_line values) lines st) = true ->
    exists h, In h (output (fold_left (rewrite_line values) lines st))
              /\ opens_section h = true.
Proof.
  induction lines as [| l ls IH]; intros st H; [exact H |].
  cbn [fold_left]. apply IH. apply rewrite_line_header, H.
Qed.

(** The result always has a line that opens the section. *)
Lemma updated_lines_header (config_text : string)
    (values : list (string * string)) :
  exists h, In h (updated_lines config_text values) /\ opens_section h = true.
Proof.
  set (st := fold_left (rewrite_line values) (splitlines config_text)
               (Rewriter [] false false [])).
  destruct (found_section st) eqn:Hf.
  - destruct (fold_rewrite_line_header values (splitlines config_text)
                (Rewriter [] false false [])) as (h & Hh & Ho);
      [intros H0; cbn in H0; discriminate H0 | exact Hf |].
    exists h. split; [apply updated_lines_output, Hh | exact Ho].
  - exists section_header. split; [| reflexivity].
    unfold updated_lines.
    change (fold_left (rewrite_line values) (splitlines config_text)
              (Rewriter [] false false [])) with st.
    rewrite Hf. apply in_or_app. right. left. reflexivity.
Qed.

(** *** The text that is returned *)

Lemma value_line_no_breaks (k v : string) :
  no_breaks k = true -> no_breaks v = true ->
  no_breaks (value_line k v) = true.
Proof.
  intros Hk Hv. unfold value_line, no_breaks in *.
  rewrite !all_chars_append, Hk, Hv. reflexivity.
Qed.

Lemma missing_lines_no_breaks (values : list (string * string))
    (seen : list string) :
  values_no_breaks values = true ->
  Forall (fun l => no_breaks l = true) (missing_lines values seen).
Proof.
  induction values as [| [k v] values IH];
    cbn [values_no_breaks forallb missing_lines fst snd]; intros H;
    [constructor |].
  apply andb_true_iff in H as [Hkv H]. apply andb_true_iff in Hkv as [Hk Hv].
  destruct (mem k seen); [apply IH, H |].
  constructor; [apply value_line_no_breaks; assumption | apply IH, H].
Qed.

Lemma rewrite_line_no_breaks (values : list (string * string)) (st : rewriter)
    (line : string) :
  values_no_breaks values = true -> no_breaks line = true ->
  Forall (fun l => no_breaks l = true) (output st) ->
  Forall (fun l => no_breaks l = true) (output (rewrite_line values st line)).
Proof.
  intros Hv Hl Hout. unfold rewrite_line.
  set (is_header := startswith "[" (strip line) && endswith "]" (strip line)).
  set (st1 := if is_header && in_section st then _ else st).
  assert (H1 : Forall (fun l => no_breaks l = true) (output st1)).
  { subst st1. destruct (is_header && in_section st); [| exact Hout].
    cbn [output]. apply Forall_app.
    split; [exact Hout | apply missing_lines_no_breaks, Hv]. }
  clearbody st1.
  assert (Hadd : forall l, no_breaks l = true ->
            Forall (fun l => no_breaks l = true) (output st1 ++ [l])).
  { intros l Hnb. apply Forall_app.
    split; [exact H1 | constructor; [exact Hnb | constructor]]. }
  destruct (is_header && String.eqb (strip line) section_header);
    [apply Hadd, Hl |].
  destruct (in_section st1) eqn:Hi; [| apply Hadd, Hl].
  destruct (re_match false VALUE_LINE_RE line) as [m |]; [| apply Hadd, Hl].
  destruct (item (group 2 m line) values) as [value |] eqn:Hg;
    [| apply Hadd, Hl].
  apply Hadd. unfold no_breaks. rewrite all_chars_append.
  apply andb_true_iff. split; [apply group_all_chars, Hl |].
  apply value_line_no_breaks; [apply group_all_chars, Hl |].
  apply item_In in Hg. unfold values_no_breaks in Hv.
  rewrite forallb_forall in Hv. specialize (Hv _ Hg). cbn [fst snd] in Hv.
  apply andb_true_iff in Hv as [_ Hv]. exact Hv.
Qed.

Lemma fold_rewrite_line_no_breaks (values : list (string * string))
    (lines : list string) :
  values_no_breaks values = true ->
  Forall (fun l => no_breaks l = true) lines ->
  forall st,
    Forall (fun l => no_breaks l = true) (output st) ->
    Forall (fun l => no_breaks l = true)
           (output (fold_left (rewrite_line values) lines st)).
Proof.
  intros Hv Hl. induction Hl as [| l lines Hnb _ IH]; intros st Hout;
    [exact Hout |].
  cbn [fold_left]. apply IH, rewrite_line_no_breaks; assumption.
Qed.

Lemma updated_lines_no_breaks (config_text : string)
    (values : list (string * string)) :
  values_no_breaks values = true ->
  Forall (fun l => no_breaks l = true) (updated_lines config_text values).
Proof.
  intros Hv. unfold updated_lines.
  set (st := fold_left (rewrite_line values) (splitlines config_text)
               (Rewriter [] false false [])).
  assert (Hout : Forall (fun l => no_breaks l = true) (output st)).
  { apply fold_rewrite_line_no_breaks;
      [exact Hv | apply splitlines_no_breaks | constructor]. }
  set (out1 := if in_section st then _ else _).
  assert (H1 : Forall (fun l => no_breaks l = true) out1).
  { subst out1. destruct (in_section st); [| exact Hout].
    apply Forall_app. split; [exact Hout | apply missing_lines_no_breaks, Hv]. }
  clearbody out1.
  destruct (found_section st); [exact H1 |].
  apply Forall_app. split.
  - destruct (last_is_blank out1); [exact H1 |].
    apply Forall_app. split; [exact H1 | repeat constructor].
  - apply Forall_app.
    split; [repeat constructor | apply missing_lines_no_breaks, Hv].
Qed.

Lemma updated_lines_nonempty (config_text : string)
    (values : list (string * string)) :
  updated_lines config_text values <> [].
Proof.
  destruct (updated_lines_header config_text values) as (h & Hh & _).
  intros E. rewrite E in Hh. destruct Hh.
Qed.

(** The text that is returned splits into the lines that were joined. *)
Lemma update_palette_section_lines (config_text : string)
    (values : list (string * string)) :
  values_no_breaks values = true ->
  splitlines (update_palette_section config_text values)
  = updated_lines config_text values.
Proof.
  intros Hv. unfold update_palette_section.
  apply splitlines_join_lines;
    [apply updated_lines_nonempty | apply updated_lines_no_breaks, Hv].
Qed.

(** X25.  For a dictionary whose keys and values hold no line boundary,
    every key has its line [key = 'value'], with the value of the
    dictionary and after blanks only, among the lines of the text that
    [update_palette_section] returns, whatever the document was. *)
Theorem update_writes_every_value
    (config_text : string) (values : list (string * string)) (k v : string) :
  values_no_breaks values = true ->
  item k values = Some v ->
  has_value_line k v (splitlines (update_palette_section config_text values)).
Proof.
  intros Hv Hk. rewrite update_palette_section_lines by exact Hv.
  apply updated_lines_value, Hk.
Qed.

Lemma update_writes_every_value_witness :
  values_no_breaks sample_values = true
  /\ item "color_red" sample_values = Some "#cc241d"
  /\ has_value_line "color_red" "#cc241d"
       (splitlines (update_palette_section sample_template sample_values)).
Proof.
  split; [reflexivity |]. split; [reflexivity |].
  exact (update_writes_every_value sample_template sample_values
           "color_red" "#cc241d" eq_refl eq_refl).
Defined.

(** X26.  A document without the section gets it at its end: the text
    returned has all the lines of the document, a blank line unless the
    last one is blank, then the header and one line for each item of the
    dictionary, in the dictionary's order. *)
Theorem update_appends_missing_section
    (config_text : string) (values : list (string * string)) :
  values_no_breaks values = true ->
  forallb (fun l => negb (opens_section l)) (splitlines config_text) = true ->
  splitlines (update_palette_section config_text values)
  = (splitlines config_text
     ++ (if last_is_blank (splitlines config_text) then [] else [""])
     ++ section_header
        :: map (fun kv => value_line (fst kv) (snd kv)) values)%list.
Proof.
  intros Hv H. rewrite update_palette_section_lines by exact Hv.
  unfold updated_lines.
  rewrite (fold_rewrite_line_outside values _ [] [] H).
  cbn [in_section found_section output app].
  rewrite missing_lines_nil.
  destruct (last_is_blank (splitlines config_text)); [reflexivity |].
  rewrite <- app_assoc. reflexivity.
Qed.

Lemma update_appends_missing_section_witness :
  values_no_breaks sample_values = true
  /\ forallb (fun l => negb (opens_section l)) (splitlines plain_template) = true
  /\ splitlines (update_palette_section plain_template sample_values)
     = (splitlines plain_template
        ++ (if last_is_blank (splitlines plain_template) then [] else [""])
        ++ section_header
           :: map (fun kv => value_line (fst kv) (snd kv)) sample_values)%list.
Proof.
  split; [reflexivity |]. split; [reflexivity |].
  exact (update_appends_missing_section plain_template sample_values
           eq_refl eq_refl).
Defined.

(** X27.  The lines that come before the first line that opens the
    palette's section are left as they are, at the head of the text that
    is returned. *)
Theorem update_keeps_lines_before_section
    (config_text : string) (values : list (string * string))
    (before rest : list string) :
  values_no_breaks values = true ->
  splitlines config_text = (before ++ rest)%list ->
  forallb (fun l => negb (opens_section l)) before = true ->
  exists tail,
    splitlines (update_palette_section config_text values)
    = (before ++ tail)%list.
Proof.
  intros Hv Hsplit Hbefore. rewrite update_palette_section_lines by exact Hv.
  unfold updated_lines.
  rewrite Hsplit, fold_left_app.
  rewrite (fold_rewrite_line_outside values before [] [] Hbefore).
  cbn [app].
  destruct (fold_rewrite_line_output values rest (Rewriter before false false []))
    as (more & E & _).
  cbn [output] in E.
  set (st := fold_left (rewrite_line values) rest (Rewriter before false false [])) in *.
  rewrite E.
  set (out1 := if in_section st then _ else _).
  assert (H1 : exists t, out1 = (before ++ t)%list).
  { subst out1. destruct (in_section st).
    - eexists. rewrite <- app_assoc. reflexivity.
    - eexists. reflexivity. }
  clearbody out1. destruct H1 as (t & ->).
  destruct (found_section st); [eexists; reflexivity |].
  destruct (last_is_blank (before ++ t)).
  - eexists. rewrite <- app_assoc. reflexivity.
  - eexists. rewrite <- !app_assoc. reflexivity.
Qed.

Lemma update_keeps_lines_before_section_witness :
  values_no_breaks sample_values = true
  /\ splitlines sample_template
     = (["format = '$all'"]
        ++ ["[palettes.ghostty_dynamic]"; "color_red = 'stale'"])%list
  /\ forallb (fun l => negb (opens_section l)) ["format = '$all'"] = true
  /\ exists tail,
       splitlines (update_palette_section sample_template sample_values)
       = (["format = '$all'"] ++ tail)%list.
Proof.
  split; [reflexivity |]. split; [reflexivity |]. split; [reflexivity |].
  exact (update_keeps_lines_before_section sample_template sample_values
           ["format = '$all'"] _ eq_refl eq_refl eq_refl).
Defined.

(** ** Rewriting twice *)

Lemma updated_lines_rewrite_lines (config_text : string)
    (values : list (string * string)) :
  updated_lines config_text values
  = rewrite_lines values (splitlines config_text).
Proof. reflexivity. Qed.

Lemma is_word_char_facts (c : ascii) :
  is_word_char c = true -> is_space c = false /\ c <> "["%char.
Proof.
  destruct c as [[] [] [] [] [] [] [] []]; intros H; vm_compute in H;
    try discriminate H; (split; [reflexivity | discriminate]).
Qed.

Lemma substring_middle (a b c : string) :
  substring (String.length a) (String.length b) (a ++ b ++ c) = b.
Proof.
  induction a as [| x a IH]; [rewrite append_nil_l; apply substring_prefix |].
  rewrite append_cons. cbn [String.length substring]. exact IH.
Qed.

(** The pattern of [update_palette_section] reads the lines that the
    function writes. *)
Lemma value_line_match (indent key value : string) :
  all_chars is_space indent = true ->
  key <> "" -> all_chars is_word_char key = true ->
  all_chars not_quote value = true ->
  exists m,
    re_match false VALUE_LINE_RE (indent ++ value_line key value) = Some m
    /\ group 1 m (indent ++ value_line key value) = indent
    /\ group 2 m (indent ++ value_line key value) = key.
Proof.
  intros Hi Hk0 Hk Hv.
  destruct key as [| k0 key]; [congruence |].
  cbn [all_chars] in Hk. apply andb_true_iff in Hk as [Hk1 Hk].
  pose proof (is_word_char_facts k0 Hk1) as [Hsp _].
  unfold value_line.
  eexists. split; [| split].
  - unfold re_match, VALUE_LINE_RE. rewrite append_cons.
    apply run_Bol; [reflexivity |]. apply run_Open. apply run_Star.
    apply star_loop_exact;
      [exact Hi | cbn [stops]; rewrite Hsp; reflexivity |].
    apply run_Close with (start := 0%nat); [reflexivity |].
    apply run_Open. apply run_Plus; [exact Hk1 |].
    apply star_loop_exact; [exact Hk | reflexivity |].
    eapply run_Close; [reflexivity |].
    apply run_Star.
    change (" = '" ++ value ++ "'")
      with (String " " (String "=" (String " " (String "'" (value ++ "'"))))).
    apply star_loop_cons; [reflexivity |].
    apply star_loop_nil; [reflexivity |].
    apply run_Chr; [reflexivity |]. apply run_Star.
    apply star_loop_cons; [reflexivity |].
    apply star_loop_nil; [reflexivity |].
    apply run_Open. apply run_Chr; [reflexivity |].
    eapply run_Close; [reflexivity |].
    apply run_Open. apply run_Star.
    apply star_loop_exact; [exact Hv | reflexivity |].
    eapply run_Close; [reflexivity |].
    apply run_Open. apply run_Chr; [reflexivity |].
    eapply run_Close; [reflexivity |].
    apply run_Star. apply star_loop_nil; [reflexivity |].
    apply run_Eol; [reflexivity |]. reflexivity.
  - unfold group. cbn [snd closed assoc Nat.eqb].
    rewrite Nat.add_0_l, Nat.sub_0_r. apply substring_prefix.
  - unfold group. cbn [snd closed assoc Nat.eqb].
    match goal with
    | |- substring ?a ?b _ = _ =>
        replace b with (String.length (String k0 key))
          by (cbn [String.length]; lia);
        replace a with (String.length indent) by lia
    end.
    apply substring_middle.
Qed.

Lemma lstrip_spaces (indent rest : string) :
  all_chars is_space indent = true ->
  lstrip is_space (indent ++ rest) = lstrip is_space rest.
Proof.
  induction indent as [| c indent IH]; [reflexivity |].
  cbn [all_chars]. intros H. apply andb_true_iff in H as [Hc H].
  rewrite append_cons. cbn [lstrip]. rewrite Hc. apply IH, H.
Qed.

Lemma rstrip_head (p : ascii -> bool) (c : ascii) (r : string) :
  p c = false -> exists t, rstrip p (String c r) = String c t.
Proof.
  intros H. cbn [rstrip]. destruct (rstrip p r); [rewrite H |]; eauto.
Qed.

Lemma value_line_not_header (indent key value : string) :
  all_chars is_space indent = true ->
  key <> "" -> all_chars is_word_char key = true ->
  startswith "[" (strip (indent ++ value_line key value)) = false.
Proof.
  intros Hi Hk0 Hk. destruct key as [| k0 key]; [congruence |].
  cbn [all_chars] in Hk. apply andb_true_iff in Hk as [Hk1 _].
  apply is_word_char_facts in Hk1 as [Hsp Hne].
  unfold strip, value_line. rewrite lstrip_spaces by exact Hi.
  rewrite append_cons. cbn [lstrip]. rewrite Hsp.
  destruct (rstrip_head is_space k0 (key ++ " = '" ++ value ++ "'") Hsp)
    as (t & ->).
  unfold startswith. cbn [String.prefix].
  destruct (ascii_dec "[" k0) as [E | _]; [congruence | reflexivity].
Qed.

(** Inside the section, a line that the function wrote is written again
    as it is, and its key is seen. *)
Lemma rewrite_value_line (values : list (string * string))
    (out sn : list string) (f : bool) (indent key value : string) :
  all_chars is_space indent = true ->
  key <> "" -> all_chars is_word_char key = true ->
  all_chars not_quote value = true ->
  item key values = Some value ->
  rewrite_line values (Rewriter out true f sn) (indent ++ value_line key value)
  = Rewriter (out ++ [indent ++ value_line key value]) true f (key :: sn).
Proof.
  intros Hi Hk0 Hk Hv Hitem.
  destruct (value_line_match indent key value Hi Hk0 Hk Hv) as (m & Em & G1 & G2).
  unfold rewrite_line.
  rewrite (value_line_not_header indent key value Hi Hk0 Hk).
  cbn [andb in_section output found_section seen].
  rewrite Em, G1, G2, Hitem. reflexivity.
Qed.

Lemma mem_cons (k x : string) (l : list string) :
  mem k (x :: l) = String.eqb k x || mem k l.
Proof. reflexivity. Qed.

Lemma mem_In (k : string) (l : list string) : In k l -> mem k l = true.
Proof.
  intros H. unfold mem. apply existsb_exists. exists k.
  split; [exact H | apply String.eqb_refl].
Qed.

Lemma item_distinct (values : list (string * string)) (k v : string) :
  distinct (map fst values) = true -> In (k, v) values ->
  item k values = Some v.
Proof.
  induction values as [| [k' v'] vs IH]; [intros _ [] |].
  cbn [map fst distinct item In]. intros Hd Hin.
  apply andb_true_iff in Hd as [Hk' Hd]. apply negb_true_iff in Hk'.
  destruct Hin as [[= -> ->] | Hin]; [rewrite String.eqb_refl; reflexivity |].
  destruct (String.eqb_spec k' k) as [-> | _]; [| apply IH; assumption].
  rewrite (mem_In k (map fst vs)) in Hk'; [discriminate |].
  exact (in_map fst vs (k, v) Hin).
Qed.

Lemma plain_item (values : list (string * string)) (k v : string) :
  plain_values values = true -> In (k, v) values ->
  item k values = Some v
  /\ k <> "" /\ all_chars is_word_char k = true
  /\ all_chars not_quote v = true.
Proof.
  intros Hp Hin. unfold plain_values in Hp.
  apply andb_true_iff in Hp as [Hd Hall].
  split; [apply item_distinct; assumption |].
  rewrite forallb_forall in Hall. specialize (Hall _ Hin). cbn [fst snd] in Hall.
  apply andb_true_iff in Hall as [Hall Hq].
  apply andb_true_iff in Hall as [Hne Hw].
  apply negb_true_iff in Hne.
  split; [intros ->; discriminate Hne |]. auto.
Qed.

(** Read inside the section, the lines written for the keys that were
    missing are written again as they are, and all their keys are seen. *)
Lemma fold_missing_lines (values : list (string * string))
    (seen1 : list string) :
  plain_values values = true ->
  forall vs out f sn,
    (forall k v, In (k, v) vs -> In (k, v) values) ->
    exists sn',
      fold_left (rewrite_line values) (missing_lines vs seen1)
                (Rewriter out true f sn)
      = Rewriter (out ++ missing_lines vs seen1) true f sn'
      /\ (forall k, mem k sn = true -> mem k sn' = true)
      /\ (forall k v, In (k, v) vs -> mem k seen1 = false ->
                      mem k sn' = true).
Proof.
  intros Hp. induction vs as [| [k v] vs IH]; intros out f sn Hvs.
  - exists sn. cbn [missing_lines fold_left]. rewrite app_nil_r.
    split; [reflexivity |]. split; [auto |]. intros k v [].
  - cbn [missing_lines]. destruct (mem k seen1) eqn:Hm.
    + destruct (IH out f sn) as (sn' & E & H1 & H2).
      { intros k' v' Hin. apply Hvs. right. exact Hin. }
      exists sn'. split; [exact E |]. split; [exact H1 |].
      intros k' v' [[= <- <-] | Hin] Hk'; [congruence | eapply H2; eauto].
    + destruct (plain_item values k v Hp (Hvs k v (or_introl eq_refl)))
        as (Hitem & Hk0 & Hk & Hv).
      cbn [fold_left].
      change (value_line k v) with ("" ++ value_line k v) at 1.
      rewrite (rewrite_value_line values out sn f "" k v eq_refl Hk0 Hk Hv Hitem).
      rewrite append_nil_l.
      destruct (IH (out ++ [value_line k v])%list f (k :: sn)) as (sn' & E & H1 & H2).
      { intros k' v' Hin. apply Hvs. right. exact Hin. }
      exists sn'. split; [rewrite E, <- app_assoc; reflexivity |]. split.
      * intros k' Hk'. apply H1. rewrite mem_cons, Hk', orb_true_r.
        reflexivity.
      * intros k' v' [[= <- <-] | Hin] Hk'; [| eapply H2; eauto].
        apply H1. rewrite mem_cons, String.eqb_refl. reflexivity.
Qed.

Lemma missing_lines_none (values : list (string * string)) (sn : list string) :
  (forall k v, In (k, v) values -> mem k sn = true) ->
  missing_lines values sn = [].
Proof.
  induction values as [| [k v] vs IH]; intros H; [reflexivity |].
  cbn [missing_lines]. rewrite (H k v (or_introl eq_refl)).
  apply IH. intros k' v' Hin. apply (H k' v'). right. exact Hin.
Qed.

(** Reading the lines written at the end of the section, then closing the
    section, adds nothing. *)
Lemma fold_missing_lines_all (values : list (string * string))
    (out sn sn1 : list string) (f : bool) :
  plain_values values = true ->
  (forall k, mem k sn1 = true -> mem k sn = true) ->
  exists sn',
    fold_left (rewrite_line values) (missing_lines values sn1)
              (Rewriter out true f sn)
    = Rewriter (out ++ missing_lines values sn1) true f sn'
    /\ (forall k, mem k sn = true -> mem k sn' = true)
    /\ missing_lines values sn' = [].
Proof.
  intros Hp Hsub.
  destruct (fold_missing_lines values sn1 Hp values out f sn)
    as (sn' & E & H1 & H2); [auto |].
  exists sn'. split; [exact E |]. split; [exact H1 |].
  apply missing_lines_none. intros k v Hin.
  destruct (mem k sn1) eqn:Hm; [apply H1, Hsub, Hm | exact (H2 k v Hin Hm)].
Qed.

(** One round on a document, then the rounds on what it wrote. *)
Lemma rewrite_line_agree (values : list (string * string))
    (s s' : rewriter) (l : string) :
  plain_values values = true -> agree s s' ->
  exists chunk,
    output (rewrite_line values s l) = (output s ++ chunk)%list
    /\ agree (rewrite_line values s l)
             (fold_left (rewrite_line values) chunk s').
Proof.
  intros Hp (Ho & Hi & Hf & Hsub).
  destruct s as [out i f sn], s' as [out' i' f' sn'].
  cbn [output in_section found_section seen] in *. subst out' i' f'.
  destruct (startswith "[" (strip l) && endswith "]" (strip l)) eqn:Hh;
    [destruct i |].
  - (* a header that closes the section *)
    assert (E : forall out0 sn0,
      rewrite_line values (Rewriter out0 true f sn0) l
      = if String.eqb (strip l) section_header
        then Rewriter ((out0 ++ missing_lines values sn0) ++ [l]) true true sn0
        else Rewriter ((out0 ++ missing_lines values sn0) ++ [l]) false f sn0).
    { intros out0 sn0. unfold rewrite_line.
      cbn [in_section output found_section seen]. rewrite Hh. cbn [andb].
      destruct (String.eqb (strip l) section_header); reflexivity. }
    destruct (fold_missing_lines_all values out sn' sn f Hp Hsub)
      as (sn'' & EM & H1 & Hnone).
    exists (missing_lines values sn ++ [l])%list.
    rewrite fold_left_app, EM. cbn [fold_left]. rewrite !E, Hnone, app_nil_r.
    destruct (String.eqb (strip l) section_header);
      cbn [output]; (split; [rewrite <- app_assoc; reflexivity |]);
      unfold agree; cbn [output in_section found_section seen]; auto 6.
  - (* a header outside the section *)
    assert (E : forall sn0,
      rewrite_line values (Rewriter out false f sn0) l
      = if String.eqb (strip l) section_header
        then Rewriter (out ++ [l]) true true sn0
        else Rewriter (out ++ [l]) false f sn0).
    { intros sn0. unfold rewrite_line.
      cbn [in_section output found_section seen]. rewrite Hh. cbn [andb].
      destruct (String.eqb (strip l) section_header); reflexivity. }
    exists [l]. cbn [fold_left]. rewrite !E.
    destruct (String.eqb (strip l) section_header);
      cbn [output]; (split; [reflexivity |]);
      unfold agree; cbn [output in_section found_section seen]; auto 6.
  - (* a line that is no header *)
    destruct i.
    + destruct (re_match false VALUE_LINE_RE l) as [m |] eqn:Hm.
      * destruct (item (group 2 m l) values) as [value |] eqn:Hitem.
        -- (* a value that is replaced *)
           assert (E : rewrite_line values (Rewriter out true f sn) l
                       = Rewriter (out ++ [group 1 m l
                                           ++ value_line (group 2 m l) value])
                                  true f (group 2 m l :: sn)).
           { unfold rewrite_line.
             cbn [in_section output found_section seen]. rewrite Hh. cbn [andb].
             rewrite Hm, Hitem. reflexivity. }
           destruct (plain_item values _ _ Hp (item_In _ _ _ Hitem))
             as (_ & Hk0 & Hk & Hv).
           exists [group 1 m l ++ value_line (group 2 m l) value].
           cbn [fold_left]. rewrite E.
           rewrite (rewrite_value_line values out sn' f _ _ _
                      (value_line_indent l m Hm) Hk0 Hk Hv Hitem).
           cbn [output]. split; [reflexivity |].
           unfold agree; cbn [output in_section found_section seen].
           repeat (split; [reflexivity |]).
           intros k Hk'. rewrite mem_cons in *.
           apply orb_true_iff in Hk' as [Hk' | Hk'];
             [rewrite Hk'; reflexivity |].
           rewrite (Hsub k Hk'), orb_true_r. reflexivity.
        -- assert (E : forall sn0,
             rewrite_line values (Rewriter out true f sn0) l
             = Rewriter (out ++ [l]) true f sn0).
           { intros sn0. unfold rewrite_line.
             cbn [in_section output found_section seen]. rewrite Hh. cbn [andb].
             rewrite Hm, Hitem. reflexivity. }
           exists [l]. cbn [fold_left]. rewrite !E. cbn [output].
           split; [reflexivity |].
           unfold agree; cbn [output in_section found_section seen]; auto 6.
      * assert (E : forall sn0,
          rewrite_line values (Rewriter out true f sn0) l
          = Rewriter (out ++ [l]) true f sn0).
        { intros sn0. unfold rewrite_line.
          cbn [in_section output found_section seen]. rewrite Hh. cbn [andb].
          rewrite Hm. reflexivity. }
        exists [l]. cbn [fold_left]. rewrite !E. cbn [output].
        split; [reflexivity |].
        unfold agree; cbn [output in_section found_section seen]; auto 6.
    + assert (E : forall sn0,
        rewrite_line values (Rewriter out false f sn0) l
        = Rewriter (out ++ [l]) false f sn0).
      { intros sn0. unfold rewrite_line.
        cbn [in_section output found_section seen]. rewrite Hh. cbn [andb].
        reflexivity. }
      exists [l]. cbn [fold_left]. rewrite !E. cbn [output].
      split; [reflexivity |].
      unfold agree; cbn [output in_section found_section seen]; auto 6.
Qed.

Lemma fold_rewrite_line_agree (values : list (string * string))
    (lines : list string) :
  plain_values values = true ->
  forall s,
    agree s (fold_left (rewrite_line values) (output s)
                       (Rewriter [] false false [])) ->
    let s1 := fold_left (rewrite_line values) lines s in
    agree s1 (fold_left (rewrite_line values) (output s1)
                        (Rewriter [] false false [])).
Proof.
  intros Hp. induction lines as [| l lines IH]; intros s Hs; [exact Hs |].
  cbn [fold_left]. apply IH.
  destruct (rewrite_line_agree values s _ l Hp Hs) as (chunk & -> & Hagree).
  rewrite fold_left_app. exact Hagree.
Qed.

(** Rewriting the lines that were written changes nothing. *)
Lemma rewrite_lines_twice (values : list (string * string))
    (lines : list string) :
  plain_values values = true ->
  rewrite_lines values (rewrite_lines values lines)
  = rewrite_lines values lines.
Proof.
  intros Hp. unfold rewrite_lines at 2 3.
  pose proof (fold_rewrite_line_agree values lines Hp
                (Rewriter [] false false [])) as Hagree.
  cbn zeta in Hagree.
  set (s := fold_left (rewrite_line values) lines (Rewriter [] false false []))
    in *.
  assert (Hinv : in_section s = true -> found_section s = true).
  { subst s. apply (fold_rewrite_line_inv values lines).
    unfold rewriter_inv; cbn. split; [| split]; discriminate. }
  specialize (Hagree ltac:(unfold agree; cbn; auto)).
  set (s' := fold_left (rewrite_line values) (output s)
               (Rewriter [] false false [])) in *.
  destruct Hagree as (Ho & Hi & Hf & Hsub).
  unfold rewrite_lines, finish.
  destruct (found_section s) eqn:Efound.
  - destruct (in_section s) eqn:Ein.
    + destruct (fold_missing_lines_all values (output s') (seen s') (seen s)
                  (found_section s') Hp Hsub) as (sn'' & EM & _ & Hnone).
      rewrite fold_left_app. fold s'.
      replace s' with (Rewriter (output s') true (found_section s') (seen s'))
        by (destruct s'; cbn in *; congruence).
      rewrite EM. cbn [in_section found_section output seen].
      rewrite Hnone, app_nil_r, Hf, Ho. reflexivity.
    + fold s'. rewrite Hi, Hf, Ho. reflexivity.
  - assert (Ein : in_section s = false).
    { destruct (in_section s); [discriminate (Hinv eq_refl) | reflexivity]. }
    rewrite Ein.
    set (pre := if last_is_blank (output s) then output s
                else (output s ++ [""])%list).
    assert (Epre : fold_left (rewrite_line values) pre
                     (Rewriter [] false false [])
                   = Rewriter pre false false (seen s')).
    { subst pre. destruct (last_is_blank (output s)).
      - fold s'. destruct s'; cbn in *; congruence.
      - rewrite fold_left_app. fold s'.
        replace s' with (Rewriter (output s) false false (seen s'))
          by (destruct s'; cbn in *; congruence).
        reflexivity. }
    rewrite fold_left_app, Epre.
    change ([section_header] ++ missing_lines values [])%list
      with (section_header :: missing_lines values []).
    cbn [fold_left].
    assert (Ehead : rewrite_line values (Rewriter pre false false (seen s'))
                      section_header
                    = Rewriter (pre ++ [section_header]) true true (seen s'))
      by reflexivity.
    rewrite Ehead.
    destruct (fold_missing_lines_all values (pre ++ [section_header])%list
                (seen s') [] true Hp) as (sn'' & EM & _ & Hnone);
      [intros k Hk; discriminate Hk |].
    rewrite EM. cbn [in_section found_section output seen].
    rewrite Hnone, app_nil_r, <- app_assoc. reflexivity.
Qed.

(** X28.  For a dictionary of distinct keys made of letters, digits and
    underscores, with values that hold neither quote nor line boundary,
    [update_palette_section] applied to its own result returns it
    unchanged. *)
Theorem update_palette_section_idempotent
    (config_text : string) (values : list (string * string)) :
  plain_values values = true -> values_no_breaks values = true ->
  update_palette_section (update_palette_section config_text values) values
  = update_palette_section config_text values.
Proof.
  intros Hp Hnb. unfold update_palette_section at 1.
  rewrite updated_lines_rewrite_lines.
  rewrite update_palette_section_lines by exact Hnb.
  rewrite updated_lines_rewrite_lines.
  rewrite rewrite_lines_twice by exact Hp. reflexivity.
Qed.

Lemma update_palette_section_idempotent_witness :
  plain_values sample_values = true /\ values_no_breaks sample_values = true
  /\ update_palette_section
       (update_palette_section sample_template sample_values) sample_values
     = update_palette_section sample_template sample_values.
Proof.
  split; [reflexivity |]. split; [reflexivity |].
  exact (update_palette_section_idempotent sample_template sample_values
           eq_refl eq_refl).
Defined.

(** ** The text that is written *)

Lemma is_lower_hex_not_linebreak (c : ascii) :
  is_lower_hex c = true -> not_linebreak c = true.
Proof.
  destruct c as [[] [] [] [] [] [] [] []]; intros H; vm_compute in H;
    try discriminate H; reflexivity.
Qed.

Lemma canonical_no_breaks (s : string) :
  canonical s = true -> no_breaks s = true.
Proof.
  destruct s as [| h s]; [discriminate |].
  destruct (Ascii.eqb_spec h "#") as [-> | Hne].
  2:{ intros H; exfalso; revert H; cbn.
      destruct h as [[] [] [] [] [] [] [] []]; try discriminate; congruence. }
  destruct s as [| c1 [| c2 [| c3 [| c4 [| c5 [| c6 [| ? ?]]]]]]];
    try discriminate.
  cbn [canonical]. rewrite !andb_true_iff.
  intros [[[[[H1 H2] H3] H4] H5] H6].
  unfold no_breaks. cbn [all_chars].
  rewrite (is_lower_hex_not_linebreak c1 H1), (is_lower_hex_not_linebreak c2 H2),
    (is_lower_hex_not_linebreak c3 H3), (is_lower_hex_not_linebreak c4 H4),
    (is_lower_hex_not_linebreak c5 H5), (is_lower_hex_not_linebreak c6 H6).
  reflexivity.
Qed.

Lemma item_of_key (k : string) (d : list (string * string)) :
  In k (map fst d) -> exists v, item k d = Some v /\ In v (map snd d).
Proof.
  induction d as [| [k' v'] d IH]; cbn [map fst snd item In]; [intros [] |].
  destruct (String.eqb_spec k' k) as [-> | Hne].
  - intros _. exists v'. auto.
  - intros [E | Hin]; [contradiction |].
    destruct (IH Hin) as (v & Hv & Hin'). exists v. auto.
Qed.

Lemma item_not_key (k : string) (d : list (string * string)) :
  mem k (map fst d) = false -> item k d = None.
Proof.
  induction d as [| [k' v'] d IH]; cbn [map fst mem existsb item];
    [reflexivity |].
  intros H. apply orb_false_iff in H as [H1 H2].
  rewrite String.eqb_sym, H1. apply IH, H2.
Qed.

(** The dictionary of the palette has no line boundary. *)
Lemma palette_no_breaks (pal : list (string * string)) :
  map fst pal = slot_names ->
  Forall (fun s => canonical s = true) (map snd pal) ->
  values_no_breaks pal = true.
Proof.
  intros Hk Hv. unfold values_no_breaks. apply forallb_forall.
  intros [k v] Hin. cbn [fst snd]. apply andb_true_iff. split.
  - assert (Hslots : forallb no_breaks slot_names = true) by reflexivity.
    rewrite forallb_forall in Hslots. apply Hslots. rewrite <- Hk.
    exact (in_map fst pal (k, v) Hin).
  - apply canonical_no_breaks. rewrite List.Forall_forall in Hv. apply Hv.
    exact (in_map snd pal (k, v) Hin).
Qed.

(** The line that names the palette is never taken for one of the
    palette's values. *)
Lemma palette_line_copied (config_text : string) (pal : list (string * string)) :
  map fst pal = slot_names ->
  In palette_line (splitlines config_text) ->
  In palette_line (updated_lines config_text pal).
Proof.
  intros Hk Hin. apply updated_lines_copies; [exact Hin |].
  assert (Hm : exists m0, re_match false VALUE_LINE_RE palette_line = Some m0
                          /\ group 2 m0 palette_line = "palette").
  { eexists. split; vm_compute; reflexivity. }
  destruct Hm as (m0 & Em & Eg). intros m Hm. rewrite Em in Hm.
  injection Hm as <-. rewrite Eg. apply item_not_key. rewrite Hk. reflexivity.
Qed.

(** X29.  When the command fails, the text that is written is the
    template.  When it gave an output that is read, the text that is written
    has the line that names the palette, a line that opens the palette's
    section and, for each of the nineteen slots, a line that sets it to a
    canonical colour. *)
Theorem rendered_spec (template_text text : string) (parsed : parsed_config) :
  load_ghostty_config (Some text) = Some parsed ->
  rendered template_text None = Some template_text
  /\ exists out,
       rendered template_text (Some text) = Some out
       /\ In palette_line (splitlines out)
       /\ (exists h, In h (splitlines out) /\ opens_section h = true)
       /\ forall slot, In slot slot_names ->
            exists c, canonical c = true
                      /\ has_value_line slot c (splitlines out).
Proof.
  intros Hload. split; [reflexivity |].
  pose proof (load_ghostty_config_well_formed _ _ Hload) as Hwf.
  destruct (build_spec parsed Hwf)
    as (i & a & pal & _ & _ & _ & _ & _ & Eb & Hk & Hv).
  pose proof (palette_no_breaks pal Hk Hv) as Hnb.
  unfold rendered. rewrite Hload. cbn [mbind option_bind].
  rewrite (load_has_key text parsed Hload), Eb. cbn [mbind option_bind].
  eexists. split; [reflexivity |].
  rewrite update_palette_section_lines by exact Hnb.
  split; [| split].
  - apply palette_line_copied; [exact Hk |].
    apply whole_line_In; [reflexivity | discriminate |].
    apply palette_line_in_result.
  - apply updated_lines_header.
  - intros slot Hin. rewrite <- Hk in Hin.
    destruct (item_of_key slot pal Hin) as (c & Hc & Hcin).
    exists c. split; [| apply updated_lines_value, Hc].
    rewrite List.Forall_forall in Hv. apply Hv, Hcin.
Qed.

Lemma rendered_spec_witness :
  load_ghostty_config (Some sample_stdout)
  = Some (Parsed (Some {[ 1%Z := "#cc241d" ]}) None (Some "#1d2021") None)
  /\ rendered plain_template None = Some plain_template
  /\ exists out,
       rendered plain_template (Some sample_stdout) = Some out
       /\ In palette_line (splitlines out)
       /\ (exists h, In h (splitlines out) /\ opens_section h = true)
       /\ forall slot, In slot slot_names ->
            exists c, canonical c = true
                      /\ has_value_line slot c (splitlines out).
Proof.
  split; [exact sample_stdout_loaded |].
  exact (rendered_spec plain_template sample_stdout _ sample_stdout_loaded).
Defined.

(** ** The palette as the writer needs it *)

Lemma is_lower_hex_not_quote (c : ascii) :
  is_lower_hex c = true -> not_quote c = true.
Proof.
  destruct c as [[] [] [] [] [] [] [] []]; intros H; vm_compute in H;
    try discriminate H; reflexivity.
Qed.

Lemma canonical_not_quote (s : string) :
  canonical s = true -> all_chars not_quote s = true.
Proof.
  destruct s as [| h s]; [discriminate |].
  destruct (Ascii.eqb_spec h "#") as [-> | Hne].
  2:{ intros H; exfalso; revert H; cbn.
      destruct h as [[] [] [] [] [] [] [] []]; try discriminate; congruence. }
  destruct s as [| c1 [| c2 [| c3 [| c4 [| c5 [| c6 [| ? ?]]]]]]];
    try discriminate.
  cbn [canonical]. rewrite !andb_true_iff.
  intros [[[[[H1 H2] H3] H4] H5] H6].
  cbn [all_chars].
  rewrite (is_lower_hex_not_quote c1 H1), (is_lower_hex_not_quote c2 H2),
    (is_lower_hex_not_quote c3 H3), (is_lower_hex_not_quote c4 H4),
    (is_lower_hex_not_quote c5 H5), (is_lower_hex_not_quote c6 H6).
  reflexivity.
Qed.

Lemma palette_plain (pal : list (string * string)) :
  map fst pal = slot_names ->
  Forall (fun s => canonical s = true) (map snd pal) ->
  plain_values pal = true.
Proof.
  intros Hk Hv. unfold plain_values. rewrite Hk.
  apply andb_true_iff. split; [reflexivity |].
  apply forallb_forall. intros [k v] Hin. cbn [fst snd].
  apply andb_true_iff. split.
  - assert (Hslots : forallb (fun k => negb (String.eqb k "")
                                       && all_chars is_word_char k)
                             slot_names = true) by reflexivity.
    rewrite forallb_forall in Hslots. apply Hslots. rewrite <- Hk.
    exact (in_map fst pal (k, v) Hin).
  - apply canonical_not_quote. rewrite List.Forall_forall in Hv. apply Hv.
    exact (in_map snd pal (k, v) Hin).
Qed.

(** X30.  The dictionary that [build_starship_palette] returns is one
    that [update_palette_section] writes and reads back: its keys are
    distinct and made of letters, digits and underscores, its values hold
    no quote, and neither holds a line boundary. *)
Theorem palette_fits_writer (parsed : parsed_config) :
  well_formed parsed ->
  exists pal,
    build_starship_palette parsed = Some pal
    /\ plain_values pal = true /\ values_no_breaks pal = true.
Proof.
  intros Hwf.
  destruct (build_spec parsed Hwf)
    as (i & a & pal & _ & _ & _ & _ & _ & Eb & Hk & Hv).
  exists pal. split; [exact Eb |].
  split; [apply palette_plain | apply palette_no_breaks]; assumption.
Qed.

Lemma palette_fits_writer_witness :
  well_formed no_theme
  /\ exists pal,
       build_starship_palette no_theme = Some pal
       /\ plain_values pal = true /\ values_no_breaks pal = true.
Proof.
  split; [exact no_theme_well_formed |].
  exact (palette_fits_writer no_theme no_theme_well_formed).
Defined.
